(** * UniST: liquidity sizing, positions and the pool simulation

    A shallow embedding of [univ3api/utils.py] ([PositionUtil],
    [PriceConverter]) and [univ3api/simulation.py] ([PositionInstance],
    [PoolSimiulation]).

    Python values are modelled as the interpreter has them:
    - [int] is [Z];
    - [float] is IEEE 754 binary64, as [spec_float] with precision 53 and
      maximal exponent 1024, every operation rounding to nearest even;
    - a value that is either an [int] or a [float] ([liquidity], [pct]) is
      a [num];
    - a raised exception is a [Raise] result; stateful methods are state
      transformers that return the state reached when the exception left
      the method, so that a mutation made before a failure stays visible. *)

From Stdlib Require Import ZArith Lia List Bool String Sorted.
From Stdlib Require Import Floats.SpecFloat.
From stdpp Require Import base option list gmap.

Local Open Scope Z_scope.

(** ** Exceptions and results *)

Inductive exn : Type :=
| AssertionError
| ValueError (msg : string)
| ZeroDivisionError
| OverflowError
| KeyError
| StopIteration.

Inductive result (A : Type) : Type :=
| Ok (a : A)
| Raise (e : exn).
Arguments Ok {A} a.
Arguments Raise {A} e.

Global Instance result_ret : MRet result := fun _ a => Ok a.
Global Instance result_bind : MBind result := fun _ _ f m =>
  match m with
  | Ok a => f a
  | Raise e => Raise e
  end.

(** [assert c]: raises [AssertionError] when [c] is falsy. *)
Definition py_assert (c : bool) : result unit :=
  if c then Ok tt else Raise AssertionError.

(** ** Python floats (binary64) *)

Module PyFloat.

Definition float := spec_float.

Definition prec : Z := 53.
Definition emax : Z := 1024.

Definition fadd : float -> float -> float := SFadd prec emax.
Definition fsub : float -> float -> float := SFsub prec emax.
Definition fmul : float -> float -> float := SFmul prec emax.
Definition fdiv : float -> float -> float := SFdiv prec emax.
Definition fleb : float -> float -> bool := SFleb.
Definition fltb : float -> float -> bool := SFltb.
Definition feqb : float -> float -> bool := SFeqb.

Definition is_zero (x : float) : bool :=
  match x with S754_zero _ => true | _ => false end.

Definition is_finite (x : float) : bool :=
  match x with S754_zero _ | S754_finite _ _ _ => true | _ => false end.

(** [m * 2**e] rounded to the nearest float; [OverflowError] when the
    rounded value is not finite (what CPython does for [float(n)] and for
    the true division of two ints). *)
Definition round_int (m e : Z) : result float :=
  match binary_normalize prec emax m e false with
  | S754_infinity _ => Raise OverflowError
  | x => Ok x
  end.

(** [float(n)]. *)
Definition float_of_int (n : Z) : result float := round_int n 0.

(** [a / b] on ints: the exact quotient rounded once to the nearest
    float. The quotient is taken with at least 64 significant bits and a
    sticky last bit, which rounds like the exact value. *)
Definition int_truediv (a b : Z) : result float :=
  if b =? 0 then Raise ZeroDivisionError
  else
    let neg := xorb (a <? 0) (b <? 0) in
    let a' := Z.abs a in
    let b' := Z.abs b in
    if a' =? 0 then Ok (S754_zero neg)
    else
      let k := Z.max 0 (Z.log2 b' - Z.log2 a' + 64) in
      let q := (a' * 2 ^ k) / b' in
      let r := (a' * 2 ^ k) mod b' in
      round_int (cond_Zopp neg (2 * q + (if r =? 0 then 0 else 1))) (- (k + 1)).

(** [x / y] on floats: a zero divisor raises. *)
Definition truediv (x y : float) : result float :=
  if is_zero y then Raise ZeroDivisionError else Ok (fdiv x y).

(** The exact integer a finite float truncates to (toward zero). *)
Definition trunc (x : float) : Z :=
  match x with
  | S754_finite s m e => cond_Zopp s (Z.shiftl (Zpos m) e)
  | _ => 0
  end.

(** The floor of a finite float. *)
Definition floor (x : float) : Z :=
  match x with
  | S754_finite s m e => Z.shiftl (cond_Zopp s (Zpos m)) e
  | _ => 0
  end.

(** The sign bit of a float that has one. *)
Definition is_negative (x : float) : bool :=
  match x with
  | S754_zero s | S754_infinity s | S754_finite s _ _ => s
  | S754_nan => false
  end.

(** [int(x)]. *)
Definition py_int (x : float) : result Z :=
  match x with
  | S754_nan => Raise (ValueError "cannot convert float NaN to integer")
  | S754_infinity _ => Raise OverflowError
  | _ => Ok (trunc x)
  end.

(** [math.sqrt(x)]: a negative argument is a domain error. *)
Definition math_sqrt (x : float) : result float :=
  match x with
  | S754_finite true _ _ | S754_infinity true =>
      Raise (ValueError "math domain error")
  | _ => Ok (SFsqrt prec emax x)
  end.

(** Literals. *)
Definition f0 : float := S754_zero false.
Definition f1 : float := Eval vm_compute in binary_normalize prec emax 1 0 false.
Definition f2 : float := Eval vm_compute in binary_normalize prec emax 2 0 false.
Definition f1e6 : float :=
  Eval vm_compute in binary_normalize prec emax 1000000 0 false.
(** [1.0001], the double nearest to 10001/10000. *)
Definition f1_0001 : float :=
  Eval vm_compute in
    SFdiv prec emax (binary_normalize prec emax 10001 0 false)
                    (binary_normalize prec emax 10000 0 false).
Definition math_inf : float := S754_infinity false.

(** Exact comparison of an int with a float, as CPython compares mixed
    operands: no rounding of the int. [None] for NaN. *)
Definition Zcompare_float (a : Z) (y : float) : option comparison :=
  match y with
  | S754_nan => None
  | S754_infinity s => Some (if s then Gt else Lt)
  | S754_zero _ => Some (a ?= 0)
  | S754_finite s m e =>
      if 0 <=? e then Some (a ?= cond_Zopp s (Z.shiftl (Zpos m) e))
      else Some (Z.shiftl a (- e) ?= cond_Zopp s (Zpos m))
  end.

End PyFloat.
Import PyFloat.

(** ** Numbers: int or float *)

Inductive num : Type :=
| I (n : Z)
| F (x : float).

Module Num.

(** Truth value of a number: zero is falsy (NaN is truthy). *)
Definition truthy (a : num) : bool :=
  match a with
  | I n => negb (n =? 0)
  | F x => negb (is_zero x)
  end.

Definition to_float (a : num) : result float :=
  match a with
  | I n => float_of_int n
  | F x => Ok x
  end.

(** Binary arithmetic: int with int stays int, anything else is done on
    floats after converting the int operand. *)
Definition arith (fZ : Z -> Z -> Z) (fF : float -> float -> float)
    (a b : num) : result num :=
  match a, b with
  | I x, I y => Ok (I (fZ x y))
  | _, _ => x ← to_float a; y ← to_float b; Ok (F (fF x y))
  end.

Definition add : num -> num -> result num := arith Z.add fadd.
Definition sub : num -> num -> result num := arith Z.sub fsub.
Definition mul : num -> num -> result num := arith Z.mul fmul.

(** [a * x] with [x] a float. *)
Definition mul_float (a : num) (x : float) : result float :=
  y ← to_float a; Ok (fmul y x).

(** [a < b]. *)
Definition ltb (a b : num) : bool :=
  match a, b with
  | I x, I y => x <? y
  | F x, F y => fltb x y
  | I x, F y =>
      match Zcompare_float x y with Some Lt => true | _ => false end
  | F x, I y =>
      match Zcompare_float y x with Some Gt => true | _ => false end
  end.

(** [a <= b]. *)
Definition leb (a b : num) : bool :=
  match a, b with
  | I x, I y => x <=? y
  | F x, F y => fleb x y
  | I x, F y =>
      match Zcompare_float x y with Some (Lt | Eq) => true | _ => false end
  | F x, I y =>
      match Zcompare_float y x with Some (Gt | Eq) => true | _ => false end
  end.

(** [a == 0]. *)
Definition eq_zero (a : num) : bool :=
  match a with
  | I n => n =? 0
  | F x => is_zero x
  end.

(** A number a position can hold as its liquidity after the arithmetic of
    the class: any int, or a finite binary64 value. *)
Definition finite (a : num) : bool :=
  match a with
  | I _ => true
  | F x => is_finite x && valid_binary prec emax x
  end.

(** The zero of the type of [a]: [0] for an int, [0.0] for a float. *)
Definition zero_like (a : num) : num :=
  match a with
  | I _ => I 0
  | F _ => F f0
  end.

(** [int(a)]. *)
Definition to_int (a : num) : result Z :=
  match a with
  | I n => Ok n
  | F x => py_int x
  end.

End Num.

(** ** PositionUtil: the sizing algorithm *)

Module PositionUtil.

(** The candidate [l0] of the in-range case: [math.inf] unless [amt0]
    is truthy. *)
Definition candidate0 (sqrt_price sqrt_upper : float) (amt0 : Z)
    : result num :=
  if negb (amt0 =? 0) then
    n ← Num.mul_float (I amt0) (fmul sqrt_upper sqrt_price);
    q ← truediv n (fsub sqrt_upper sqrt_price);
    l ← py_int q;
    Ok (I l)
  else Ok (F math_inf).

(** The candidate [l1] of the in-range case. *)
Definition candidate1 (sqrt_price sqrt_lower : float) (amt1 : Z)
    : result num :=
  if negb (amt1 =? 0) then
    a ← float_of_int amt1;
    q ← truediv a (fsub sqrt_price sqrt_lower);
    l ← py_int q;
    Ok (I l)
  else Ok (F math_inf).

(** The amount of token1 recomputed from a liquidity in the in-range
    case, and the amount of token0. *)
Definition recomputed1 (l : num) (sqrt_price sqrt_lower : float) : result Z :=
  v ← Num.mul_float l (fsub sqrt_price sqrt_lower);
  py_int v.
Definition recomputed0 (l : num) (sqrt_price sqrt_upper : float) : result Z :=
  n ← Num.mul_float l (fsub sqrt_upper sqrt_price);
  q ← truediv n (fmul sqrt_upper sqrt_price);
  py_int q.

(** [cal_liquidity_sqrt(sqrt_price, sqrt_lower, sqrt_upper, amt0, amt1)].
    An amount given as [None] behaves as [0] here: it is only tested for
    truth, and the side it stands for is recomputed or returned as the
    literal [0]. *)
Definition cal_liquidity_sqrt (sqrt_price sqrt_lower sqrt_upper : float)
    (amt0 amt1 : Z) : result (num * Z * Z) :=
  if fleb sqrt_price sqrt_lower then
    _ ← py_assert (negb (amt0 =? 0));
    t ← truediv (fmul sqrt_upper sqrt_lower) (fsub sqrt_upper sqrt_lower);
    v ← Num.mul_float (I amt0) t;
    l ← py_int v;
    Ok (I l, amt0, 0)
  else if fleb sqrt_price sqrt_upper then
    _ ← py_assert (negb (amt0 =? 0) || negb (amt1 =? 0));
    l0 ← candidate0 sqrt_price sqrt_upper amt0;
    l1 ← candidate1 sqrt_price sqrt_lower amt1;
    if Num.ltb l0 l1 then
      amt1' ← recomputed1 l0 sqrt_price sqrt_lower;
      Ok (l0, amt0, amt1')
    else
      amt0' ← recomputed0 l1 sqrt_price sqrt_upper;
      Ok (l1, amt0', amt1)
  else
    _ ← py_assert (negb (amt1 =? 0));
    a ← float_of_int amt1;
    q ← truediv a (fsub sqrt_upper sqrt_lower);
    l ← py_int q;
    Ok (I l, 0, amt1).

(** [cal_liquidity(cprice, upper, lower, amt0, amt1)]: the same algorithm
    on prices, taking [math.sqrt] at every use. *)
Definition cal_liquidity (cprice upper lower : float) (amt0 amt1 : Z)
    : result (num * Z * Z) :=
  if fleb cprice lower then
    _ ← py_assert (negb (amt0 =? 0));
    su ← math_sqrt upper; sl ← math_sqrt lower;
    su' ← math_sqrt upper; sl' ← math_sqrt lower;
    t ← truediv (fmul su sl) (fsub su' sl');
    v ← Num.mul_float (I amt0) t;
    l ← py_int v;
    Ok (I l, amt0, 0)
  else if fleb cprice upper then
    _ ← py_assert (negb (amt0 =? 0) || negb (amt1 =? 0));
    l0 ← (if negb (amt0 =? 0) then
            su ← math_sqrt upper; sp ← math_sqrt cprice;
            n ← Num.mul_float (I amt0) (fmul su sp);
            su' ← math_sqrt upper; sp' ← math_sqrt cprice;
            q ← truediv n (fsub su' sp');
            l ← py_int q;
            Ok (I l)
          else Ok (F math_inf));
    l1 ← (if negb (amt1 =? 0) then
            sp ← math_sqrt cprice; sl ← math_sqrt lower;
            a ← float_of_int amt1;
            q ← truediv a (fsub sp sl);
            l ← py_int q;
            Ok (I l)
          else Ok (F math_inf));
    if Num.ltb l0 l1 then
      sp ← math_sqrt cprice; sl ← math_sqrt lower;
      v ← Num.mul_float l0 (fsub sp sl);
      amt1' ← py_int v;
      Ok (l0, amt0, amt1')
    else
      su ← math_sqrt upper; sp ← math_sqrt cprice;
      n ← Num.mul_float l1 (fsub su sp);
      su' ← math_sqrt upper; sp' ← math_sqrt cprice;
      q ← truediv n (fmul su' sp');
      amt0' ← py_int q;
      Ok (l1, amt0', amt1)
  else
    _ ← py_assert (negb (amt1 =? 0));
    su ← math_sqrt upper; sl ← math_sqrt lower;
    a ← float_of_int amt1;
    q ← truediv a (fsub su sl);
    l ← py_int q;
    Ok (I l, 0, amt1).

End PositionUtil.

(** ** PriceConverter *)

Record PriceConverter := { pc_decimal0 : Z; pc_decimal1 : Z; factor : num }.

Module Price.

Section WithLibm.

Variable float_pow : float -> float -> result float.
(** The C library's [log] at a positive finite argument. *)
Variable c_log : float -> float.

(** [PriceConverter.__init__]: [10 ** e] is an int for [e >= 0] and a
    float power otherwise. *)
Definition new_converter (d0 d1 : Z) : result PriceConverter :=
  fac ← (if 0 <=? d1 - d0 then Ok (I (10 ^ (d1 - d0)))
         else
           b ← float_of_int 10;
           e ← float_of_int (d1 - d0);
           v ← float_pow b e;
           Ok (F v));
  Ok {| pc_decimal0 := d0; pc_decimal1 := d1; factor := fac |}.

(** [math.log] of one argument. *)
Definition m_log (x : float) : result float :=
  match x with
  | S754_nan => Ok S754_nan
  | S754_infinity false => Ok (S754_infinity false)
  | S754_finite false _ _ => Ok (c_log x)
  | _ => Raise (ValueError "math domain error")
  end.

(** [math.log(x, base)]. *)
Definition math_log (x base : float) : result float :=
  n ← m_log x;
  d ← m_log base;
  truediv n d.

(** [PriceConverter.price_to_dex]. *)
Definition price_to_dex (pc : PriceConverter) (price : float)
    (reverse : bool) : result float :=
  if negb reverse then
    Num.mul_float (factor pc) price
  else
    fac ← Num.to_float (factor pc);
    truediv fac price.

(** [PriceConverter.price_to_tick]. *)
Definition price_to_tick (pc : PriceConverter) (price : float)
    (reverse : bool) : result Z :=
  d ← price_to_dex pc price reverse;
  y ← math_log d f1_0001;
  py_int y.

(** [PriceConverter.tick_to_price]: [1.0001 ** tick] is a float power
    of the int [tick]; both operands of the division are converted to
    floats before the divisor is tested. *)
Definition tick_to_price (pc : PriceConverter) (tick : Z) (reverse : bool)
    : result float :=
  t ← float_of_int tick;
  p ← float_pow f1_0001 t;
  fac ← Num.to_float (factor pc);
  if negb reverse then truediv p fac else truediv fac p.

End WithLibm.

End Price.

(** ** State and exceptions

    A method of an object of type [S]: it reads and mutates the object and
    either returns a value or raises. *)

Definition M (S A : Type) : Type := S -> result A * S.

Global Instance M_ret {S} : MRet (M S) := fun _ a s => (Ok a, s).
Global Instance M_bind {S} : MBind (M S) := fun _ _ f m s =>
  match m s with
  | (Ok a, s') => f a s'
  | (Raise e, s') => (Raise e, s')
  end.

Definition lift {S A} (r : result A) : M S A := fun s => (r, s).
Definition get {S} : M S S := fun s => (Ok s, s).
Definition reads {S A} (f : S -> result A) : M S A := fun s => (f s, s).
Definition modify {S} (f : S -> S) : M S unit := fun s => (Ok tt, f s).

(** [try: m / except: h; raise]. *)
Definition try_except_reraise {S A} (m : M S A) (h : M S unit) : M S A :=
  fun s =>
    match m s with
    | (Ok a, s') => (Ok a, s')
    | (Raise e, s') =>
        match h s' with
        | (Ok _, s'') => (Raise e, s'')
        | (Raise e', s'') => (Raise e', s'')
        end
    end.

(** [for x in xs: body(x)]. *)
Fixpoint for_each {S A} (xs : list A) (body : A -> M S unit) : M S unit :=
  match xs with
  | [] => mret tt
  | x :: xs' => _ ← body x; for_each xs' body
  end.

(** ** Log records *)

Record LiquidityLog := {
  ll_block : Z; ll_timestamp : Z; ll_liquidity : num }.

Record PositionBalanceLog := {
  pb_block : Z; pb_timestamp : Z;
  pb_amount0 : Z; pb_amount1 : Z; pb_fee0 : Z; pb_fee1 : Z }.

Record WalletLog := {
  wl_block : Z; wl_timestamp : Z; wl_amount0 : Z; wl_amount1 : Z }.

(** ** PositionInstance (with the fields of its base class PositionUtil)

    The decimal-scaling fields ([factor0], [factor1], [factor],
    [cex_price_lower], [cex_price_upper]) feed only [qty0]/[qty1], [__str__]
    and the report; no method below reads them and they are left out of
    the record. The constructor still computes them ([new_position]). *)

Record PositionInstance := {
  liquidity : num;
  tick_lower : Z;
  tick_upper : Z;
  low_price_sqrt : float;
  low_price_sqrt_r : float;
  high_price_sqrt : float;
  high_price_sqrt_r : float;
  _amount0_edge : Z;
  _amount1_edge : Z;
  p_decimal0 : Z;
  p_decimal1 : Z;
  fee_rate : Z;
  fee0 : Z;
  fee1 : Z;
  token_id : Z;
  balance : list PositionBalanceLog;
  history : list LiquidityLog }.

Module Position.

Definition set_liquidity (v : num) (p : PositionInstance) :=
  {| liquidity := v; tick_lower := tick_lower p; tick_upper := tick_upper p;
     low_price_sqrt := low_price_sqrt p;
     low_price_sqrt_r := low_price_sqrt_r p;
     high_price_sqrt := high_price_sqrt p;
     high_price_sqrt_r := high_price_sqrt_r p;
     _amount0_edge := _amount0_edge p; _amount1_edge := _amount1_edge p;
     p_decimal0 := p_decimal0 p; p_decimal1 := p_decimal1 p;
     fee_rate := fee_rate p; fee0 := fee0 p; fee1 := fee1 p;
     token_id := token_id p; balance := balance p; history := history p |}.

Definition set_amount0_edge (v : Z) (p : PositionInstance) :=
  {| liquidity := liquidity p; tick_lower := tick_lower p;
     tick_upper := tick_upper p;
     low_price_sqrt := low_price_sqrt p;
     low_price_sqrt_r := low_price_sqrt_r p;
     high_price_sqrt := high_price_sqrt p;
     high_price_sqrt_r := high_price_sqrt_r p;
     _amount0_edge := v; _amount1_edge := _amount1_edge p;
     p_decimal0 := p_decimal0 p; p_decimal1 := p_decimal1 p;
     fee_rate := fee_rate p; fee0 := fee0 p; fee1 := fee1 p;
     token_id := token_id p; balance := balance p; history := history p |}.

Definition set_amount1_edge (v : Z) (p : PositionInstance) :=
  {| liquidity := liquidity p; tick_lower := tick_lower p;
     tick_upper := tick_upper p;
     low_price_sqrt := low_price_sqrt p;
     low_price_sqrt_r := low_price_sqrt_r p;
     high_price_sqrt := high_price_sqrt p;
     high_price_sqrt_r := high_price_sqrt_r p;
     _amount0_edge := _amount0_edge p; _amount1_edge := v;
     p_decimal0 := p_decimal0 p; p_decimal1 := p_decimal1 p;
     fee_rate := fee_rate p; fee0 := fee0 p; fee1 := fee1 p;
     token_id := token_id p; balance := balance p; history := history p |}.

Definition set_fees (v0 v1 : Z) (p : PositionInstance) :=
  {| liquidity := liquidity p; tick_lower := tick_lower p;
     tick_upper := tick_upper p;
     low_price_sqrt := low_price_sqrt p;
     low_price_sqrt_r := low_price_sqrt_r p;
     high_price_sqrt := high_price_sqrt p;
     high_price_sqrt_r := high_price_sqrt_r p;
     _amount0_edge := _amount0_edge p; _amount1_edge := _amount1_edge p;
     p_decimal0 := p_decimal0 p; p_decimal1 := p_decimal1 p;
     fee_rate := fee_rate p; fee0 := v0; fee1 := v1;
     token_id := token_id p; balance := balance p; history := history p |}.

Definition set_balance (v : list PositionBalanceLog) (p : PositionInstance) :=
  {| liquidity := liquidity p; tick_lower := tick_lower p;
     tick_upper := tick_upper p;
     low_price_sqrt := low_price_sqrt p;
     low_price_sqrt_r := low_price_sqrt_r p;
     high_price_sqrt := high_price_sqrt p;
     high_price_sqrt_r := high_price_sqrt_r p;
     _amount0_edge := _amount0_edge p; _amount1_edge := _amount1_edge p;
     p_decimal0 := p_decimal0 p; p_decimal1 := p_decimal1 p;
     fee_rate := fee_rate p; fee0 := fee0 p; fee1 := fee1 p;
     token_id := token_id p; balance := v; history := history p |}.

Definition set_history (v : list LiquidityLog) (p : PositionInstance) :=
  {| liquidity := liquidity p; tick_lower := tick_lower p;
     tick_upper := tick_upper p;
     low_price_sqrt := low_price_sqrt p;
     low_price_sqrt_r := low_price_sqrt_r p;
     high_price_sqrt := high_price_sqrt p;
     high_price_sqrt_r := high_price_sqrt_r p;
     _amount0_edge := _amount0_edge p; _amount1_edge := _amount1_edge p;
     p_decimal0 := p_decimal0 p; p_decimal1 := p_decimal1 p;
     fee_rate := fee_rate p; fee0 := fee0 p; fee1 := fee1 p;
     token_id := token_id p; balance := balance p; history := v |}.

(** [PositionUtil.update_liquidity]: the liquidity is stored first, then
    each edge amount is recomputed and stored. *)
Definition update_liquidity (l : num) : M PositionInstance unit :=
  _ ← modify (set_liquidity l);
  e0 ← reads (fun p =>
         v ← Num.mul_float (liquidity p)
               (fsub (low_price_sqrt_r p) (high_price_sqrt_r p));
         py_int v);
  _ ← modify (set_amount0_edge e0);
  e1 ← reads (fun p =>
         v ← Num.mul_float (liquidity p)
               (fsub (high_price_sqrt p) (low_price_sqrt p));
         py_int v);
  modify (set_amount1_edge e1).

(** The two edge amounts [update_liquidity] computes for a liquidity. *)
Definition edge0 (l : num) (p : PositionInstance) : result Z :=
  v ← Num.mul_float l (fsub (low_price_sqrt_r p) (high_price_sqrt_r p));
  py_int v.
Definition edge1 (l : num) (p : PositionInstance) : result Z :=
  v ← Num.mul_float l (fsub (high_price_sqrt p) (low_price_sqrt p));
  py_int v.

(** The object invariant [update_liquidity] establishes: the stored edge
    amounts are those of the stored liquidity. *)
Definition consistent (p : PositionInstance) : Prop :=
  edge0 (liquidity p) p = Ok (_amount0_edge p) /\
  edge1 (liquidity p) p = Ok (_amount1_edge p).

(** A position with liquidity [l] and edge amounts [e0], [e1]. *)
Definition with_liquidity (l : num) (e0 e1 : Z) (p : PositionInstance) :=
  set_amount1_edge e1 (set_amount0_edge e0 (set_liquidity l p)).

(** [PositionUtil.amount0_psqrt]. *)
Definition amount0_psqrt (p : PositionInstance) (psqrt : float) : result Z :=
  if fleb psqrt (low_price_sqrt p) then Ok (_amount0_edge p)
  else if fltb psqrt (high_price_sqrt p) then
    r ← truediv f1 psqrt;
    v ← Num.mul_float (liquidity p) (fsub r (high_price_sqrt_r p));
    py_int v
  else Ok 0.

(** [PositionUtil.amount1_psqrt]. *)
Definition amount1_psqrt (p : PositionInstance) (psqrt : float) : result Z :=
  if fleb psqrt (low_price_sqrt p) then Ok 0
  else if fltb psqrt (high_price_sqrt p) then
    v ← Num.mul_float (liquidity p) (fsub psqrt (low_price_sqrt p));
    py_int v
  else Ok (_amount1_edge p).

(** [PositionInstance.increase_liquidity]. *)
Definition increase_liquidity (sqrt_price : float) (amount0 amount1 : Z)
    : M PositionInstance (num * Z * Z) :=
  amt0 ← reads (fun p => amount0_psqrt p sqrt_price);
  amt1 ← reads (fun p => amount1_psqrt p sqrt_price);
  '(l, _, _) ← reads (fun p =>
      PositionUtil.cal_liquidity_sqrt sqrt_price
        (low_price_sqrt p) (high_price_sqrt p) amount0 amount1);
  liq ← reads (fun p => Num.add (liquidity p) l);
  _ ← update_liquidity liq;
  a0 ← reads (fun p => amount0_psqrt p sqrt_price);
  a1 ← reads (fun p => amount1_psqrt p sqrt_price);
  mret (l, a0 - amt0, a1 - amt1).

(** Truth value of an optional number: [None] is falsy. *)
Definition opt_truthy (o : option num) : bool :=
  match o with
  | None => false
  | Some a => Num.truthy a
  end.

(** [PositionInstance.decrease_liquidity]; [liquidity=None] is
    [liq = None], the default [pct] is [I 1]. *)
Definition decrease_liquidity (sqrt_price : float) (liq : option num)
    (pct : num) : M PositionInstance (num * Z * Z) :=
  _ ← lift (py_assert (opt_truthy liq || Num.truthy pct));
  amount ← (match liq with
            | Some a =>
                if Num.truthy a then mret a
                else
                  _ ← lift (py_assert (Num.ltb (I 0) pct && Num.leb pct (I 1)));
                  reads (fun p => Num.mul (liquidity p) pct)
            | None =>
                _ ← lift (py_assert (Num.ltb (I 0) pct && Num.leb pct (I 1)));
                reads (fun p => Num.mul (liquidity p) pct)
            end);
  a0 ← reads (fun p => amount0_psqrt p sqrt_price);
  a1 ← reads (fun p => amount1_psqrt p sqrt_price);
  liq' ← reads (fun p => Num.sub (liquidity p) amount);
  _ ← update_liquidity liq';
  l ← reads (fun p => Ok (liquidity p));
  b0 ← reads (fun p => amount0_psqrt p sqrt_price);
  b1 ← reads (fun p => amount1_psqrt p sqrt_price);
  mret (l, a0 - b0, a1 - b1).

(** [int(amount * fee_rate / 1000000)] with [amount] and [fee_rate] ints:
    the product is an int, the quotient by the int [1000000] is their true
    division, a float. *)
Definition fee_of (amount rate : Z) : result Z :=
  q ← int_truediv (amount * rate) 1000000;
  py_int q.

(** [PositionInstance.swap]. *)
Definition swap (from_sqrt_price to_sqrt_price : float)
    : M PositionInstance (Z * Z) :=
  if fltb from_sqrt_price to_sqrt_price then
    t ← reads (fun p => amount1_psqrt p to_sqrt_price);
    f ← reads (fun p => amount1_psqrt p from_sqrt_price);
    fee ← reads (fun p => fee_of (t - f) (fee_rate p));
    _ ← modify (fun p => set_fees (fee0 p) (fee1 p + fee) p);
    mret (0, fee)
  else
    t ← reads (fun p => amount0_psqrt p to_sqrt_price);
    f ← reads (fun p => amount0_psqrt p from_sqrt_price);
    fee ← reads (fun p => fee_of (t - f) (fee_rate p));
    _ ← modify (fun p => set_fees (fee0 p + fee) (fee1 p) p);
    mret (fee, 0).

(** [PositionInstance.is_active], as a truth value. *)
Definition is_active (p : PositionInstance) (sqrt_price : float) : bool :=
  Num.truthy (liquidity p)
  && (fleb (low_price_sqrt p) sqrt_price
      && fleb sqrt_price (high_price_sqrt p)).

(** [PositionInstance.collect]. *)
Definition collect : M PositionInstance (Z * Z) :=
  p ← get;
  _ ← modify (set_fees 0 0);
  mret (fee0 p, fee1 p).

(** [PositionInstance.log_history]. *)
Definition log_history (block timestamp : Z) : M PositionInstance unit :=
  modify (fun p =>
    set_history (history p ++
      [{| ll_block := block; ll_timestamp := timestamp;
          ll_liquidity := liquidity p |}]) p).

(** [PositionInstance.log_balance]. *)
Definition log_balance (block timestamp : Z) (sqrt_price : float)
    (fee0 fee1 : Z) : M PositionInstance unit :=
  a0 ← reads (fun p => amount0_psqrt p sqrt_price);
  a1 ← reads (fun p => amount1_psqrt p sqrt_price);
  modify (fun p =>
    set_balance (balance p ++
      [{| pb_block := block; pb_timestamp := timestamp;
          pb_amount0 := a0; pb_amount1 := a1;
          pb_fee0 := fee0; pb_fee1 := fee1 |}]) p).

End Position.

(** ** PoolSimiulation *)

Record SwapEvent := {
  ev_sqrtPriceX96 : Z;
  ev_tick : Z;
  ev_blockNumber : Z;
  ev_liquidity : Z;
  ev_timestamp : Z }.

(** [positions] is the registry of position objects by token id;
    [valid_positions] holds references to objects of the registry under
    the same keys, so it is kept as its keys in insertion order and read
    through the registry. [fee] is the integer value of the [PoolFee]
    member. *)
Record PoolSimiulation := {
  decimal0 : Z;
  decimal1 : Z;
  amount0 : Z;
  amount1 : Z;
  positions : gmap Z PositionInstance;
  valid_positions : list Z;
  _next_token_id : Z;
  fee : Z;
  tick : Z;
  sqrt_price_x96 : Z;
  sqrt_price : float;
  block_number : Z;
  timestamp : Z;
  L : Z;
  _price_reverse : bool;
  wallet_logs : list WalletLog }.

Module Sim.

Definition set_wallet (a0 a1 : Z) (s : PoolSimiulation) :=
  {| decimal0 := decimal0 s; decimal1 := decimal1 s;
     amount0 := a0; amount1 := a1;
     positions := positions s; valid_positions := valid_positions s;
     _next_token_id := _next_token_id s; fee := fee s; tick := tick s;
     sqrt_price_x96 := sqrt_price_x96 s; sqrt_price := sqrt_price s;
     block_number := block_number s; timestamp := timestamp s; L := L s;
     _price_reverse := _price_reverse s; wallet_logs := wallet_logs s |}.

Definition set_positions (v : gmap Z PositionInstance) (s : PoolSimiulation) :=
  {| decimal0 := decimal0 s; decimal1 := decimal1 s;
     amount0 := amount0 s; amount1 := amount1 s;
     positions := v; valid_positions := valid_positions s;
     _next_token_id := _next_token_id s; fee := fee s; tick := tick s;
     sqrt_price_x96 := sqrt_price_x96 s; sqrt_price := sqrt_price s;
     block_number := block_number s; timestamp := timestamp s; L := L s;
     _price_reverse := _price_reverse s; wallet_logs := wallet_logs s |}.

Definition set_valid_positions (v : list Z) (s : PoolSimiulation) :=
  {| decimal0 := decimal0 s; decimal1 := decimal1 s;
     amount0 := amount0 s; amount1 := amount1 s;
     positions := positions s; valid_positions := v;
     _next_token_id := _next_token_id s; fee := fee s; tick := tick s;
     sqrt_price_x96 := sqrt_price_x96 s; sqrt_price := sqrt_price s;
     block_number := block_number s; timestamp := timestamp s; L := L s;
     _price_reverse := _price_reverse s; wallet_logs := wallet_logs s |}.

Definition set_next_token_id (v : Z) (s : PoolSimiulation) :=
  {| decimal0 := decimal0 s; decimal1 := decimal1 s;
     amount0 := amount0 s; amount1 := amount1 s;
     positions := positions s; valid_positions := valid_positions s;
     _next_token_id := v; fee := fee s; tick := tick s;
     sqrt_price_x96 := sqrt_price_x96 s; sqrt_price := sqrt_price s;
     block_number := block_number s; timestamp := timestamp s; L := L s;
     _price_reverse := _price_reverse s; wallet_logs := wallet_logs s |}.

Definition set_wallet_logs (v : list WalletLog) (s : PoolSimiulation) :=
  {| decimal0 := decimal0 s; decimal1 := decimal1 s;
     amount0 := amount0 s; amount1 := amount1 s;
     positions := positions s; valid_positions := valid_positions s;
     _next_token_id := _next_token_id s; fee := fee s; tick := tick s;
     sqrt_price_x96 := sqrt_price_x96 s; sqrt_price := sqrt_price s;
     block_number := block_number s; timestamp := timestamp s; L := L s;
     _price_reverse := _price_reverse s; wallet_logs := v |}.

Definition set_sqrt_price_x96 (v : Z) (s : PoolSimiulation) :=
  {| decimal0 := decimal0 s; decimal1 := decimal1 s;
     amount0 := amount0 s; amount1 := amount1 s;
     positions := positions s; valid_positions := valid_positions s;
     _next_token_id := _next_token_id s; fee := fee s; tick := tick s;
     sqrt_price_x96 := v; sqrt_price := sqrt_price s;
     block_number := block_number s; timestamp := timestamp s; L := L s;
     _price_reverse := _price_reverse s; wallet_logs := wallet_logs s |}.

Definition set_tick (v : Z) (s : PoolSimiulation) :=
  {| decimal0 := decimal0 s; decimal1 := decimal1 s;
     amount0 := amount0 s; amount1 := amount1 s;
     positions := positions s; valid_positions := valid_positions s;
     _next_token_id := _next_token_id s; fee := fee s; tick := v;
     sqrt_price_x96 := sqrt_price_x96 s; sqrt_price := sqrt_price s;
     block_number := block_number s; timestamp := timestamp s; L := L s;
     _price_reverse := _price_reverse s; wallet_logs := wallet_logs s |}.

Definition set_block_number (v : Z) (s : PoolSimiulation) :=
  {| decimal0 := decimal0 s; decimal1 := decimal1 s;
     amount0 := amount0 s; amount1 := amount1 s;
     positions := positions s; valid_positions := valid_positions s;
     _next_token_id := _next_token_id s; fee := fee s; tick := tick s;
     sqrt_price_x96 := sqrt_price_x96 s; sqrt_price := sqrt_price s;
     block_number := v; timestamp := timestamp s; L := L s;
     _price_reverse := _price_reverse s; wallet_logs := wallet_logs s |}.

Definition set_L (v : Z) (s : PoolSimiulation) :=
  {| decimal0 := decimal0 s; decimal1 := decimal1 s;
     amount0 := amount0 s; amount1 := amount1 s;
     positions := positions s; valid_positions := valid_positions s;
     _next_token_id := _next_token_id s; fee := fee s; tick := tick s;
     sqrt_price_x96 := sqrt_price_x96 s; sqrt_price := sqrt_price s;
     block_number := block_number s; timestamp := timestamp s; L := v;
     _price_reverse := _price_reverse s; wallet_logs := wallet_logs s |}.

Definition set_sqrt_price (v : float) (s : PoolSimiulation) :=
  {| decimal0 := decimal0 s; decimal1 := decimal1 s;
     amount0 := amount0 s; amount1 := amount1 s;
     positions := positions s; valid_positions := valid_positions s;
     _next_token_id := _next_token_id s; fee := fee s; tick := tick s;
     sqrt_price_x96 := sqrt_price_x96 s; sqrt_price := v;
     block_number := block_number s; timestamp := timestamp s; L := L s;
     _price_reverse := _price_reverse s; wallet_logs := wallet_logs s |}.

Definition set_timestamp (v : Z) (s : PoolSimiulation) :=
  {| decimal0 := decimal0 s; decimal1 := decimal1 s;
     amount0 := amount0 s; amount1 := amount1 s;
     positions := positions s; valid_positions := valid_positions s;
     _next_token_id := _next_token_id s; fee := fee s; tick := tick s;
     sqrt_price_x96 := sqrt_price_x96 s; sqrt_price := sqrt_price s;
     block_number := block_number s; timestamp := v; L := L s;
     _price_reverse := _price_reverse s; wallet_logs := wallet_logs s |}.

(** [PoolSimiulation.__init__]; [sqrt_price] starts as the int [0], which
    compares, divides and multiplies like the float [0.0]. *)
Definition init_sim (a0 a1 d0 d1 fee_value : Z) (price_reverse : bool)
    : PoolSimiulation :=
  {| decimal0 := d0; decimal1 := d1; amount0 := a0; amount1 := a1;
     positions := ∅; valid_positions := [];
     _next_token_id := 0; fee := fee_value; tick := 0;
     sqrt_price_x96 := 0; sqrt_price := f0;
     block_number := 0; timestamp := 0; L := 0;
     _price_reverse := price_reverse; wallet_logs := [] |}.

(** A method call on the position object registered under [tid]; the
    object keeps the mutations made before an exception. *)
Definition with_position {A} (tid : Z) (m : M PositionInstance A)
    : M PoolSimiulation A :=
  fun s =>
    match positions s !! tid with
    | None => (Raise KeyError, s)
    | Some p =>
        let '(r, p') := m p in
        (r, set_positions (<[tid := p']> (positions s)) s)
    end.

(** [record_wallet]. *)
Definition record_wallet : M PoolSimiulation unit :=
  modify (fun s =>
    set_wallet_logs (wallet_logs s ++
      [{| wl_block := block_number s; wl_timestamp := timestamp s;
          wl_amount0 := amount0 s; wl_amount1 := amount1 s |}]) s).

(** The [next_token_id] property: increments, then reads. *)
Definition next_token_id : M PoolSimiulation Z :=
  _ ← modify (fun s => set_next_token_id (_next_token_id s + 1) s);
  s ← get;
  mret (_next_token_id s).

(** Membership, insertion and removal of a key of [valid_positions]. *)
Definition valid_mem (tid : Z) (v : list Z) : bool :=
  bool_decide (tid ∈ v).
Definition valid_set (tid : Z) (v : list Z) : list Z :=
  if valid_mem tid v then v else v ++ [tid].
Definition valid_pop (tid : Z) (v : list Z) : list Z :=
  filter (fun k => k ≠ tid) v.

Section WithPow.

(** [x ** y] on floats is the C library's [pow]; CPython raises when it
    reports a range or domain error. *)
Variable float_pow : float -> float -> result float.

(** [1.0001 ** (t / 2)] for an int [t]. *)
Definition sqrt_price_at_tick (t : Z) : result float :=
  h ← int_truediv t 2;
  float_pow f1_0001 h.

(** [10 ** e] for an int [e]: an int for [e >= 0], else the float power
    of the two ints converted. *)
Definition ten_to_the (e : Z) : result num :=
  if 0 <=? e then Ok (I (10 ^ e))
  else
    b ← float_of_int 10;
    x ← float_of_int e;
    v ← float_pow b x;
    Ok (F v).

(** [PositionInstance.__init__]: the constructor of [PositionUtil], then
    the fields of the subclass. After [update_liquidity] the base
    constructor computes [factor0], [factor1], [factor] and the two cex
    price bounds; they are not kept (see [PositionInstance]) but their
    computation is, for what it can raise. *)
Definition new_position (l : num) (lower upper d0 d1 rate tid : Z)
    (price_reverse : bool) : result PositionInstance :=
  _ ← py_assert (lower <? upper);
  _ ← py_assert (lower mod 60 =? 0);
  _ ← py_assert (upper mod 60 =? 0);
  lo ← sqrt_price_at_tick lower;
  lo_r ← truediv f1 lo;
  hi ← sqrt_price_at_tick upper;
  hi_r ← truediv f1 hi;
  let p := {| liquidity := l; tick_lower := lower; tick_upper := upper;
              low_price_sqrt := lo; low_price_sqrt_r := lo_r;
              high_price_sqrt := hi; high_price_sqrt_r := hi_r;
              _amount0_edge := 0; _amount1_edge := 0;
              p_decimal0 := d0; p_decimal1 := d1;
              fee_rate := rate; fee0 := 0; fee1 := 0; token_id := tid;
              balance := []; history := [] |} in
  match Position.update_liquidity l p with
  | (Ok _, p') =>
      _ ← ten_to_the (- d0);
      _ ← ten_to_the (- d1);
      _ ← ten_to_the (d1 - d0);
      pc ← Price.new_converter float_pow d0 d1;
      _ ← (if negb price_reverse then
             _ ← Price.tick_to_price float_pow pc lower false;
             Price.tick_to_price float_pow pc upper false
           else
             _ ← Price.tick_to_price float_pow pc upper true;
             Price.tick_to_price float_pow pc lower true);
      Ok p'
  | (Raise e, _) => Raise e
  end.

(** [PoolSimiulation.mint]; the returned position is given by its
    token id. *)
Definition mint (lower upper amt0 amt1 : Z)
    : M PoolSimiulation (Z * Z * Z) :=
  let lower := lower - lower mod 60 in
  let upper := upper - upper mod 60 in
  s ← get;
  _ ← lift (py_assert (amt0 <=? amount0 s));
  _ ← lift (py_assert (amt1 <=? amount1 s));
  '(l, _, _) ← lift (lo ← sqrt_price_at_tick lower;
                     hi ← sqrt_price_at_tick upper;
                     PositionUtil.cal_liquidity_sqrt (sqrt_price s) lo hi
                       amt0 amt1);
  tid ← next_token_id;
  position ← lift (new_position l lower upper (decimal0 s) (decimal1 s)
                     (fee s) tid (_price_reverse s));
  a0 ← lift (Position.amount0_psqrt position (sqrt_price s));
  a1 ← lift (Position.amount1_psqrt position (sqrt_price s));
  _ ← modify (fun s => set_wallet (amount0 s - a0) (amount1 s) s);
  _ ← modify (fun s => set_wallet (amount0 s) (amount1 s - a1) s);
  _ ← modify (fun s =>
        set_positions (<[token_id position := position]> (positions s)) s);
  _ ← modify (fun s =>
        set_valid_positions
          (valid_set (token_id position) (valid_positions s)) s);
  _ ← with_position (token_id position)
        (Position.log_history (block_number s) (timestamp s));
  _ ← with_position (token_id position)
        (Position.log_balance (block_number s) (timestamp s)
           (sqrt_price s) 0 0);
  _ ← record_wallet;
  mret (token_id position, a0, a1).

End WithPow.

(** [PoolSimiulation.increase_liquidity]. *)
Definition increase_liquidity (tid amt0 amt1 : Z)
    : M PoolSimiulation (Z * Z * Z) :=
  s ← get;
  org_l ← with_position tid (reads (fun p => Ok (liquidity p)));
  '(l, a0, a1) ← with_position tid
                   (Position.increase_liquidity (sqrt_price s) amt0 amt1);
  _ ← try_except_reraise
        (s ← get;
         _ ← lift (py_assert (a0 <=? amount0 s));
         lift (py_assert (a1 <=? amount1 s)))
        (with_position tid (Position.update_liquidity org_l));
  _ ← modify (fun s => set_wallet (amount0 s - a0) (amount1 s) s);
  _ ← modify (fun s => set_wallet (amount0 s) (amount1 s - a1) s);
  ptid ← with_position tid (reads (fun p => Ok (token_id p)));
  _ ← modify (fun s =>
        set_valid_positions (valid_set ptid (valid_positions s)) s);
  _ ← with_position tid
        (Position.log_history (block_number s) (timestamp s));
  _ ← with_position tid
        (Position.log_balance (block_number s) (timestamp s)
           (sqrt_price s) 0 0);
  _ ← record_wallet;
  mret (tid, a0, a1).

(** [PoolSimiulation.decrease_liquidity]. *)
Definition decrease_liquidity (tid : Z) (liq : option num) (pct : num)
    : M PoolSimiulation (Z * Z * Z) :=
  s ← get;
  '(l, a0, a1) ← with_position tid
                   (Position.decrease_liquidity (sqrt_price s) liq pct);
  _ ← modify (fun s => set_wallet (amount0 s + a0) (amount1 s) s);
  _ ← modify (fun s => set_wallet (amount0 s) (amount1 s + a1) s);
  z ← with_position tid (reads (fun p => Ok (Num.eq_zero (liquidity p))));
  ptid ← with_position tid (reads (fun p => Ok (token_id p)));
  _ ← (if z : bool then
         modify (fun s =>
           set_valid_positions (valid_pop ptid (valid_positions s)) s)
       else mret tt);
  _ ← with_position tid
        (Position.log_history (block_number s) (timestamp s));
  _ ← record_wallet;
  mret (tid, a0, a1).

(** [PoolSimiulation.collect]. *)
Definition collect (tid : Z) : M PoolSimiulation (Z * Z) :=
  s ← get;
  '(a0, a1) ← with_position tid Position.collect;
  _ ← modify (fun s => set_wallet (amount0 s + a0) (amount1 s) s);
  _ ← modify (fun s => set_wallet (amount0 s) (amount1 s + a1) s);
  _ ← with_position tid
        (Position.log_balance (block_number s) (timestamp s)
           (sqrt_price s) (- a0) (- a1));
  _ ← record_wallet;
  mret (a0, a1).

(** The body of the loop of [on_swap] for one valid position: the fee
    accrues from the former price to the new one, and a balance entry is
    logged. *)
Definition accrue (former_price new_price : float) (blk t : Z) (tid : Z)
    : M PoolSimiulation unit :=
  '(fee0, fee1) ← with_position tid (Position.swap former_price new_price);
  with_position tid (Position.log_balance blk t new_price fee0 fee1).

(** [PoolSimiulation.on_swap]. *)
Definition on_swap (ev : SwapEvent) : M PoolSimiulation unit :=
  s0 ← get;
  let former_price := sqrt_price s0 in
  _ ← modify (set_sqrt_price_x96 (ev_sqrtPriceX96 ev));
  _ ← modify (set_tick (ev_tick ev));
  _ ← modify (set_block_number (ev_blockNumber ev));
  _ ← modify (set_L (ev_liquidity ev));
  sp ← lift (int_truediv (ev_sqrtPriceX96 ev) (2 ^ 96));
  _ ← modify (set_sqrt_price sp);
  _ ← modify (set_timestamp (ev_timestamp ev));
  s ← get;
  _ ← for_each (valid_positions s)
        (accrue former_price (sqrt_price s) (block_number s) (timestamp s));
  record_wallet.

(** [int(amount * (self.fee.value / 1e6 + 1))]. *)
Definition total_amount_of (amount fee_value : Z) : result Z :=
  fv ← float_of_int fee_value;
  r ← truediv fv f1e6;
  v ← Num.mul_float (I amount) (fadd r f1);
  py_int v.

(** [int(balance * pct)]. *)
Definition amount_of_pct (bal : Z) (pct : num) : result Z :=
  v ← Num.mul (I bal) pct;
  Num.to_int v.

(** [int(L * (1 / sqrt_price - L / (L * sqrt_price + amount)))]: the
    token0 received for [amount] of token1. *)
Definition out_amount0 (s : PoolSimiulation) (amount : Z) : result Z :=
  r ← truediv f1 (sqrt_price s);
  lp ← Num.mul_float (I (L s)) (sqrt_price s);
  a ← float_of_int amount;
  l ← float_of_int (L s);
  q ← truediv l (fadd lp a);
  v ← Num.mul_float (I (L s)) (fsub r q);
  py_int v.

(** [int(L * (sqrt_price - L / (L / sqrt_price + amount)))]: the token1
    received for [amount] of token0. *)
Definition out_amount1 (s : PoolSimiulation) (amount : Z) : result Z :=
  l ← float_of_int (L s);
  r ← truediv l (sqrt_price s);
  a ← float_of_int amount;
  l' ← float_of_int (L s);
  q ← truediv l' (fadd r a);
  v ← Num.mul_float (I (L s)) (fsub (sqrt_price s) q);
  py_int v.

(** [raise ValueError("amount or pct")]. *)
Definition invalid_argument {A} : result A :=
  Raise (ValueError "amount or pct").

(** The amount to trade: [amount] when it is truthy, else
    [int(balance * pct)] when [pct] is, else a [ValueError]. *)
Definition swap_amount (bal amount : Z) (pct : num) : result Z :=
  if amount =? 0 then
    if Num.truthy pct then amount_of_pct bal pct
    else invalid_argument
  else Ok amount.

(** [PoolSimiulation.swap]; [amount] defaults to [0], [pct] to [I 0]. *)
Definition swap (in_token amount : Z) (pct : num) : M PoolSimiulation Z :=
  if negb (in_token =? 0) then
    amount ← reads (fun s => swap_amount (amount1 s) amount pct);
    total_amount ← reads (fun s => total_amount_of amount (fee s));
    s ← get;
    _ ← lift (py_assert (total_amount <? amount1 s));
    out ← reads (fun s => out_amount0 s amount);
    _ ← modify (fun s => set_wallet (amount0 s + out) (amount1 s) s);
    _ ← modify (fun s => set_wallet (amount0 s) (amount1 s - total_amount) s);
    mret out
  else
    amount ← reads (fun s => swap_amount (amount0 s) amount pct);
    total_amount ← reads (fun s => total_amount_of amount (fee s));
    s ← get;
    _ ← lift (py_assert (total_amount <? amount0 s));
    out ← reads (fun s => out_amount1 s amount);
    _ ← modify (fun s => set_wallet (amount0 s) (amount1 s + out) s);
    _ ← modify (fun s => set_wallet (amount0 s - total_amount) (amount1 s) s);
    mret out.

End Sim.

(** [l'] is [l] with [k] entries appended. *)
Definition appended {A} (l l' : list A) (k : nat) : Prop :=
  exists new, l' = l ++ new /\ length new = k.

(** The growth of the two logs of the position registered under [tid]
    between two states of the simulation: [dh] entries appended to its
    history, [db] to its balance log. *)
Definition log_growth (st st' : PoolSimiulation) (tid : Z) (dh db : nat)
    : Prop :=
  exists p p',
    positions st !! tid = Some p /\ positions st' !! tid = Some p' /\
    appended (history p) (history p') dh /\
    appended (balance p) (balance p') db.

(** Two states of a position with the same two logs. *)
Definition same_logs (p p' : PositionInstance) : Prop :=
  history p' = history p /\ balance p' = balance p.

(** The position registered under [tid] has [h] history entries and [b]
    balance entries. *)
Definition log_sizes (st : PoolSimiulation) (tid : Z) (h b : nat) : Prop :=
  exists p, positions st !! tid = Some p /\
            length (history p) = h /\ length (balance p) = b.

(** ** PoolSimiulation.run: the merge of the two event streams *)

Module Run.

(** [(a, p) <= (b, q)] on tuples of ints: lexicographic. *)
Definition tuple_le (x y : Z * Z) : bool :=
  (x.1 <? y.1) || ((x.1 =? y.1) && (x.2 <=? y.2)).

Section Loop.

(** [St] is the simulation object (a strategy subclass may add fields
    of its own), [Data] a record of [time_data]. *)
Context {St Data : Type}.
Variable data_timestamp : Data -> Z.
Variable on_swap : SwapEvent -> M St unit.
Variable on_time : Data -> M St unit.

(** The [while True] loop, entered with the current [swap], the rest of
    the iterator [swap_events], the current [data] and the rest of
    [time_list]. When [next] raises [StopIteration] the other iterator
    is drained: what it has not yet yielded is dispatched. *)
Fixpoint run_loop (swap : SwapEvent) (swap_events : list SwapEvent)
    : Data -> list Data -> M St unit :=
  fix inner (data : Data) (time_list : list Data) : M St unit :=
    if tuple_le (ev_timestamp swap, 1) (data_timestamp data, 0) then
      _ ← on_swap swap;
      match swap_events with
      | swap' :: rest => run_loop swap' rest data time_list
      | [] => for_each time_list on_time
      end
    else
      _ ← on_time data;
      match time_list with
      | data' :: rest => inner data' rest
      | [] => for_each swap_events on_swap
      end.

(** [run(swaps, time_data)]: the first [next] of an empty stream
    raises [StopIteration] out of [run]. *)
Definition run (swaps : list SwapEvent) (time_data : list Data)
    : M St unit :=
  match swaps with
  | [] => lift (Raise StopIteration)
  | swap :: swap_events =>
      match time_data with
      | [] => lift (Raise StopIteration)
      | data :: time_list => run_loop swap swap_events data time_list
      end
  end.

End Loop.

(** A handler call, as seen by an observer of [run]. *)
Inductive call (Data : Type) : Type :=
| OnSwap (ev : SwapEvent)
| OnTime (d : Data).
Arguments OnSwap {Data} ev.
Arguments OnTime {Data} d.

Definition call_timestamp {Data} (ts : Data -> Z) (c : call Data) : Z :=
  match c with
  | OnSwap ev => ev_timestamp ev
  | OnTime d => ts d
  end.

(** The priority that [run] pairs with the timestamp. *)
Definition call_priority {Data} (c : call Data) : Z :=
  match c with
  | OnSwap _ => 1
  | OnTime _ => 0
  end.

(** Handlers that only record that they were called. *)
Definition log_swap {Data} (ev : SwapEvent) : M (list (call Data)) unit :=
  modify (fun t : list (call Data) => t ++ [OnSwap ev]).
Definition log_time {Data} (d : Data) : M (list (call Data)) unit :=
  modify (fun t : list (call Data) => t ++ [OnTime d]).

(** The sequence of handler calls [run] makes. *)
Definition calls {Data} (ts : Data -> Z) (swaps : list SwapEvent)
    (time_data : list Data) : list (call Data) :=
  (run ts log_swap log_time swaps time_data []).2.

Section Order.

Context {Data : Type}.
Variable ts : Data -> Z.

(** The handler calls of the loop, as a list: the loop with [cons] for
    a call. *)
Fixpoint loop_calls (swap : SwapEvent) (swap_events : list SwapEvent)
    : Data -> list Data -> list (call Data) :=
  fix inner (data : Data) (time_list : list Data) : list (call Data) :=
    if tuple_le (ev_timestamp swap, 1) (ts data, 0) then
      OnSwap swap ::
      match swap_events with
      | swap' :: rest => loop_calls swap' rest data time_list
      | [] => map OnTime time_list
      end
    else
      OnTime data ::
      match time_list with
      | data' :: rest => inner data' rest
      | [] => map OnSwap swap_events
      end.

(** The order [run] keeps between two calls, the first made earlier: a
    swap made before a decision has a strictly smaller timestamp, any
    other pair has timestamps in non-decreasing order. *)
Definition call_before (c1 c2 : call Data) : Prop :=
  match c1, c2 with
  | OnSwap ev, OnTime d => ev_timestamp ev < ts d
  | _, _ => call_timestamp ts c1 <= call_timestamp ts c2
  end.

(** Streams sorted by timestamp. *)
Definition swaps_sorted (l : list SwapEvent) : Prop :=
  StronglySorted (fun a b => ev_timestamp a <= ev_timestamp b) l.
Definition data_sorted (l : list Data) : Prop :=
  StronglySorted (fun a b => ts a <= ts b) l.

(** Where a call of the loop takes its event from. *)
Definition from_streams (ss : list SwapEvent) (ds : list Data)
    (c : call Data) : Prop :=
  match c with
  | OnSwap ev => ev ∈ ss
  | OnTime d => d ∈ ds
  end.

(** Timestamps never go back along the calls. *)
Definition chronological (cs : list (call Data)) : Prop :=
  forall i j c1 c2, cs !! i = Some c1 -> cs !! j = Some c2 ->
    (i < j)%nat -> call_timestamp ts c1 <= call_timestamp ts c2.

(** At equal timestamps the swap is handled before the decision. *)
Definition swap_first (cs : list (call Data)) : Prop :=
  forall i j ev d, cs !! i = Some (OnSwap ev) -> cs !! j = Some (OnTime d) ->
    ev_timestamp ev = ts d -> (i < j)%nat.

(** At equal timestamps the decision is handled before the swap. *)
Definition time_first (cs : list (call Data)) : Prop :=
  forall i j ev d, cs !! i = Some (OnSwap ev) -> cs !! j = Some (OnTime d) ->
    ev_timestamp ev = ts d -> (j < i)%nat.

(** The handler a call stands for. *)
Definition dispatch {St} (on_swap : SwapEvent -> M St unit)
    (on_time : Data -> M St unit) (c : call Data) : M St unit :=
  match c with
  | OnSwap ev => on_swap ev
  | OnTime d => on_time d
  end.

End Order.

End Run.

(** ** A reference [pow]

    The exact power rounded to the nearest float, for a positive finite
    base and an exponent that is an integer: the calls the simulation
    makes have base [1.0001] and half an even tick as exponent. Used to
    run the model on concrete inputs. *)

Module RefPow.

(** The integer an integral finite float stands for. *)
Definition integral_value (y : float) : option Z :=
  match y with
  | S754_zero _ => Some 0
  | S754_finite s m e =>
      if 0 <=? e then Some (cond_Zopp s (Z.shiftl (Zpos m) e))
      else if Zpos m mod 2 ^ (- e) =? 0
           then Some (cond_Zopp s (Z.shiftl (Zpos m) e))
           else None
  | _ => None
  end.

Definition pow (x y : float) : result float :=
  match x, integral_value y with
  | S754_finite false m e, Some n =>
      if 0 <=? n then round_int (Zpos m ^ n) (e * n)
      else
        let k := - n in
        let d := Zpos m ^ k in
        let sh := Z.log2 d + 64 in
        let q := 2 ^ sh / d in
        let r := 2 ^ sh mod d in
        match binary_normalize prec emax
                (2 * q + (if r =? 0 then 0 else 1)) (- (sh + 1) - e * k) false
        with
        | S754_infinity _ => Raise OverflowError
        | v => Ok v
        end
  | _, _ => Raise (ValueError "pow: outside the reference domain")
  end.

End RefPow.

(** ** Concrete inputs

    The states reached by a call are kept evaluated; [ExProps] checks
    that they are what the call leaves. *)

Module Ex.

(** A swap event that sets the pool price to 1 ([sqrtPriceX96 = 2**96]). *)
Definition ev_price_one : SwapEvent :=
  {| ev_sqrtPriceX96 := 2 ^ 96; ev_tick := 0; ev_blockNumber := 1;
     ev_liquidity := 1000000; ev_timestamp := 1 |}.

(** A simulation with the given wallet, decimals 8 and 18 and the 3000
    fee tier, after that event. *)
Definition sim_at_one (a0 a1 : Z) : PoolSimiulation :=
  (Sim.on_swap ev_price_one (Sim.init_sim a0 a1 8 18 3000 false)).2.

(** After [mint(-60, 60, 1000, 1000)] from a wallet of 2000 and 2000. *)
Definition minted : PoolSimiulation :=
  Eval vm_compute in
    (Sim.mint RefPow.pow (-60) 60 1000 1000 (sim_at_one 2000 2000)).2.

(** After the same mint from a wallet of 1000 and 1000. *)
Definition minted_all : PoolSimiulation :=
  Eval vm_compute in
    (Sim.mint RefPow.pow (-60) 60 1000 1000 (sim_at_one 1000 1000)).2.

(** The position that mint registers under token id 1. *)
Definition position_1 : PositionInstance :=
  Eval vm_compute in
    match positions minted !! 1 with
    | Some p => p
    | None =>
        {| liquidity := I 0; tick_lower := 0; tick_upper := 0;
           low_price_sqrt := f0; low_price_sqrt_r := f0;
           high_price_sqrt := f0; high_price_sqrt_r := f0;
           _amount0_edge := 0; _amount1_edge := 0;
           p_decimal0 := 0; p_decimal1 := 0; fee_rate := 0;
           fee0 := 0; fee1 := 0; token_id := 0;
           balance := []; history := [] |}
    end.

Definition f_half : float := Eval vm_compute in fdiv f1 f2.
Definition f4 : float := Eval vm_compute in fmul f2 f2.

(** After [decrease_liquidity(1, pct=0.5)] on [minted]: the position is
    left with the float liquidity 166925.0. *)
Definition halved : PoolSimiulation :=
  Eval vm_compute in (Sim.decrease_liquidity 1 None (F f_half) minted).2.

(** Two values of the C library's [log]: [log(0.5)] and [log(1.0001)],
    as doubles. *)
Definition c_log_sample (x : float) : float :=
  if feqb x f_half then S754_finite true 6243314768165359 (-53)
  else if feqb x f1_0001 then S754_finite false 7378328719195348 (-66)
  else S754_nan.

(** Two swaps at timestamps 5 and 9, two decisions at 5 and 7. *)
Definition swap_at (t : Z) : SwapEvent :=
  {| ev_sqrtPriceX96 := 2 ^ 96; ev_tick := 0; ev_blockNumber := t;
     ev_liquidity := 1000000; ev_timestamp := t |}.
Definition ex_swaps : list SwapEvent := [swap_at 5; swap_at 9].
Definition ex_data : list Z := [5; 7].

(** [PriceConverter(0, 0)]: the factor is the int [10 ** 0]. *)
Definition converter_same : PriceConverter :=
  {| pc_decimal0 := 0; pc_decimal1 := 0; factor := I 1 |}.

End Ex.

(** ** PoolSimiulation: the remaining methods *)

Module Pool.

(** [PoolSimiulation.init]. *)
Definition init (ev : SwapEvent) : M PoolSimiulation unit :=
  _ ← modify (Sim.set_sqrt_price_x96 (ev_sqrtPriceX96 ev));
  _ ← modify (Sim.set_tick (ev_tick ev));
  _ ← modify (Sim.set_block_number (ev_blockNumber ev));
  sp ← lift (int_truediv (ev_sqrtPriceX96 ev) (2 ^ 96));
  _ ← modify (Sim.set_sqrt_price sp);
  _ ← modify (Sim.set_timestamp (ev_timestamp ev));
  modify (Sim.set_L (ev_liquidity ev)).

(** [PoolSimiulation.get_position]. *)
Definition get_position (tid : Z) : M PoolSimiulation PositionInstance :=
  reads (fun s =>
    match positions s !! tid with
    | Some p => Ok p
    | None => Raise KeyError
    end).

(** [PoolSimiulation.on_time] of the base class: [pass]. *)
Definition on_time {Data} (data : Data) : M PoolSimiulation unit := mret tt.

(** [PoolSimiulation.run_on_swap]; a data frame is the list of its
    records. *)
Definition run_on_swap (dfs : list (list SwapEvent)) : M PoolSimiulation unit :=
  for_each dfs (fun df => for_each df Sim.on_swap).

End Pool.

(** ** NonfungiblePositionManager.cal_liquidity

    The sizing function of [contracts/position_manager.py], which does
    not use its object; the amounts are ints. *)

Module Manager.

Definition cal_liquidity (cprice upper lower : float) (amt0 amt1 : Z)
    : result (num * Z * Z) :=
  if fleb cprice lower then
    _ ← py_assert (negb (amt0 =? 0));
    su ← math_sqrt upper; sl ← math_sqrt lower;
    su' ← math_sqrt upper; sl' ← math_sqrt lower;
    t ← truediv (fmul su sl) (fsub su' sl');
    v ← Num.mul_float (I amt0) t;
    l ← py_int v;
    Ok (I l, amt0, 0)
  else if fltb lower cprice && fleb cprice upper then
    if negb (amt0 =? 0) then
      su ← math_sqrt upper; sp ← math_sqrt cprice;
      n ← Num.mul_float (I amt0) (fmul su sp);
      su' ← math_sqrt upper; sp' ← math_sqrt cprice;
      q ← truediv n (fsub su' sp');
      liquidity ← py_int q;
      sp ← math_sqrt cprice; sl ← math_sqrt lower;
      v ← Num.mul_float (I liquidity) (fsub sp sl);
      amt1' ← py_int v;
      Ok (I liquidity, amt0, amt1')
    else
      sp ← math_sqrt cprice; sl ← math_sqrt lower;
      a ← float_of_int amt1;
      q ← truediv a (fsub sp sl);
      liquidity ← py_int q;
      su ← math_sqrt upper; sp ← math_sqrt cprice;
      n ← Num.mul_float (I liquidity) (fsub su sp);
      su' ← math_sqrt upper; sp' ← math_sqrt cprice;
      q ← truediv n (fmul su' sp');
      amt0' ← py_int q;
      Ok (I liquidity, amt0', amt1)
  else
    _ ← py_assert (negb (amt1 =? 0));
    su ← math_sqrt upper; sl ← math_sqrt lower;
    a ← float_of_int amt1;
    q ← truediv a (fsub su sl);
    l ← py_int q;
    Ok (I l, 0, amt1).

End Manager.

(** ** Kinds of floats *)

Module FloatKind.

Definition is_nan (x : float) : bool :=
  match x with S754_nan => true | _ => false end.

(** Zero of either sign, or below zero ([-inf] included). *)
Definition nonpositive (x : float) : bool :=
  match x with
  | S754_zero _ | S754_finite true _ _ | S754_infinity true => true
  | _ => false
  end.

(** Below zero: what [math.sqrt] refuses. *)
Definition negative (x : float) : bool :=
  match x with
  | S754_finite true _ _ | S754_infinity true => true
  | _ => false
  end.

End FloatKind.

(** ** PriceConverter: from a price to sqrtPriceX96 *)

Module Converter.

(** [PriceConverter.X96FACTOR = 1 << 96]. *)
Definition X96FACTOR : Z := Z.shiftl 1 96.

(** [PriceConverter.price_to_x96]: the int factor is converted to a
    float for the product. *)
Definition price_to_x96 (pc : PriceConverter) (price : float)
    (reverse : bool) : result Z :=
  d ← Price.price_to_dex pc price reverse;
  s ← math_sqrt d;
  x ← float_of_int X96FACTOR;
  py_int (fmul s x).

(** The converter of the strategies, [PriceConverter(8, 18)]: the factor
    is the int [10 ** 10]. *)
Definition pc_8_18 : PriceConverter :=
  {| pc_decimal0 := 8; pc_decimal1 := 18; factor := I (10 ^ 10) |}.

End Converter.

(** ** HoldStrategy: the ticks of a new position *)

Module HoldStrategy.

(** [HoldStrategy.cal_tick]: [%] with the positive divisor 60 is the
    floor modulo; the upper tick comes first in the result. *)
Definition cal_tick (upperTick lowerTick : Z) : Z * Z :=
  let upper_tick := upperTick - upperTick mod 60 in
  let lower_tick := lowerTick - lowerTick mod 60 in
  (upper_tick, lower_tick).

End HoldStrategy.

(** ** What a method may change *)

(** Every run of [m], returning or raising, takes a state to one that
    [R] relates to it. *)
Definition steps {S A} (R : S -> S -> Prop) (m : M S A) : Prop :=
  forall s r s', m s = (r, s') -> R s s'.

(** Every run of [m] that returns takes a state to one that [R] relates
    to it. *)
Definition returns {S A} (R : S -> S -> Prop) (m : M S A) : Prop :=
  forall s a s', m s = (Ok a, s') -> R s s'.

(** The fields of a position that are set when it is constructed: its
    token id, its range and the fee tier. *)
Definition same_range (p p' : PositionInstance) : Prop :=
  token_id p' = token_id p /\
  tick_lower p' = tick_lower p /\ tick_upper p' = tick_upper p /\
  low_price_sqrt p' = low_price_sqrt p /\
  low_price_sqrt_r p' = low_price_sqrt_r p /\
  high_price_sqrt p' = high_price_sqrt p /\
  high_price_sqrt_r p' = high_price_sqrt_r p /\
  p_decimal0 p' = p_decimal0 p /\ p_decimal1 p' = p_decimal1 p /\
  fee_rate p' = fee_rate p.

(** Two positions that differ at most in the liquidity and the two edge
    amounts: fees, logs, range and token id are the same. *)
Definition same_but_liquidity (p p' : PositionInstance) : Prop :=
  p' = Position.with_liquidity
         (liquidity p') (_amount0_edge p') (_amount1_edge p') p.

(** ** Well-formed simulations *)

Module Inv.

(** Every position is registered under its own token id, and no id
    above the counter [_next_token_id] is in use. *)
Definition registered (st : PoolSimiulation) : Prop :=
  forall k p, positions st !! k = Some p ->
              token_id p = k /\ k <= _next_token_id st.

(** The valid positions are registered ones, each listed once. *)
Definition valid_registered (st : PoolSimiulation) : Prop :=
  (forall k, k ∈ valid_positions st -> is_Some (positions st !! k)) /\
  NoDup (valid_positions st).

Definition well_formed (st : PoolSimiulation) : Prop :=
  registered st /\ valid_registered st.

(** Every position of [st] is still registered in [st'], under the same
    id and with the same range. *)
Definition persists (st st' : PoolSimiulation) : Prop :=
  forall k p, positions st !! k = Some p ->
              exists p', positions st' !! k = Some p' /\ same_range p p'.

(** What a call may do to a well-formed simulation: it stays
    well-formed, keeps every position, and never takes back a token
    id. *)
Definition grows (st st' : PoolSimiulation) : Prop :=
  well_formed st ->
  well_formed st' /\ persists st st' /\
  _next_token_id st <= _next_token_id st'.

(** The fee columns of the balance log are a ledger of the fees of the
    position: accruals, and collections entered as negative amounts; the
    fees not yet collected are its sum. *)
Definition fees_logged (p : PositionInstance) : Prop :=
  fee0 p = foldr Z.add 0 (map pb_fee0 (balance p)) /\
  fee1 p = foldr Z.add 0 (map pb_fee1 (balance p)).

(** Every registered position has the edge amounts of its liquidity and
    the fees its balance log adds up to. *)
Definition settled (st : PoolSimiulation) : Prop :=
  forall k p, positions st !! k = Some p ->
              Position.consistent p /\ fees_logged p.

Definition stays_settled (st st' : PoolSimiulation) : Prop :=
  settled st -> settled st'.

(** A call of a public method of the simulation. *)
Inductive op : Type :=
| DoMint (lower upper amount0 amount1 : Z)
| DoIncrease (token_id amount0 amount1 : Z)
| DoDecrease (token_id : Z) (liquidity : option num) (pct : num)
| DoCollect (token_id : Z)
| DoInit (swap_event : SwapEvent)
| DoOnSwap (swap_event : SwapEvent)
| DoSwap (in_token amount : Z) (pct : num).

Section WithPow.

Variable float_pow : float -> float -> result float.

(** The call, its value dropped. *)
Definition exec (o : op) : M PoolSimiulation unit :=
  match o with
  | DoMint lower upper a0 a1 => _ ← Sim.mint float_pow lower upper a0 a1; mret tt
  | DoIncrease tid a0 a1 => _ ← Sim.increase_liquidity tid a0 a1; mret tt
  | DoDecrease tid liq pct =>
      _ ← Sim.decrease_liquidity tid liq pct; mret tt
  | DoCollect tid => _ ← Sim.collect tid; mret tt
  | DoInit ev => Pool.init ev
  | DoOnSwap ev => Sim.on_swap ev
  | DoSwap in_token amount pct => _ ← Sim.swap in_token amount pct; mret tt
  end.

End WithPow.

End Inv.

(** ** Replaying events: what the simulation shows afterwards *)

Module Replay.

(** The wallet-log entry of an event, for a wallet that does not move. *)
Definition entry_of (st : PoolSimiulation) (ev : SwapEvent) : WalletLog :=
  {| wl_block := ev_blockNumber ev; wl_timestamp := ev_timestamp ev;
     wl_amount0 := amount0 st; wl_amount1 := amount1 st |}.

(** The market data of the simulation is that of the event. *)
Definition at_event (ev : SwapEvent) (st : PoolSimiulation) : Prop :=
  sqrt_price_x96 st = ev_sqrtPriceX96 ev /\
  int_truediv (ev_sqrtPriceX96 ev) (2 ^ 96) = Ok (sqrt_price st) /\
  tick st = ev_tick ev /\ block_number st = ev_blockNumber ev /\
  timestamp st = ev_timestamp ev /\ L st = ev_liquidity ev.

End Replay.

(** ** A position that has earned fees *)

Module Earned.

(** A swap event that moves the price up inside the range of the
    position of [opened]. *)
Definition ev_up : SwapEvent :=
  {| ev_sqrtPriceX96 := 2 ^ 96 + 2 ^ 86; ev_tick := 19; ev_blockNumber := 2;
     ev_liquidity := 1000000; ev_timestamp := 2 |}.

(** After [mint(-60, 60, 10**9, 10**9)] at price 1 from a wallet of
    [10**12] and [10**12]. *)
Definition opened : PoolSimiulation :=
  Eval vm_compute in
    (Sim.mint RefPow.pow (-60) 60 (10 ^ 9) (10 ^ 9)
       (Ex.sim_at_one (10 ^ 12) (10 ^ 12))).2.

(** After the swap event [ev_up]: the position holds 978076 of fees in
    token1. *)
Definition earned : PoolSimiulation :=
  Eval vm_compute in (Sim.on_swap ev_up opened).2.

End Earned.

(** * Properties *)

(** ** The concrete states *)

Module ExProps.
Import Ex.

Lemma minted_is_mint :
  Sim.mint RefPow.pow (-60) 60 1000 1000 (sim_at_one 2000 2000)
  = (Ok (1, 999, 999), minted).
Proof. vm_compute. reflexivity. Qed.

Lemma minted_all_is_mint :
  Sim.mint RefPow.pow (-60) 60 1000 1000 (sim_at_one 1000 1000)
  = (Ok (1, 999, 999), minted_all).
Proof. vm_compute. reflexivity. Qed.

Lemma halved_is_decrease :
  Sim.decrease_liquidity 1 None (F f_half) minted
  = (Ok (1, 500, 500), halved).
Proof. vm_compute. reflexivity. Qed.

End ExProps.

(** ** Stepping through a method *)

Module Step.

Lemma bind_ok_inv {S A B} (m : M S A) (f : A -> M S B) s b s'' :
  (m ≫= f) s = (Ok b, s'') ->
  exists a s', m s = (Ok a, s') /\ f a s' = (Ok b, s'').
Proof.
  unfold mbind, M_bind. destruct (m s) as [[a|e] s']; [|discriminate].
  intros H. by exists a, s'.
Qed.

Lemma bind_ok {S A B} (m : M S A) (f : A -> M S B) s a s' :
  m s = (Ok a, s') -> (m ≫= f) s = f a s'.
Proof. intros H. unfold mbind, M_bind. by rewrite H. Qed.

Lemma bind_raise {S A B} (m : M S A) (f : A -> M S B) s e s' :
  m s = (Raise e, s') -> (m ≫= f) s = (Raise e, s').
Proof. intros H. unfold mbind, M_bind. by rewrite H. Qed.

Lemma lift_ok_inv {S A} (r : result A) (s s' : S) a :
  lift r s = (Ok a, s') -> r = Ok a /\ s' = s.
Proof. unfold lift. by intros [= -> ->]. Qed.

Lemma reads_ok_inv {S A} (f : S -> result A) (s s' : S) a :
  reads f s = (Ok a, s') -> f s = Ok a /\ s' = s.
Proof. unfold reads. by intros [= -> ->]. Qed.

Lemma get_ok_inv {S} (s s' a : S) :
  get s = (Ok a, s') -> a = s /\ s' = s.
Proof. unfold get. by intros [= -> ->]. Qed.

Lemma modify_ok_inv {S} (f : S -> S) (s s' : S) u :
  modify f s = (Ok u, s') -> s' = f s.
Proof. unfold modify. by intros [= _ ->]. Qed.

Lemma mret_ok_inv {S A} (a b : A) (s s' : S) :
  (mret a : M S A) s = (Ok b, s') -> b = a /\ s' = s.
Proof. unfold mret, M_ret. by intros [= -> ->]. Qed.

Lemma result_bind_ok_inv {A B} (r : result A) (f : A -> result B) b :
  r ≫= f = Ok b -> exists a, r = Ok a /\ f a = Ok b.
Proof. destruct r as [a|e]; simpl; [|discriminate]. intros H. by exists a. Qed.

Lemma py_assert_ok_inv c u : py_assert c = Ok u -> c = true.
Proof. by destruct c. Qed.

End Step.

(** Takes a successful run [H : (m ≫= f) s = (Ok b, s')] apart, one
    primitive at a time. *)
Ltac minv H :=
  repeat
    (let a := fresh "v" in
     let s := fresh "s" in
     let H1 := fresh "Hs" in
     apply Step.bind_ok_inv in H as (a & s & H1 & H);
     first
       [ apply Step.get_ok_inv in H1 as [-> ->]
       | apply Step.modify_ok_inv in H1 as ->
       | apply Step.lift_ok_inv in H1 as [H1 ->]
       | apply Step.reads_ok_inv in H1 as [H1 ->]
       | idtac ]).

(** ** The merge order of [run] *)

Module RunProps.
Import Run Ex.

Local Ltac sub_tac := first [done | (intros ? ?; set_unfold; tauto)].

Section Order.

Context {Data : Type}.
Variable ts : Data -> Z.

Lemma for_each_log_time (l : list Data) (t : list (call Data)) :
  for_each l log_time t = (Ok tt, t ++ map OnTime l).
Proof.
  revert t. induction l as [|d l IH]; intros t; simpl.
  - by rewrite app_nil_r.
  - unfold mbind, M_bind, log_time at 1, modify.
    rewrite IH. by rewrite <- app_assoc.
Qed.

Lemma for_each_log_swap (l : list SwapEvent) (t : list (call Data)) :
  for_each l log_swap t = (Ok tt, t ++ map (@OnSwap Data) l).
Proof.
  revert t. induction l as [|d l IH]; intros t; simpl.
  - by rewrite app_nil_r.
  - unfold mbind, M_bind, log_swap at 1, modify.
    rewrite IH. by rewrite <- app_assoc.
Qed.

Lemma run_loop_log swap swap_events data time_list (t : list (call Data)) :
  run_loop ts log_swap log_time swap swap_events data time_list t
  = (Ok tt, t ++ loop_calls ts swap swap_events data time_list).
Proof.
  revert swap data time_list t.
  induction swap_events as [|swap' rest IHs]; intros swap data time_list;
    revert data; induction time_list as [|data' rest' IHd]; intros data t;
    simpl; destruct (tuple_le _ _); simpl;
    unfold mbind, M_bind, log_swap, log_time, modify; simpl;
    rewrite ?for_each_log_time, ?for_each_log_swap, ?IHs, ?IHd;
    simpl; rewrite <- ?app_assoc; reflexivity.
Qed.

Lemma tuple_le_swap_time (a b : Z) : tuple_le (a, 1) (b, 0) = (a <? b).
Proof.
  unfold tuple_le; simpl.
  by rewrite andb_false_r, orb_false_r.
Qed.

Lemma calls_eq swap swap_events data time_list :
  calls ts (swap :: swap_events) (data :: time_list)
  = loop_calls ts swap swap_events data time_list.
Proof. unfold calls, run. by rewrite run_loop_log. Qed.

Lemma from_streams_mono ss ss' (ds ds' : list Data) c :
  ss ⊆ ss' -> ds ⊆ ds' -> from_streams ss ds c -> from_streams ss' ds' c.
Proof. destruct c; simpl; intros Hs Hd Hc; [by apply Hs | by apply Hd]. Qed.

Lemma loop_calls_eq swap swap_events data time_list :
  loop_calls ts swap swap_events data time_list
  = if ev_timestamp swap <? ts data then
      OnSwap swap ::
      match swap_events with
      | swap' :: rest => loop_calls ts swap' rest data time_list
      | [] => map OnTime time_list
      end
    else
      OnTime data ::
      match time_list with
      | data' :: rest => loop_calls ts swap swap_events data' rest
      | [] => map OnSwap swap_events
      end.
Proof.
  rewrite <- tuple_le_swap_time.
  destruct swap_events, time_list; reflexivity.
Qed.

Lemma loop_calls_ind (P : SwapEvent -> list SwapEvent -> Data -> list Data -> Prop) :
  (forall swap swap_events data time_list,
     (forall swap' rest, swap_events = swap' :: rest ->
                         P swap' rest data time_list) ->
     (forall data' rest, time_list = data' :: rest ->
                         P swap swap_events data' rest) ->
     P swap swap_events data time_list) ->
  forall swap swap_events data time_list, P swap swap_events data time_list.
Proof.
  intros Hstep swap swap_events data time_list.
  remember (length swap_events + length time_list)%nat as n eqn:Hn.
  revert swap swap_events data time_list Hn.
  induction (lt_wf n) as [n _ IH]; intros swap swap_events data time_list ->.
  apply Hstep.
  - intros swap' rest ->. eapply IH; [|reflexivity]. simpl. lia.
  - intros data' rest ->. eapply IH; [|reflexivity]. simpl. lia.
Qed.

Lemma map_OnTime_from ss (ds : list Data) :
  Forall (from_streams ss ds) (map OnTime ds).
Proof. apply Forall_map, Forall_forall. by intros d Hd. Qed.

Lemma map_OnSwap_from ss (ds : list Data) :
  Forall (from_streams ss ds) (map OnSwap ss).
Proof. apply Forall_map, Forall_forall. by intros d Hd. Qed.

Lemma loop_calls_from swap swap_events data time_list :
  Forall (from_streams (swap :: swap_events) (data :: time_list))
    (loop_calls ts swap swap_events data time_list).
Proof.
  revert swap swap_events data time_list.
  apply loop_calls_ind; intros swap swap_events data time_list IHs IHd.
  rewrite loop_calls_eq.
  destruct (ev_timestamp swap <? ts data).
  - constructor; [simpl; by left|].
    destruct swap_events as [|swap' rest].
    + eapply Forall_impl; [apply (map_OnTime_from [] time_list)|].
      intros c. apply from_streams_mono; sub_tac.
    + eapply Forall_impl; [by apply IHs|].
      intros c. apply from_streams_mono; sub_tac.
  - constructor; [simpl; by left|].
    destruct time_list as [|data' rest].
    + eapply Forall_impl; [apply (map_OnSwap_from swap_events [])|].
      intros c. apply from_streams_mono; sub_tac.
    + eapply Forall_impl; [by apply IHd|].
      intros c. apply from_streams_mono; sub_tac.
Qed.

Lemma map_OnTime_sorted l :
  data_sorted ts l -> StronglySorted (call_before ts) (map OnTime l).
Proof.
  induction 1 as [|d l Hs IH Hd]; simpl; constructor; [done|].
  apply Forall_map. by eapply Forall_impl; [exact Hd|].
Qed.

Lemma map_OnSwap_sorted l :
  swaps_sorted l -> StronglySorted (call_before ts) (map OnSwap l).
Proof.
  induction 1 as [|d l Hs IH Hd]; simpl; constructor; [done|].
  apply Forall_map. by eapply Forall_impl; [exact Hd|].
Qed.

Lemma sorted_head {A} (R : A -> A -> Prop) x l y :
  StronglySorted R (x :: l) -> y ∈ l -> R x y.
Proof.
  intros H Hy. apply StronglySorted_inv in H as [_ H].
  rewrite Forall_forall in H. by apply H.
Qed.

Lemma sorted_tail {A} (R : A -> A -> Prop) x l :
  StronglySorted R (x :: l) -> StronglySorted R l.
Proof. intros H. by apply StronglySorted_inv in H as [? _]. Qed.

Lemma head_before_swap swap swap_events data time_list :
  swaps_sorted (swap :: swap_events) -> data_sorted ts (data :: time_list) ->
  ev_timestamp swap < ts data ->
  forall c, from_streams swap_events (data :: time_list) c ->
            call_before ts (OnSwap swap) c.
Proof.
  intros Hs Hd Hlt [ev|d]; simpl; intros Hin.
  - by apply (sorted_head _ _ _ _ Hs).
  - apply elem_of_cons in Hin as [->|Hin]; [done|].
    pose proof (sorted_head _ _ _ _ Hd Hin) as H; simpl in H. lia.
Qed.

Lemma head_before_time swap swap_events data time_list :
  swaps_sorted (swap :: swap_events) -> data_sorted ts (data :: time_list) ->
  ts data <= ev_timestamp swap ->
  forall c, from_streams (swap :: swap_events) time_list c ->
            call_before ts (OnTime data) c.
Proof.
  intros Hs Hd Hle [ev|d]; simpl; intros Hin.
  - apply elem_of_cons in Hin as [->|Hin]; [done|].
    pose proof (sorted_head _ _ _ _ Hs Hin) as H; simpl in H. lia.
  - by apply (sorted_head _ _ _ _ Hd).
Qed.

Lemma loop_calls_sorted swap swap_events data time_list :
  swaps_sorted (swap :: swap_events) -> data_sorted ts (data :: time_list) ->
  StronglySorted (call_before ts) (loop_calls ts swap swap_events data time_list).
Proof.
  revert swap swap_events data time_list.
  apply (loop_calls_ind (fun swap swap_events data time_list =>
           swaps_sorted (swap :: swap_events) ->
           data_sorted ts (data :: time_list) ->
           StronglySorted (call_before ts)
             (loop_calls ts swap swap_events data time_list))).
  intros swap swap_events data time_list IHs IHd Hs Hd.
  rewrite loop_calls_eq.
  destruct (Z.ltb_spec (ev_timestamp swap) (ts data)) as [Hlt|Hge].
  - constructor.
    + destruct swap_events as [|swap' rest].
      * apply map_OnTime_sorted. by eapply sorted_tail.
      * apply IHs; [done | by eapply sorted_tail | done].
    + apply Forall_forall. intros c Hc.
      apply (head_before_swap _ _ _ _ Hs Hd Hlt).
      destruct swap_events as [|swap' rest].
      * apply (proj1 (Forall_forall _ _)
                 (map_OnTime_from [] time_list)) in Hc.
        revert Hc. apply from_streams_mono; sub_tac.
      * by apply (proj1 (Forall_forall _ _)
                    (loop_calls_from swap' rest data time_list)) in Hc.
  - constructor.
    + destruct time_list as [|data' rest].
      * apply map_OnSwap_sorted. by eapply sorted_tail.
      * apply IHd; [done | done | by eapply sorted_tail].
    + apply Forall_forall. intros c Hc.
      apply (head_before_time _ _ _ _ Hs Hd Hge).
      destruct time_list as [|data' rest].
      * apply (proj1 (Forall_forall _ _)
                 (map_OnSwap_from swap_events [])) in Hc.
        revert Hc. apply from_streams_mono; sub_tac.
      * by apply (proj1 (Forall_forall _ _)
                    (loop_calls_from swap swap_events data' rest)) in Hc.
Qed.

Lemma sorted_lookup {A} (R : A -> A -> Prop) (l : list A) i j x y :
  StronglySorted R l -> l !! i = Some x -> l !! j = Some y ->
  (i < j)%nat -> R x y.
Proof.
  intros Hs. revert i j. induction Hs as [|a l Hs IH Ha]; intros i j Hi Hj Hlt.
  - by rewrite lookup_nil in Hi.
  - destruct j as [|j]; [lia|]. simpl in Hj.
    destruct i as [|i]; simpl in Hi.
    + injection Hi as ->. rewrite Forall_forall in Ha. apply Ha.
      by eapply list_elem_of_lookup_2.
    + apply (IH i j); [done | done | lia].
Qed.

Lemma calls_sorted swaps time_data :
  swaps_sorted swaps -> data_sorted ts time_data ->
  StronglySorted (call_before ts) (calls ts swaps time_data).
Proof.
  intros Hs Hd. destruct swaps as [|swap swap_events]; [constructor|].
  destruct time_data as [|data time_list]; [constructor|].
  rewrite calls_eq. by apply loop_calls_sorted.
Qed.

Lemma for_each_map {St A B} (f : A -> B) (g : B -> M St unit) l s :
  for_each (map f l) g s = for_each l (fun x => g (f x)) s.
Proof.
  revert s. induction l as [|x l IH]; intros s; simpl; [done|].
  unfold mbind, M_bind. destruct (g (f x) s) as [[[]|e] s']; [apply IH|done].
Qed.

Lemma run_loop_eq {St} (on_swap : SwapEvent -> M St unit)
    (on_time : Data -> M St unit) swap swap_events data time_list :
  run_loop ts on_swap on_time swap swap_events data time_list
  = if ev_timestamp swap <? ts data then
      _ ← on_swap swap;
      match swap_events with
      | swap' :: rest =>
          run_loop ts on_swap on_time swap' rest data time_list
      | [] => for_each time_list on_time
      end
    else
      _ ← on_time data;
      match time_list with
      | data' :: rest =>
          run_loop ts on_swap on_time swap swap_events data' rest
      | [] => for_each swap_events on_swap
      end.
Proof.
  rewrite <- tuple_le_swap_time.
  destruct swap_events, time_list; reflexivity.
Qed.

(** The effect of [run] with any handlers is that of the calls of
    [loop_calls], made in order. *)
Lemma run_loop_dispatch {St} (on_swap : SwapEvent -> M St unit)
    (on_time : Data -> M St unit) swap swap_events data time_list s :
  run_loop ts on_swap on_time swap swap_events data time_list s
  = for_each (loop_calls ts swap swap_events data time_list)
      (dispatch on_swap on_time) s.
Proof.
  revert swap swap_events data time_list s.
  apply (loop_calls_ind (fun swap swap_events data time_list =>
           forall s,
             run_loop ts on_swap on_time swap swap_events data time_list s
             = for_each (loop_calls ts swap swap_events data time_list)
                 (dispatch on_swap on_time) s)).
  intros swap swap_events data time_list IHs IHd s.
  rewrite run_loop_eq, loop_calls_eq.
  destruct (ev_timestamp swap <? ts data); simpl; unfold mbind, M_bind.
  - destruct (on_swap swap s) as [[[]|e] s']; [|done].
    destruct swap_events as [|swap' rest].
    + by rewrite for_each_map.
    + by apply IHs.
  - destruct (on_time data s) as [[[]|e] s']; [|done].
    destruct time_list as [|data' rest].
    + by rewrite for_each_map.
    + by apply IHd.
Qed.

End Order.

Lemma ex_swaps_sorted : swaps_sorted ex_swaps.
Proof. repeat constructor; simpl; lia. Qed.

Lemma ex_data_sorted : data_sorted id ex_data.
Proof. repeat constructor; simpl; unfold id; lia. Qed.

(** The decision at 5 is handled first, then the swap at 5, then the
    decision at 7; the swap at 9, already taken from its iterator when
    the decisions run out, is not handled. *)
Example ex_calls :
  calls id ex_swaps ex_data = [OnTime 5; OnSwap (swap_at 5); OnTime 7].
Proof. reflexivity. Qed.

(** C2, as the claim states it, fails: with both streams sorted, [run]
    handles the decision at timestamp 5 before the swap at timestamp 5. *)
Lemma run_swap_first_counterexample :
  swaps_sorted ex_swaps /\ data_sorted id ex_data /\
  ~ swap_first id (calls id ex_swaps ex_data).
Proof.
  split; [apply ex_swaps_sorted|]. split; [apply ex_data_sorted|].
  intros H. specialize (H 1%nat 0%nat (swap_at 5) 5).
  rewrite ex_calls in H.
  specialize (H eq_refl eq_refl eq_refl). lia.
Qed.

(** C2, amended: for streams sorted by timestamp, [run] calls the
    handlers in non-decreasing timestamp order, and when a swap event and
    a decision event carry the same timestamp, [on_time] for the decision
    is called before [on_swap] for the swap. *)
Theorem run_dispatch_order {Data} (ts : Data -> Z) swaps time_data :
  swaps_sorted swaps -> data_sorted ts time_data ->
  chronological ts (calls ts swaps time_data) /\
  time_first ts (calls ts swaps time_data).
Proof.
  intros Hs Hd. pose proof (calls_sorted ts _ _ Hs Hd) as H. split.
  - intros i j c1 c2 Hi Hj Hlt.
    pose proof (sorted_lookup _ _ _ _ _ _ H Hi Hj Hlt) as Hb.
    destruct c1, c2; simpl in *; lia.
  - intros i j ev d Hi Hj Heq.
    destruct (Nat.lt_trichotomy i j) as [Hlt|[->|Hgt]]; [|congruence|done].
    pose proof (sorted_lookup _ _ _ _ _ _ H Hi Hj Hlt) as Hb.
    simpl in Hb. lia.
Qed.

Lemma run_dispatch_order_witness :
  chronological id (calls id ex_swaps ex_data) /\
  time_first id (calls id ex_swaps ex_data).
Proof.
  apply (run_dispatch_order id ex_swaps ex_data).
  - repeat constructor; simpl; lia.
  - repeat constructor; simpl; unfold id; lia.
Defined.

End RunProps.

(** ** Floats *)

Module FloatProps.

Lemma float_of_int_0 : float_of_int 0 = Ok (S754_zero false).
Proof. reflexivity. Qed.

(** If [y * x] converts to an int for some [y], then [0.0 * x] is zero. *)
Lemma py_int_zero_mul (y x : float) z :
  py_int (fmul y x) = Ok z -> py_int (fmul (S754_zero false) x) = Ok 0.
Proof.
  destruct x as [sx|sx| |sx mx ex]; simpl.
  - reflexivity.
  - destruct y; simpl; discriminate.
  - destruct y; simpl; discriminate.
  - reflexivity.
Qed.

Lemma mul_float_zero (l : num) (x : float) z :
  (v ← Num.mul_float l x; py_int v) = Ok z ->
  (v ← Num.mul_float (I 0) x; py_int v) = Ok 0.
Proof.
  unfold Num.mul_float.
  change (Num.to_float (I 0)) with (Ok (S754_zero false)).
  destruct (Num.to_float l) as [y|e]; simpl; [|discriminate].
  apply py_int_zero_mul.
Qed.

Lemma mul_float_zero_like (l : num) (x : float) :
  Num.mul_float (Num.zero_like l) x = Num.mul_float (I 0) x.
Proof. by destruct l. Qed.

Lemma fsub_diag s m e :
  fsub (S754_finite s m e) (S754_finite s m e) = S754_zero false.
Proof. unfold fsub, SFsub. by rewrite Z.sub_diag. Qed.

Lemma fsub_self x : is_finite x = true -> fsub x x = f0.
Proof.
  destruct x as [[]| | |s m e]; try done.
  intros _. apply fsub_diag.
Qed.

(** Multiplying by [1.0] is exact: the product of the mantissas is the
    mantissa shifted by 52 bits, which the rounding shifts back. *)
Lemma mul_pow52 m : (4503599627370496 * m)%positive = Pos.iter xO m 52.
Proof. reflexivity. Qed.

Lemma digits_iter n m :
  digits2_pos (Pos.iter xO m n) = (digits2_pos m + n)%positive.
Proof.
  induction n as [|n IH] using Pos.peano_ind.
  - simpl. lia.
  - rewrite Pos.iter_succ. simpl. rewrite IH. lia.
Qed.

Lemma shr_52 m :
  SpecFloat.iter_pos shr_1 52
    {| shr_m := Zpos (Pos.iter xO m 52); shr_r := false; shr_s := false |}
  = {| shr_m := Zpos m; shr_r := false; shr_s := false |}.
Proof. reflexivity. Qed.

Lemma fmul_one_r s m e :
  bounded prec emax m e = true ->
  fmul (S754_finite s m e) f1 = S754_finite s m e.
Proof.
  unfold bounded, canonical_mantissa. intros H.
  apply andb_prop in H as [Hc Hb]. apply Z.eqb_eq in Hc.
  unfold fmul, f1, SFmul.
  rewrite xorb_false_r, (Pos.mul_comm m), mul_pow52.
  unfold binary_round_aux, shr_fexp at 1, Zdigits2.
  rewrite digits_iter.
  replace (Z.pos (digits2_pos m + 52) + (e + -52))
    with (Z.pos (digits2_pos m) + e) by lia.
  rewrite Hc. replace (e - (e + -52)) with 52 by lia.
  unfold shr, shr_record_of_loc. rewrite shr_52.
  cbn [shr_m loc_of_shr_record round_nearest_even].
  unfold shr_fexp, Zdigits2.
  replace (e + -52 + 52) with e by lia.
  rewrite Hc, Z.sub_diag.
  cbn [shr shr_record_of_loc shr_m].
  now rewrite Hb.
Qed.

(** [l * 1] is [l], and [l - l] is the zero of its type. *)
Lemma mul_one l : Num.finite l = true -> Num.mul l (I 1) = Ok l.
Proof.
  destruct l as [n|x]; simpl.
  - intros _. unfold Num.mul, Num.arith. by rewrite Z.mul_1_r.
  - intros H. apply andb_prop in H as [Hf Hv].
    unfold Num.mul, Num.arith.
    change (Num.to_float (I 1)) with (Ok f1). simpl.
    destruct x as [s| | |s m e]; try done.
    + by destruct s.
    + by rewrite (fmul_one_r _ _ _ Hv).
Qed.

Lemma sub_self l :
  Num.finite l = true -> Num.sub l l = Ok (Num.zero_like l).
Proof.
  destruct l as [n|x]; simpl.
  - intros _. unfold Num.sub, Num.arith. by rewrite Z.sub_diag.
  - intros H. apply andb_prop in H as [Hf _].
    unfold Num.sub, Num.arith; simpl. by rewrite (fsub_self _ Hf).
Qed.

End FloatProps.

(** ** Positions *)

Module PositionProps.
Import Position FloatProps.

Lemma update_liquidity_eq l p :
  update_liquidity l p
  = match edge0 l p with
    | Raise e => (Raise e, set_liquidity l p)
    | Ok e0 =>
        match edge1 l p with
        | Raise e => (Raise e, set_amount0_edge e0 (set_liquidity l p))
        | Ok e1 => (Ok tt, with_liquidity l e0 e1 p)
        end
    end.
Proof.
  unfold update_liquidity, edge0, edge1, mbind, M_bind, modify, reads; simpl.
  destruct (result_bind _ _ _ _) as [e0|e]; [|done]; simpl.
  destruct (result_bind _ _ _ _) as [e1|e]; done.
Qed.

Lemma with_liquidity_id p :
  with_liquidity (liquidity p) (_amount0_edge p) (_amount1_edge p) p = p.
Proof. by destruct p. Qed.

Lemma update_liquidity_consistent p :
  consistent p -> update_liquidity (liquidity p) p = (Ok tt, p).
Proof.
  intros [H0 H1]. rewrite update_liquidity_eq, H0, H1.
  by rewrite with_liquidity_id.
Qed.

(** Closing: liquidity [0] has both edge amounts [0]. *)
Lemma update_liquidity_zero p l :
  consistent p ->
  update_liquidity (Num.zero_like l) p
  = (Ok tt, with_liquidity (Num.zero_like l) 0 0 p).
Proof.
  intros [H0 H1]. rewrite update_liquidity_eq.
  unfold edge0, edge1 in *.
  rewrite !mul_float_zero_like.
  by rewrite (mul_float_zero _ _ _ H0), (mul_float_zero _ _ _ H1).
Qed.

Lemma amount0_psqrt_closed p sp a l e1 :
  amount0_psqrt p sp = Ok a ->
  amount0_psqrt (with_liquidity (Num.zero_like l) 0 e1 p) sp = Ok 0.
Proof.
  unfold amount0_psqrt; simpl.
  destruct (fleb sp (low_price_sqrt p)); [done|].
  destruct (fltb sp (high_price_sqrt p)); [|done].
  destruct (truediv f1 sp) as [r|e]; simpl; [|discriminate].
  rewrite mul_float_zero_like. apply mul_float_zero.
Qed.

Lemma amount1_psqrt_closed p sp a l e0 :
  amount1_psqrt p sp = Ok a ->
  amount1_psqrt (with_liquidity (Num.zero_like l) e0 0 p) sp = Ok 0.
Proof.
  unfold amount1_psqrt; simpl.
  destruct (fleb sp (low_price_sqrt p)); [done|].
  destruct (fltb sp (high_price_sqrt p)); [|done].
  rewrite mul_float_zero_like. apply mul_float_zero.
Qed.

(** Removing all of a finite liquidity, an int or a float: the position
    returns what it owed and is left with the zero of that type as its
    liquidity. *)
Lemma decrease_all p sp a0 a1 :
  Num.finite (liquidity p) = true -> consistent p ->
  amount0_psqrt p sp = Ok a0 -> amount1_psqrt p sp = Ok a1 ->
  decrease_liquidity sp None (I 1) p
  = (Ok (Num.zero_like (liquidity p), a0, a1),
     with_liquidity (Num.zero_like (liquidity p)) 0 0 p).
Proof.
  intros Hl Hc H0 H1.
  unfold decrease_liquidity, mbind, M_bind, lift, reads, mret, M_ret; simpl.
  rewrite (mul_one _ Hl), H0, H1, (sub_self _ Hl).
  rewrite (update_liquidity_zero _ (liquidity p) Hc).
  rewrite (amount0_psqrt_closed _ _ _ (liquidity p) 0 H0),
          (amount1_psqrt_closed _ _ _ (liquidity p) 0 H1).
  by rewrite !Z.sub_0_r.
Qed.

Lemma edge0_with_liquidity l l' e0 e1 p :
  edge0 l (with_liquidity l' e0 e1 p) = edge0 l p.
Proof. reflexivity. Qed.

Lemma edge1_with_liquidity l l' e0 e1 p :
  edge1 l (with_liquidity l' e0 e1 p) = edge1 l p.
Proof. reflexivity. Qed.

Lemma with_liquidity_twice l e0 e1 l' e0' e1' p :
  with_liquidity l e0 e1 (with_liquidity l' e0' e1' p)
  = with_liquidity l e0 e1 p.
Proof. reflexivity. Qed.

(** A successful [update_liquidity] changes the liquidity and the two
    edge amounts, nothing else. *)
Lemma update_liquidity_ok l p p' :
  update_liquidity l p = (Ok tt, p') ->
  exists e0 e1, edge0 l p = Ok e0 /\ edge1 l p = Ok e1 /\
                p' = with_liquidity l e0 e1 p.
Proof.
  rewrite update_liquidity_eq.
  destruct (edge0 l p) as [e0|e]; [|discriminate].
  destruct (edge1 l p) as [e1|e]; [|discriminate].
  intros [= <-]. by exists e0, e1.
Qed.

(** Restoring the liquidity a consistent position had brings the whole
    position back. *)
Lemma update_liquidity_restore l e0 e1 p :
  consistent p ->
  update_liquidity (liquidity p) (with_liquidity l e0 e1 p) = (Ok tt, p).
Proof.
  intros [H0 H1]. rewrite update_liquidity_eq.
  rewrite edge0_with_liquidity, edge1_with_liquidity, H0, H1.
  by rewrite with_liquidity_twice, with_liquidity_id.
Qed.

(** A successful [increase_liquidity] changes the liquidity and the two
    edge amounts, nothing else. *)
Lemma increase_liquidity_ok sp amt0 amt1 p r p' :
  increase_liquidity sp amt0 amt1 p = (Ok r, p') ->
  exists l e0 e1, p' = with_liquidity l e0 e1 p.
Proof.
  unfold increase_liquidity, mbind, M_bind, reads, mret, M_ret.
  destruct (amount0_psqrt p sp) as [a0|e]; [|discriminate].
  destruct (amount1_psqrt p sp) as [a1|e]; [|discriminate].
  destruct (PositionUtil.cal_liquidity_sqrt _ _ _ _ _) as [[[l x0] x1]|e];
    [|discriminate].
  destruct (Num.add (liquidity p) l) as [liq|e]; [|discriminate].
  destruct (update_liquidity liq p) as [[[]|e] p1] eqn:Hu; [|discriminate].
  apply update_liquidity_ok in Hu as (e0 & e1 & _ & _ & ->).
  destruct (amount0_psqrt _ sp) as [b0|e]; [|discriminate].
  destruct (amount1_psqrt _ sp) as [b1|e]; [|discriminate].
  intros [= _ <-]. by exists liq, e0, e1.
Qed.

End PositionProps.

(** ** The simulation *)

Module SimProps.
Import Position PositionProps Sim.

Lemma with_position_some {A} tid (m : M PositionInstance A) s p r p' :
  positions s !! tid = Some p -> m p = (r, p') ->
  with_position tid m s = (r, set_positions (<[tid := p']> (positions s)) s).
Proof. intros Hp Hm. unfold with_position. by rewrite Hp, Hm. Qed.

Lemma with_position_none {A} tid (m : M PositionInstance A) s :
  positions s !! tid = None -> with_position tid m s = (Raise KeyError, s).
Proof. intros Hp. unfold with_position. by rewrite Hp. Qed.

Lemma set_positions_id s : set_positions (positions s) s = s.
Proof. by destruct s. Qed.

Lemma set_positions_twice m m' s :
  set_positions m (set_positions m' s) = set_positions m s.
Proof. reflexivity. Qed.

(** A read of the registered object leaves the simulation as it is. *)
Lemma with_position_reads {A} tid (f : PositionInstance -> result A) s p :
  positions s !! tid = Some p ->
  with_position tid (reads f) s = (f p, s).
Proof.
  intros Hp. rewrite (with_position_some tid (reads f) s p (f p) p Hp eq_refl).
  by rewrite insert_id, set_positions_id.
Qed.

Lemma valid_pop_not_elem tid v : tid ∉ valid_pop tid v.
Proof.
  unfold valid_pop. intros H. apply list_elem_of_filter in H as [H _]. done.
Qed.

Lemma is_active_closed p l e0 e1 sp :
  is_active (with_liquidity (Num.zero_like l) e0 e1 p) sp = false.
Proof. by destruct l. Qed.

(** C9. A position registered under its token id, holding a positive
    finite liquidity (an int, or a float as a partial decrease leaves
    it), is closed by [decrease_liquidity(token_id, pct=1)]: the call
    returns the amounts the position owed, after it [is_active] is false
    at every price, the token id is not among [valid_positions], and the
    registry still holds the position. *)
Theorem decrease_all_closes st tid p a0 a1 :
  positions st !! tid = Some p -> token_id p = tid ->
  Num.finite (liquidity p) = true -> Num.ltb (I 0) (liquidity p) = true ->
  consistent p ->
  amount0_psqrt p (sqrt_price st) = Ok a0 ->
  amount1_psqrt p (sqrt_price st) = Ok a1 ->
  exists st' p',
    decrease_liquidity tid None (I 1) st = (Ok (tid, a0, a1), st') /\
    (tid ∉ valid_positions st') /\
    positions st' !! tid = Some p' /\
    forall sp, is_active p' sp = false.
Proof.
  intros Hp Htid Hl Hn Hc H0 H1.
  pose proof (decrease_all p (sqrt_price st) a0 a1 Hl Hc H0 H1) as Hd.
  unfold decrease_liquidity, mbind, M_bind, get; simpl.
  rewrite (with_position_some _ _ _ _ _ _ Hp Hd).
  set (p1 := with_liquidity (Num.zero_like (liquidity p)) 0 0 p).
  rewrite (with_position_reads tid _ _ p1) by (simpl; apply lookup_insert_eq).
  rewrite (with_position_reads tid _ _ p1) by (simpl; apply lookup_insert_eq).
  replace (Num.eq_zero (liquidity p1)) with true
    by (subst p1; simpl; by destruct (liquidity p)).
  simpl.
  erewrite with_position_some;
    [| simpl; apply lookup_insert_eq | reflexivity].
  unfold mret, M_ret; simpl.
  eexists _, _. split; [reflexivity|]. simpl.
  split; [rewrite Htid; apply valid_pop_not_elem|].
  split; [apply lookup_insert_eq|].
  intros sp. apply is_active_closed.
Qed.

(** C4. When [increase_liquidity] fails because the wallet lacks one of
    the amounts the position computed, the call raises and the simulation
    is exactly as before the call: the position has its former liquidity
    (and edge amounts), the wallet and every log are unchanged. *)
Theorem increase_liquidity_rollback st tid amt0 amt1 p l a0 a1 p' :
  positions st !! tid = Some p -> consistent p ->
  Position.increase_liquidity (sqrt_price st) amt0 amt1 p
    = (Ok (l, a0, a1), p') ->
  amount0 st < a0 \/ amount1 st < a1 ->
  increase_liquidity tid amt0 amt1 st = (Raise AssertionError, st).
Proof.
  intros Hp Hc Hinc Hlack.
  destruct (increase_liquidity_ok _ _ _ _ _ _ Hinc) as (l' & e0 & e1 & ->).
  unfold increase_liquidity, mbind, M_bind, get.
  rewrite (with_position_reads tid _ _ p Hp).
  rewrite (with_position_some _ _ _ _ _ _ Hp Hinc).
  unfold try_except_reraise, lift; simpl.
  assert (Hrestore :
    with_position tid (update_liquidity (liquidity p))
      (set_positions (<[tid:=with_liquidity l' e0 e1 p]> (positions st)) st)
    = (Ok tt, st)).
  { erewrite with_position_some;
      [| simpl; apply lookup_insert_eq
       | apply (update_liquidity_restore _ _ _ _ Hc)].
    rewrite set_positions_twice; simpl positions.
    by rewrite insert_insert_eq, insert_id, set_positions_id. }
  destruct (Z.leb_spec a0 (amount0 st)) as [H0|H0]; simpl.
  - destruct (Z.leb_spec a1 (amount1 st)) as [H1|H1]; simpl; [lia|].
    by rewrite Hrestore.
  - by rewrite Hrestore.
Qed.

End SimProps.

(** ** The logs *)

Module LogProps.
Import Position PositionProps Sim SimProps.

Lemma appended_refl {A} (l : list A) : appended l l 0.
Proof. exists []. by rewrite app_nil_r. Qed.

Lemma appended_one {A} (l : list A) x : appended l (l ++ [x]) 1.
Proof. by exists [x]. Qed.

Lemma appended_trans {A} (l1 l2 l3 : list A) j k :
  appended l1 l2 j -> appended l2 l3 k -> appended l1 l3 (j + k).
Proof.
  intros (n1 & -> & <-) (n2 & -> & <-). exists (n1 ++ n2).
  by rewrite app_assoc, length_app.
Qed.

Lemma update_liquidity_logs l p r p' :
  update_liquidity l p = (r, p') -> same_logs p p'.
Proof.
  rewrite update_liquidity_eq.
  destruct (edge0 l p) as [e0|e]; [|by intros [= _ <-]].
  destruct (edge1 l p) as [e1|e]; by intros [= _ <-].
Qed.

Lemma increase_liquidity_logs sp amt0 amt1 p r p' :
  Position.increase_liquidity sp amt0 amt1 p = (r, p') -> same_logs p p'.
Proof.
  unfold Position.increase_liquidity, mbind, M_bind, reads, mret, M_ret.
  destruct (amount0_psqrt p sp) as [a0|e]; [|by intros [= _ <-]].
  destruct (amount1_psqrt p sp) as [a1|e]; [|by intros [= _ <-]].
  destruct (PositionUtil.cal_liquidity_sqrt _ _ _ _ _) as [[[l x0] x1]|e];
    [|by intros [= _ <-]].
  destruct (Num.add (liquidity p) l) as [liq|e]; [|by intros [= _ <-]].
  destruct (update_liquidity liq p) as [[[]|e] p1] eqn:Hu;
    apply update_liquidity_logs in Hu; [|by intros [= _ <-]].
  destruct (amount0_psqrt _ sp) as [b0|e]; [|by intros [= _ <-]].
  destruct (amount1_psqrt _ sp) as [b1|e]; by intros [= _ <-].
Qed.

Lemma decrease_liquidity_logs sp liq pct p r p' :
  Position.decrease_liquidity sp liq pct p = (r, p') -> same_logs p p'.
Proof.
  unfold Position.decrease_liquidity.
  unfold mbind at 1, M_bind at 1, lift at 1.
  destruct (py_assert _) as [[]|e]; [|by intros [= _ <-]].
  unfold mbind at 1, M_bind at 1.
  assert (Hamount : forall (m : M PositionInstance num) a p1,
            m = (match liq with
                 | Some a =>
                     if Num.truthy a then mret a
                     else
                       _ ← lift (py_assert (Num.ltb (I 0) pct && Num.leb pct (I 1)));
                       reads (fun p => Num.mul (liquidity p) pct)
                 | None =>
                     _ ← lift (py_assert (Num.ltb (I 0) pct && Num.leb pct (I 1)));
                     reads (fun p => Num.mul (liquidity p) pct)
                 end) ->
            m p = (a, p1) -> p1 = p).
  { intros m a p1 ->. unfold mbind, M_bind, lift, reads, mret, M_ret.
    destruct liq as [x|]; [destruct (Num.truthy x)|];
      try destruct (py_assert _) as [[]|e]; by intros [= _ <-]. }
  match goal with |- context [match ?m p with _ => _ end] =>
    destruct (m p) as [[amount|e] p1] eqn:Hm;
    apply (Hamount _ _ _ eq_refl) in Hm as -> end; [|by intros [= _ <-]].
  unfold mbind, M_bind, reads, mret, M_ret.
  destruct (amount0_psqrt p sp) as [a0|e]; [|by intros [= _ <-]].
  destruct (amount1_psqrt p sp) as [a1|e]; [|by intros [= _ <-]].
  destruct (Num.sub (liquidity p) amount) as [l|e]; [|by intros [= _ <-]].
  destruct (update_liquidity l p) as [[[]|e] p2] eqn:Hu;
    apply update_liquidity_logs in Hu; [|by intros [= _ <-]].
  destruct (amount0_psqrt _ sp) as [b0|e]; [|by intros [= _ <-]].
  destruct (amount1_psqrt _ sp) as [b1|e]; by intros [= _ <-].
Qed.

Lemma swap_logs a b p r p' :
  Position.swap a b p = (r, p') -> same_logs p p'.
Proof.
  unfold Position.swap, mbind, M_bind, reads, modify, mret, M_ret.
  destruct (fltb a b).
  - destruct (amount1_psqrt p b) as [x|e]; [|by intros [= _ <-]].
    destruct (amount1_psqrt p a) as [y|e]; [|by intros [= _ <-]].
    destruct (fee_of _ _) as [z|e]; by intros [= _ <-].
  - destruct (amount0_psqrt p b) as [x|e]; [|by intros [= _ <-]].
    destruct (amount0_psqrt p a) as [y|e]; [|by intros [= _ <-]].
    destruct (fee_of _ _) as [z|e]; by intros [= _ <-].
Qed.

Lemma collect_logs p r p' :
  Position.collect p = (r, p') -> same_logs p p'.
Proof. by intros [= _ <-]. Qed.

Lemma log_history_ok b t p u p' :
  log_history b t p = (Ok u, p') ->
  appended (history p) (history p') 1 /\ balance p' = balance p.
Proof. intros [= _ <-]. split; [apply appended_one | reflexivity]. Qed.

Lemma log_balance_ok b t sp f0 f1 p u p' :
  log_balance b t sp f0 f1 p = (Ok u, p') ->
  history p' = history p /\ appended (balance p) (balance p') 1.
Proof.
  unfold log_balance, mbind, M_bind, reads, modify.
  destruct (amount0_psqrt p sp) as [a0|e]; [|discriminate].
  destruct (amount1_psqrt p sp) as [a1|e]; [|discriminate].
  intros [= _ <-]. split; [reflexivity | apply appended_one].
Qed.

End LogProps.

Module SimLogProps.
Import Position PositionProps Sim SimProps LogProps.

Lemma with_position_ok_inv {A} tid (m : M PositionInstance A) s a s' :
  with_position tid m s = (Ok a, s') ->
  exists p p', positions s !! tid = Some p /\ m p = (Ok a, p') /\
               s' = set_positions (<[tid := p']> (positions s)) s.
Proof.
  unfold with_position. destruct (positions s !! tid) as [p|]; [|discriminate].
  destruct (m p) as [r p'] eqn:Hm. intros [= -> <-]. by exists p, p'.
Qed.

Lemma try_ok_inv {S A} (m : M S A) (h : M S unit) s a s' :
  try_except_reraise m h s = (Ok a, s') -> m s = (Ok a, s').
Proof.
  unfold try_except_reraise. destruct (m s) as [[x|e] s1]; [done|].
  destruct (h s1) as [[?|?] ?]; discriminate.
Qed.

Ltac norm_state H :=
  cbn [set_wallet set_positions set_valid_positions set_next_token_id
       set_wallet_logs set_sqrt_price_x96 set_tick set_block_number set_L
       set_sqrt_price set_timestamp
       decimal0 decimal1 amount0 amount1 positions valid_positions
       _next_token_id fee tick sqrt_price_x96 sqrt_price block_number
       timestamp L _price_reverse wallet_logs] in H.

(** [minv] for methods of the simulation: calls on a registered
    position are taken apart too, and a lookup that follows an update of
    the same key is resolved. *)
Ltac prim_inv H1 :=
  first
    [ apply Step.get_ok_inv in H1 as [-> ->]
    | apply Step.modify_ok_inv in H1 as ->
    | apply Step.lift_ok_inv in H1 as [H1 ->]
    | apply Step.reads_ok_inv in H1 as [H1 ->]
    | apply Step.mret_ok_inv in H1 as [-> ->]
    | (apply try_ok_inv in H1; sinv H1)
    | (let p := fresh "p" in
       let p' := fresh "p" in
       let Hl := fresh "Hl" in
       let Hm := fresh "Hm" in
       apply with_position_ok_inv in H1 as (p & p' & Hl & Hm & ->);
       norm_state Hl;
       try (rewrite lookup_insert_eq in Hl; injection Hl as <-);
       try (apply Step.reads_ok_inv in Hm as [Hm ->]))
    | match type of H1 with
      | (if ?c then _ else _) _ = _ => destruct c; prim_inv H1
      end
    | idtac ]
with sinv H :=
  repeat
    (let a := fresh "v" in
     let s := fresh "s" in
     let H1 := fresh "Hs" in
     apply Step.bind_ok_inv in H as (a & s & H1 & H);
     prim_inv H1;
     norm_state H; try norm_state H1;
     repeat match type of H with
            | context [let '(_, _) := ?x in _] => destruct x
            end);
  prim_inv H; try norm_state H.

(** Collects what each step did to the two logs and closes the goal. *)
Ltac logs_tac :=
  repeat match goal with
         | H : Position.increase_liquidity _ _ _ _ = _ |- _ =>
             apply increase_liquidity_logs in H
         | H : Position.decrease_liquidity _ _ _ _ = _ |- _ =>
             apply decrease_liquidity_logs in H
         | H : Position.swap _ _ _ = _ |- _ => apply swap_logs in H
         | H : Position.collect _ = _ |- _ => apply collect_logs in H
         | H : log_history _ _ _ = _ |- _ =>
             apply log_history_ok in H as [? ?]
         | H : log_balance _ _ _ _ _ _ = _ |- _ =>
             apply log_balance_ok in H as [? ?]
         | H : same_logs _ _ |- _ => destruct H as [? ?]
         end;
  repeat match goal with
         | H : history ?a = history ?b |- _ => rewrite H in *; clear H
         | H : balance ?a = balance ?b |- _ => rewrite H in *; clear H
         end;
  auto using appended_refl.

Lemma increase_log_growth tid amt0 amt1 st r st' :
  increase_liquidity tid amt0 amt1 st = (Ok r, st') ->
  log_growth st st' tid 1 1.
Proof.
  intros H. unfold increase_liquidity, record_wallet in H. sinv H.
  eexists _, _. split; [eassumption|].
  split; [cbn; apply lookup_insert_eq|].
  split; logs_tac.
Qed.

Lemma decrease_log_growth tid liq pct st r st' :
  decrease_liquidity tid liq pct st = (Ok r, st') ->
  log_growth st st' tid 1 0.
Proof.
  intros H. unfold decrease_liquidity, record_wallet in H. sinv H.
  all: eexists _, _; (split; [eassumption|]);
    (split; [cbn; apply lookup_insert_eq|]); split; logs_tac.
Qed.

Lemma collect_log_growth tid st r st' :
  collect tid st = (Ok r, st') -> log_growth st st' tid 0 1.
Proof.
  intros H. unfold collect, record_wallet in H. sinv H.
  eexists _, _. split; [eassumption|].
  split; [cbn; apply lookup_insert_eq|].
  split; logs_tac.
Qed.

Lemma new_position_logs pow l lower upper d0 d1 rate tid rev p :
  new_position pow l lower upper d0 d1 rate tid rev = Ok p ->
  history p = [] /\ balance p = [] /\ token_id p = tid.
Proof.
  unfold new_position. intros H.
  repeat (apply Step.result_bind_ok_inv in H as (? & _ & H)).
  match type of H with
  | context [update_liquidity ?l ?q] =>
      destruct (update_liquidity l q) as [[[]|e] p1] eqn:Hu;
      [|discriminate]
  end.
  repeat (apply Step.result_bind_ok_inv in H as (? & _ & H)).
  injection H as <-.
  apply update_liquidity_ok in Hu as (e0 & e1 & _ & _ & ->).
  repeat split; reflexivity.
Qed.

Lemma mint_log_sizes pow lower upper amt0 amt1 st tid a0 a1 st' :
  mint pow lower upper amt0 amt1 st = (Ok (tid, a0, a1), st') ->
  tid = _next_token_id st + 1 /\ log_sizes st' tid 1 1.
Proof.
  intros H. unfold mint, next_token_id, record_wallet in H. sinv H.
  simplify_eq.
  match goal with
  | Hn : new_position _ _ _ _ _ _ _ _ _ = Ok ?q |- _ =>
      apply new_position_logs in Hn as (Hh & Hb & Ht)
  end.
  split; [exact Ht|].
  eexists. split; [cbn; apply lookup_insert_eq|].
  repeat match goal with
         | H : log_history _ _ _ = _ |- _ =>
             apply log_history_ok in H as [(? & ? & ?) ?]
         | H : log_balance _ _ _ _ _ _ = _ |- _ =>
             apply log_balance_ok in H as [? (? & ? & ?)]
         end.
  repeat match goal with
         | H : history ?a = _ |- _ => rewrite H in *; clear H
         | H : balance ?a = _ |- _ => rewrite H in *; clear H
         end.
  rewrite !length_app. simpl. lia.
Qed.

Lemma accrue_ok a b blk t tid s u s' :
  accrue a b blk t tid s = (Ok u, s') ->
  log_growth s s' tid 0 1 /\
  forall k, k ≠ tid -> positions s' !! k = positions s !! k.
Proof.
  intros H. unfold accrue in H. sinv H. split.
  - eexists _, _. split; [eassumption|].
    split; [cbn; apply lookup_insert_eq|]. split; logs_tac.
  - intros k Hk. cbn. by rewrite !lookup_insert_ne.
Qed.

Lemma log_growth_frame s s1 s' tid dh db :
  positions s1 !! tid = positions s !! tid ->
  log_growth s1 s' tid dh db -> log_growth s s' tid dh db.
Proof.
  intros E (p & p' & H1 & H2 & H3). exists p, p'. by rewrite <- E.
Qed.

Lemma log_growth_frame_r s s1 s' tid dh db :
  positions s' !! tid = positions s1 !! tid ->
  log_growth s s1 tid dh db -> log_growth s s' tid dh db.
Proof.
  intros E (p & p' & H1 & H2 & H3). exists p, p'. by rewrite E.
Qed.

Lemma for_each_accrue a b blk t l s u s' :
  NoDup l ->
  for_each l (accrue a b blk t) s = (Ok u, s') ->
  (forall tid, tid ∈ l -> log_growth s s' tid 0 1) /\
  (forall k, k ∉ l -> positions s' !! k = positions s !! k).
Proof.
  intros Hnd. revert s. induction Hnd as [|x l Hx Hnd IH]; intros s H.
  - simpl in H. injection H as _ <-. split; [|done].
    intros tid Hin. by apply elem_of_nil in Hin.
  - simpl in H. apply Step.bind_ok_inv in H as (? & s1 & H1 & H).
    apply accrue_ok in H1 as [Hg Hf].
    apply IH in H as [IHg IHf]. split.
    + intros tid Hin. apply elem_of_cons in Hin as [->|Hin].
      * apply (log_growth_frame_r _ s1); [by apply IHf | done].
      * apply (log_growth_frame _ s1); [|by apply IHg].
        apply Hf. intros ->. done.
    + intros k Hk. rewrite not_elem_of_cons in Hk. destruct Hk as [Hk1 Hk2].
      rewrite (IHf k Hk2). by apply Hf.
Qed.

Lemma on_swap_log_growth ev st u st' :
  NoDup (valid_positions st) ->
  on_swap ev st = (Ok u, st') ->
  forall tid, tid ∈ valid_positions st -> log_growth st st' tid 0 1.
Proof.
  intros Hnd H tid Hin. unfold on_swap, record_wallet in H. sinv H.
  match goal with
  | Hf : for_each _ _ _ = _ |- _ =>
      apply (for_each_accrue _ _ _ _ _ _ _ _ Hnd) in Hf as [Hg _]
  end.
  destruct (Hg tid Hin) as (p & p' & H1 & H2 & H3).
  exists p, p'. done.
Qed.

End SimLogProps.

(** ** The sizing algorithm *)

Module SizingProps.
Import PositionUtil FloatProps.

(** *** The order on floats *)

Lemma compare_cont_eq a b :
  PosDef.Pos.compare_cont Eq a b = (a ?= b)%positive.
Proof. reflexivity. Qed.

Ltac order_tac :=
  repeat match goal with
         | |- context [PosDef.Pos.compare_cont Eq ?a ?b] =>
             rewrite (compare_cont_eq a b)
         | |- context [(?a ?= ?b)%Z] => destruct (Z.compare_spec a b)
         | |- context [(?a ?= ?b)%positive] => destruct (Pos.compare_spec a b)
         end;
  simpl; intros; try discriminate; try reflexivity; try lia.

Lemma fltb_not_fleb x y : fltb x y = true -> fleb y x = false.
Proof.
  unfold fltb, fleb, SFltb, SFleb.
  destruct x as [sx|sx| |sx mx ex], y as [sy|sy| |sy my ey]; simpl;
    try destruct sx; try destruct sy; simpl; try discriminate;
    try reflexivity; rewrite ?compare_cont_eq; order_tac.
Qed.

Lemma fltb_trans_not_fleb x y z :
  fltb x y = true -> fltb y z = true -> fleb z x = false.
Proof.
  unfold fltb, fleb, SFltb, SFleb.
  destruct x as [sx|sx| |sx mx ex], y as [sy|sy| |sy my ey],
    z as [sz|sz| |sz mz ez]; simpl;
    try destruct sx; try destruct sy; try destruct sz; simpl;
    try discriminate; try reflexivity;
    rewrite ?compare_cont_eq; order_tac.
Qed.

Lemma fleb_refl_finite s m e :
  fleb (S754_finite s m e) (S754_finite s m e) = true.
Proof.
  unfold fleb, SFleb; simpl. rewrite compare_cont_eq.
  rewrite Z.compare_refl, Pos.compare_refl. by destruct s.
Qed.

(** *** Which exception a conversion can raise *)

Lemma result_bind_ok {A B} (r : result A) (f : A -> result B) a :
  r = Ok a -> r ≫= f = f a.
Proof. by intros ->. Qed.

Lemma py_int_finite v : is_finite v = true -> py_int v = Ok (trunc v).
Proof. by destruct v. Qed.

Lemma py_int_not_assert v : py_int v <> Raise AssertionError.
Proof. by destruct v. Qed.

Lemma float_of_int_not_assert n : float_of_int n <> Raise AssertionError.
Proof.
  unfold float_of_int, round_int.
  by destruct (binary_normalize _ _ _ _ _).
Qed.

Lemma truediv_not_assert x y : truediv x y <> Raise AssertionError.
Proof. unfold truediv. by destruct (is_zero y). Qed.

Lemma math_sqrt_not_assert x : math_sqrt x <> Raise AssertionError.
Proof. by destruct x as [|[]| |[]]. Qed.

Lemma mul_float_int_not_assert n t :
  (v ← Num.mul_float (I n) t; py_int v) <> Raise AssertionError.
Proof.
  unfold Num.mul_float, Num.to_float.
  destruct (float_of_int n) as [y|e] eqn:E; simpl;
    [apply py_int_not_assert|].
  intros [= ->]. by apply float_of_int_not_assert in E.
Qed.

Lemma trunc_floor v : is_negative v = false -> trunc v = floor v.
Proof. by destruct v as [| | |[]]. Qed.

(** *** Below the range *)

Lemma below_assert sp sl su amt0 amt1 :
  fleb sp sl = true ->
  cal_liquidity_sqrt sp sl su amt0 amt1 = Raise AssertionError <-> amt0 = 0.
Proof.
  intros Hr. unfold cal_liquidity_sqrt. rewrite Hr.
  destruct (Z.eqb_spec amt0 0) as [->|Hne]; simpl; [done|].
  split; [|done]. intros H. exfalso.
  pose proof (truediv_not_assert (fmul su sl) (fsub su sl)).
  destruct (truediv _ _) as [t|e]; simpl in H; [|congruence].
  pose proof (mul_float_int_not_assert amt0 t) as Hm.
  destruct (Num.mul_float (I amt0) t) as [v|e]; simpl in *; [|congruence].
  destruct (py_int v); simpl in *; congruence.
Qed.

Lemma below_returns sp sl su amt0 amt1 x :
  fleb sp sl = true -> amt0 <> 0 ->
  is_zero (fsub su sl) = false -> float_of_int amt0 = Ok x ->
  is_finite (fmul x (fdiv (fmul su sl) (fsub su sl))) = true ->
  cal_liquidity_sqrt sp sl su amt0 amt1
  = Ok (I (trunc (fmul x (fdiv (fmul su sl) (fsub su sl)))), amt0, 0).
Proof.
  intros Hr Hne Hz Hx Hf. unfold cal_liquidity_sqrt. rewrite Hr.
  apply Z.eqb_neq in Hne. rewrite Hne; simpl.
  unfold truediv. rewrite Hz; simpl.
  unfold Num.mul_float; simpl. rewrite Hx; simpl.
  by rewrite (py_int_finite _ Hf).
Qed.

(** [int()] of a float that is not finite raises, and not the assertion. *)
Lemma py_int_not_finite v :
  is_finite v = false ->
  exists e, py_int v = Raise e /\ e <> AssertionError.
Proof. destruct v; try discriminate; intros _; by eexists. Qed.

Lemma below_zero_div sp sl su amt0 amt1 :
  fleb sp sl = true -> amt0 <> 0 -> is_zero (fsub su sl) = true ->
  cal_liquidity_sqrt sp sl su amt0 amt1 = Raise ZeroDivisionError.
Proof.
  intros Hr Hne Hz. unfold cal_liquidity_sqrt. rewrite Hr.
  apply Z.eqb_neq in Hne. rewrite Hne; simpl.
  unfold truediv. by rewrite Hz.
Qed.

Lemma below_not_finite sp sl su amt0 amt1 x :
  fleb sp sl = true -> amt0 <> 0 ->
  is_zero (fsub su sl) = false -> float_of_int amt0 = Ok x ->
  is_finite (fmul x (fdiv (fmul su sl) (fsub su sl))) = false ->
  exists e, cal_liquidity_sqrt sp sl su amt0 amt1 = Raise e /\
            e <> AssertionError.
Proof.
  intros Hr Hne Hz Hx Hf. unfold cal_liquidity_sqrt. rewrite Hr.
  apply Z.eqb_neq in Hne. rewrite Hne; simpl.
  unfold truediv. rewrite Hz; simpl.
  unfold Num.mul_float; simpl. rewrite Hx; simpl.
  destruct (py_int_not_finite _ Hf) as (e & -> & He). by exists e.
Qed.

(** *** Above the range *)

Lemma above_branch sp sl su :
  fltb sl su = true -> fltb su sp = true ->
  fleb sp sl = false /\ fleb sp su = false.
Proof.
  intros H1 H2. split.
  - by apply (fltb_trans_not_fleb sl su sp).
  - by apply fltb_not_fleb.
Qed.

Lemma above_assert sp sl su amt0 amt1 :
  fleb sp sl = false -> fleb sp su = false ->
  cal_liquidity_sqrt sp sl su amt0 amt1 = Raise AssertionError <-> amt1 = 0.
Proof.
  intros Ha Hb.
  unfold cal_liquidity_sqrt. rewrite Ha, Hb.
  destruct (Z.eqb_spec amt1 0) as [->|Hne]; simpl; [done|].
  split; [|done]. intros H. exfalso.
  pose proof (float_of_int_not_assert amt1).
  destruct (float_of_int amt1) as [a|e]; simpl in H; [|congruence].
  pose proof (truediv_not_assert a (fsub su sl)).
  destruct (truediv _ _) as [t|e]; simpl in H; [|congruence].
  destruct (py_int t) eqn:E; simpl in *; [congruence|].
  injection H as ->. by apply py_int_not_assert in E.
Qed.

Lemma above_returns sp sl su amt0 amt1 x :
  fleb sp sl = false -> fleb sp su = false -> amt1 <> 0 ->
  is_zero (fsub su sl) = false -> float_of_int amt1 = Ok x ->
  is_finite (fdiv x (fsub su sl)) = true ->
  cal_liquidity_sqrt sp sl su amt0 amt1
  = Ok (I (trunc (fdiv x (fsub su sl))), 0, amt1).
Proof.
  intros Ha Hb Hne Hz Hx Hf.
  unfold cal_liquidity_sqrt. rewrite Ha, Hb.
  apply Z.eqb_neq in Hne. rewrite Hne; simpl. rewrite Hx; simpl.
  unfold truediv. rewrite Hz; simpl.
  by rewrite (py_int_finite _ Hf).
Qed.

Lemma above_zero_div sp sl su amt0 amt1 x :
  fleb sp sl = false -> fleb sp su = false -> amt1 <> 0 ->
  float_of_int amt1 = Ok x -> is_zero (fsub su sl) = true ->
  cal_liquidity_sqrt sp sl su amt0 amt1 = Raise ZeroDivisionError.
Proof.
  intros Ha Hb Hne Hx Hz.
  unfold cal_liquidity_sqrt. rewrite Ha, Hb.
  apply Z.eqb_neq in Hne. rewrite Hne; simpl. rewrite Hx; simpl.
  unfold truediv. by rewrite Hz.
Qed.

Lemma above_not_finite sp sl su amt0 amt1 x :
  fleb sp sl = false -> fleb sp su = false -> amt1 <> 0 ->
  is_zero (fsub su sl) = false -> float_of_int amt1 = Ok x ->
  is_finite (fdiv x (fsub su sl)) = false ->
  exists e, cal_liquidity_sqrt sp sl su amt0 amt1 = Raise e /\
            e <> AssertionError.
Proof.
  intros Ha Hb Hne Hz Hx Hf.
  unfold cal_liquidity_sqrt. rewrite Ha, Hb.
  apply Z.eqb_neq in Hne. rewrite Hne; simpl. rewrite Hx; simpl.
  unfold truediv. rewrite Hz; simpl.
  destruct (py_int_not_finite _ Hf) as (e & -> & He). by exists e.
Qed.

(** *** The same two cases of [cal_liquidity], on prices *)

Lemma below_assert_price cprice upper lower amt0 amt1 :
  fleb cprice lower = true ->
  cal_liquidity cprice upper lower amt0 amt1 = Raise AssertionError
  <-> amt0 = 0.
Proof.
  intros Hr. unfold cal_liquidity. rewrite Hr.
  destruct (Z.eqb_spec amt0 0) as [->|Hne]; simpl; [done|].
  split; [|done]. intros H. exfalso.
  pose proof (math_sqrt_not_assert upper).
  pose proof (math_sqrt_not_assert lower).
  destruct (math_sqrt upper) as [su|e]; simpl in H; [|congruence].
  destruct (math_sqrt lower) as [sl|e]; simpl in H; [|congruence].
  pose proof (truediv_not_assert (fmul su sl) (fsub su sl)).
  destruct (truediv _ _) as [t|e]; simpl in H; [|congruence].
  pose proof (mul_float_int_not_assert amt0 t) as Hm.
  destruct (Num.mul_float (I amt0) t) as [v|e]; simpl in *; [|congruence].
  destruct (py_int v); simpl in *; congruence.
Qed.

Lemma below_returns_price cprice upper lower amt0 amt1 su sl x :
  fleb cprice lower = true -> amt0 <> 0 ->
  math_sqrt upper = Ok su -> math_sqrt lower = Ok sl ->
  is_zero (fsub su sl) = false -> float_of_int amt0 = Ok x ->
  is_finite (fmul x (fdiv (fmul su sl) (fsub su sl))) = true ->
  cal_liquidity cprice upper lower amt0 amt1
  = Ok (I (trunc (fmul x (fdiv (fmul su sl) (fsub su sl)))), amt0, 0).
Proof.
  intros Hr Hne Hu Hl Hz Hx Hf. unfold cal_liquidity. rewrite Hr.
  apply Z.eqb_neq in Hne. rewrite Hne; simpl. rewrite Hu, Hl; simpl.
  unfold truediv. rewrite Hz; simpl.
  unfold Num.mul_float; simpl. rewrite Hx; simpl.
  by rewrite (py_int_finite _ Hf).
Qed.

Lemma below_zero_div_price cprice upper lower amt0 amt1 su sl :
  fleb cprice lower = true -> amt0 <> 0 ->
  math_sqrt upper = Ok su -> math_sqrt lower = Ok sl ->
  is_zero (fsub su sl) = true ->
  cal_liquidity cprice upper lower amt0 amt1 = Raise ZeroDivisionError.
Proof.
  intros Hr Hne Hu Hl Hz. unfold cal_liquidity. rewrite Hr.
  apply Z.eqb_neq in Hne. rewrite Hne; simpl. rewrite Hu, Hl; simpl.
  unfold truediv. by rewrite Hz.
Qed.

Lemma below_not_finite_price cprice upper lower amt0 amt1 su sl x :
  fleb cprice lower = true -> amt0 <> 0 ->
  math_sqrt upper = Ok su -> math_sqrt lower = Ok sl ->
  is_zero (fsub su sl) = false -> float_of_int amt0 = Ok x ->
  is_finite (fmul x (fdiv (fmul su sl) (fsub su sl))) = false ->
  exists e, cal_liquidity cprice upper lower amt0 amt1 = Raise e /\
            e <> AssertionError.
Proof.
  intros Hr Hne Hu Hl Hz Hx Hf. unfold cal_liquidity. rewrite Hr.
  apply Z.eqb_neq in Hne. rewrite Hne; simpl. rewrite Hu, Hl; simpl.
  unfold truediv. rewrite Hz; simpl.
  unfold Num.mul_float; simpl. rewrite Hx; simpl.
  destruct (py_int_not_finite _ Hf) as (e & -> & He). by exists e.
Qed.

Lemma above_assert_price cprice upper lower amt0 amt1 :
  fleb cprice lower = false -> fleb cprice upper = false ->
  cal_liquidity cprice upper lower amt0 amt1 = Raise AssertionError
  <-> amt1 = 0.
Proof.
  intros Ha Hb.
  unfold cal_liquidity. rewrite Ha, Hb.
  destruct (Z.eqb_spec amt1 0) as [->|Hne]; simpl; [done|].
  split; [|done]. intros H. exfalso.
  pose proof (math_sqrt_not_assert upper).
  pose proof (math_sqrt_not_assert lower).
  destruct (math_sqrt upper) as [su|e]; simpl in H; [|congruence].
  destruct (math_sqrt lower) as [sl|e]; simpl in H; [|congruence].
  pose proof (float_of_int_not_assert amt1).
  destruct (float_of_int amt1) as [a|e]; simpl in H; [|congruence].
  pose proof (truediv_not_assert a (fsub su sl)).
  destruct (truediv _ _) as [t|e]; simpl in H; [|congruence].
  destruct (py_int t) eqn:E; simpl in *; [congruence|].
  injection H as ->. by apply py_int_not_assert in E.
Qed.

Lemma above_returns_price cprice upper lower amt0 amt1 su sl x :
  fleb cprice lower = false -> fleb cprice upper = false -> amt1 <> 0 ->
  math_sqrt upper = Ok su -> math_sqrt lower = Ok sl ->
  is_zero (fsub su sl) = false -> float_of_int amt1 = Ok x ->
  is_finite (fdiv x (fsub su sl)) = true ->
  cal_liquidity cprice upper lower amt0 amt1
  = Ok (I (trunc (fdiv x (fsub su sl))), 0, amt1).
Proof.
  intros Ha Hb Hne Hu Hl Hz Hx Hf.
  unfold cal_liquidity. rewrite Ha, Hb.
  apply Z.eqb_neq in Hne. rewrite Hne; simpl. rewrite Hu, Hl, Hx; simpl.
  unfold truediv. rewrite Hz; simpl.
  by rewrite (py_int_finite _ Hf).
Qed.

Lemma above_zero_div_price cprice upper lower amt0 amt1 su sl x :
  fleb cprice lower = false -> fleb cprice upper = false -> amt1 <> 0 ->
  math_sqrt upper = Ok su -> math_sqrt lower = Ok sl ->
  float_of_int amt1 = Ok x -> is_zero (fsub su sl) = true ->
  cal_liquidity cprice upper lower amt0 amt1 = Raise ZeroDivisionError.
Proof.
  intros Ha Hb Hne Hu Hl Hx Hz.
  unfold cal_liquidity. rewrite Ha, Hb.
  apply Z.eqb_neq in Hne. rewrite Hne; simpl. rewrite Hu, Hl, Hx; simpl.
  unfold truediv. by rewrite Hz.
Qed.

Lemma above_not_finite_price cprice upper lower amt0 amt1 su sl x :
  fleb cprice lower = false -> fleb cprice upper = false -> amt1 <> 0 ->
  math_sqrt upper = Ok su -> math_sqrt lower = Ok sl ->
  is_zero (fsub su sl) = false -> float_of_int amt1 = Ok x ->
  is_finite (fdiv x (fsub su sl)) = false ->
  exists e, cal_liquidity cprice upper lower amt0 amt1 = Raise e /\
            e <> AssertionError.
Proof.
  intros Ha Hb Hne Hu Hl Hz Hx Hf.
  unfold cal_liquidity. rewrite Ha, Hb.
  apply Z.eqb_neq in Hne. rewrite Hne; simpl. rewrite Hu, Hl, Hx; simpl.
  unfold truediv. rewrite Hz; simpl.
  destruct (py_int_not_finite _ Hf) as (e & -> & He). by exists e.
Qed.

End SizingProps.

(** ** The wallet's own trade *)

Module SwapProps.
Import Sim SizingProps SimProps.

Lemma bind_valid {A B} (r : result A) (f : A -> result B) :
  r <> invalid_argument -> (forall a, f a <> invalid_argument) ->
  r ≫= f <> invalid_argument.
Proof. destruct r as [a|e]; simpl; [auto|]. intros H _ [= ->]. by apply H. Qed.

Lemma py_int_valid v : py_int v <> invalid_argument.
Proof. by destruct v. Qed.

Lemma float_of_int_valid n : float_of_int n <> invalid_argument.
Proof.
  unfold float_of_int, round_int.
  by destruct (binary_normalize _ _ _ _ _).
Qed.

Lemma truediv_valid x y : truediv x y <> invalid_argument.
Proof. unfold truediv. by destruct (is_zero y). Qed.

Lemma to_float_valid a : Num.to_float a <> invalid_argument.
Proof. destruct a; simpl; [apply float_of_int_valid | done]. Qed.

Lemma mul_float_valid a x : Num.mul_float a x <> invalid_argument.
Proof. apply bind_valid; [apply to_float_valid | done]. Qed.

Lemma py_assert_valid c : py_assert c <> invalid_argument.
Proof. by destruct c. Qed.

Create HintDb valid.
Local Hint Resolve py_int_valid float_of_int_valid truediv_valid
  to_float_valid mul_float_valid py_assert_valid : valid.

Ltac valid_tac :=
  repeat first [ progress auto with valid
               | apply bind_valid; [|intros ?] ].

Lemma amount_of_pct_valid bal pct : amount_of_pct bal pct <> invalid_argument.
Proof.
  unfold amount_of_pct. apply bind_valid.
  - destruct pct; simpl; [done|]. valid_tac.
  - intros [n|x]; simpl; [done | apply py_int_valid].
Qed.

Lemma total_amount_of_valid a f : total_amount_of a f <> invalid_argument.
Proof. unfold total_amount_of. valid_tac. Qed.

Lemma out_amount0_valid s a : out_amount0 s a <> invalid_argument.
Proof. unfold out_amount0. valid_tac. Qed.

Lemma out_amount1_valid s a : out_amount1 s a <> invalid_argument.
Proof. unfold out_amount1. valid_tac. Qed.

Lemma swap_amount_invalid bal amount pct :
  swap_amount bal amount pct = invalid_argument
  <-> amount = 0 /\ Num.truthy pct = false.
Proof.
  unfold swap_amount.
  destruct (Z.eqb_spec amount 0) as [->|Hne].
  - destruct (Num.truthy pct); [|done].
    split; [|by intros [_ ?]].
    intros H. by apply amount_of_pct_valid in H.
  - split; [done | by intros [? _]].
Qed.

(** The part of [swap] after the amount is known, for either token. *)
Lemma swap_invalid in_token amount pct st :
  (swap in_token amount pct st).1 = invalid_argument
  <-> amount = 0 /\ Num.truthy pct = false.
Proof.
  rewrite <- (swap_amount_invalid
                (if negb (in_token =? 0) then amount1 st else amount0 st)).
  unfold swap, mbind, M_bind, reads, get, lift, modify, mret, M_ret.
  destruct (negb (in_token =? 0)).
  - destruct (swap_amount (amount1 st) amount pct) as [a|e] eqn:Ea;
      [|done].
    split; [|done]. intros H. exfalso.
    pose proof (total_amount_of_valid a (fee st)) as Ht.
    destruct (total_amount_of a (fee st)) as [t|e]; [|done].
    destruct (t <? amount1 st); simpl in H; [|done].
    pose proof (out_amount0_valid st a) as Ho.
    destruct (out_amount0 st a) as [o|e]; simpl in H; done.
  - destruct (swap_amount (amount0 st) amount pct) as [a|e] eqn:Ea;
      [|done].
    split; [|done]. intros H. exfalso.
    pose proof (total_amount_of_valid a (fee st)) as Ht.
    destruct (total_amount_of a (fee st)) as [t|e]; [|done].
    destruct (t <? amount0 st); simpl in H; [|done].
    pose proof (out_amount1_valid st a) as Ho.
    destruct (out_amount1 st a) as [o|e]; simpl in H; done.
Qed.

Lemma swap_invalid_state in_token pct st :
  Num.truthy pct = false -> (swap in_token 0 pct st).2 = st.
Proof.
  intros Hp.
  unfold swap, mbind, M_bind, reads, swap_amount; simpl. rewrite Hp.
  by destruct (negb (in_token =? 0)).
Qed.

Lemma swap_amount_given bal amount pct :
  amount <> 0 -> swap_amount bal amount pct = Ok amount.
Proof. intros H. unfold swap_amount. apply Z.eqb_neq in H. by rewrite H. Qed.

Lemma swap_pct_ignored in_token amount pct st :
  amount <> 0 -> swap in_token amount pct st = swap in_token amount (I 0) st.
Proof.
  intros H. unfold swap.
  destruct (negb (in_token =? 0)); unfold mbind, M_bind, reads; cbn beta;
    by rewrite !(swap_amount_given _ _ _ H).
Qed.

Lemma swap_token1 in_token amount pct st a t out :
  in_token <> 0 ->
  swap_amount (amount1 st) amount pct = Ok a ->
  total_amount_of a (fee st) = Ok t ->
  out_amount0 st a = Ok out ->
  swap in_token amount pct st
  = if t <? amount1 st
    then (Ok out, set_wallet (amount0 st + out) (amount1 st - t) st)
    else (Raise AssertionError, st).
Proof.
  intros Hi Ha Ht Ho. apply Z.eqb_neq in Hi.
  unfold swap, mbind, M_bind, reads, get, lift, modify, mret, M_ret.
  rewrite Hi; simpl. rewrite Ha, Ht.
  destruct (t <? amount1 st); simpl; [|done]. by rewrite Ho.
Qed.

Lemma swap_token0 amount pct st a t out :
  swap_amount (amount0 st) amount pct = Ok a ->
  total_amount_of a (fee st) = Ok t ->
  out_amount1 st a = Ok out ->
  swap 0 amount pct st
  = if t <? amount0 st
    then (Ok out, set_wallet (amount0 st - t) (amount1 st + out) st)
    else (Raise AssertionError, st).
Proof.
  intros Ha Ht Ho.
  unfold swap, mbind, M_bind, reads, get, lift, modify, mret, M_ret.
  simpl. rewrite Ha, Ht.
  destruct (t <? amount0 st); simpl; [|done]. by rewrite Ho.
Qed.

(** The amount traded when only [pct] is given, and the total debited:
    the float expressions of the source, truncated. *)
Lemma swap_amount_pct_int bal k :
  k <> 0 -> swap_amount bal 0 (I k) = Ok (bal * k).
Proof.
  intros Hk. unfold swap_amount. simpl.
  apply Z.eqb_neq in Hk. by rewrite Hk.
Qed.

Lemma swap_amount_pct_float bal q b :
  is_zero q = false -> float_of_int bal = Ok b ->
  is_finite (fmul b q) = true ->
  swap_amount bal 0 (F q) = Ok (trunc (fmul b q)).
Proof.
  intros Hq Hb Hf. unfold swap_amount, amount_of_pct. simpl. rewrite Hq.
  simpl. unfold Num.mul, Num.arith, Num.to_float. rewrite Hb. simpl.
  by destruct (fmul b q).
Qed.

Lemma total_amount_of_eq a f fv x :
  float_of_int f = Ok fv -> float_of_int a = Ok x ->
  is_finite (fmul x (fadd (fdiv fv f1e6) f1)) = true ->
  total_amount_of a f = Ok (trunc (fmul x (fadd (fdiv fv f1e6) f1))).
Proof.
  intros Hf Ha Hfin. unfold total_amount_of. rewrite Hf. simpl.
  unfold Num.mul_float, Num.to_float. rewrite Ha. simpl.
  by destruct (fmul x (fadd (fdiv fv f1e6) f1)).
Qed.

End SwapProps.

(** * The claims *)

Module Claims.
Import Ex.

(** ** C1: sizing inside the range *)

(** What the in-range case returns when it returns: the smaller candidate
    as liquidity, the caller's amount on the side whose candidate is
    chosen and the recomputed amount on the other side. *)
Lemma in_range_shape sp sl su amt0 amt1 l a0 a1 :
  fleb sp sl = false -> fleb sp su = true ->
  PositionUtil.cal_liquidity_sqrt sp sl su amt0 amt1 = Ok (l, a0, a1) ->
  exists l0 l1,
    PositionUtil.candidate0 sp su amt0 = Ok l0 /\
    PositionUtil.candidate1 sp sl amt1 = Ok l1 /\
    ((Num.ltb l0 l1 = true /\ l = l0 /\ a0 = amt0 /\
      PositionUtil.recomputed1 l0 sp sl = Ok a1) \/
     (Num.ltb l0 l1 = false /\ l = l1 /\ a1 = amt1 /\
      PositionUtil.recomputed0 l1 sp su = Ok a0)).
Proof.
  intros Ha Hb. unfold PositionUtil.cal_liquidity_sqrt. rewrite Ha, Hb.
  destruct (py_assert _) as [[]|e]; simpl; [|discriminate].
  destruct (PositionUtil.candidate0 sp su amt0) as [l0|e]; simpl;
    [|discriminate].
  destruct (PositionUtil.candidate1 sp sl amt1) as [l1|e]; simpl;
    [|discriminate].
  intros H. exists l0, l1. split; [done|]. split; [done|].
  destruct (Num.ltb l0 l1).
  - left. destruct (PositionUtil.recomputed1 l0 sp sl) as [x|e]; simpl in H;
      [|discriminate]. by injection H as <- <- <-.
  - right. destruct (PositionUtil.recomputed0 l1 sp su) as [x|e]; simpl in H;
      [|discriminate]. by injection H as <- <- <-.
Qed.

(** C1. With the price on the upper bound of the range, which the
    in-range case includes, and [amt0] not zero, [cal_liquidity_sqrt]
    divides by [sqrt_upper - sqrt_price = 0] and raises
    [ZeroDivisionError]: no liquidity is returned. *)
Theorem in_range_upper_bound_raises s m e sl amt0 amt1 x :
  fltb sl (S754_finite s m e) = true -> amt0 <> 0 ->
  float_of_int amt0 = Ok x ->
  PositionUtil.cal_liquidity_sqrt (S754_finite s m e) sl (S754_finite s m e)
    amt0 amt1
  = Raise ZeroDivisionError.
Proof.
  intros Hlt Hne Hx. unfold PositionUtil.cal_liquidity_sqrt.
  rewrite (SizingProps.fltb_not_fleb _ _ Hlt).
  rewrite SizingProps.fleb_refl_finite.
  apply Z.eqb_neq in Hne.
  unfold PositionUtil.candidate0. rewrite Hne, FloatProps.fsub_diag.
  unfold Num.mul_float, Num.to_float. rewrite Hx. reflexivity.
Qed.

Lemma in_range_upper_bound_raises_witness :
  PositionUtil.cal_liquidity_sqrt f2 f1 f2 1 1 = Raise ZeroDivisionError.
Proof.
  apply (in_range_upper_bound_raises false 4503599627370496 (-51) f1 1 1 f1).
  - reflexivity.
  - lia.
  - reflexivity.
Defined.

(** The same on prices: [cal_liquidity(4.0, 4.0, 1.0, 1, 1)]. *)
Example cal_liquidity_upper_bound_raises :
  fltb f1 f4 = true /\ fleb f4 f4 = true /\
  PositionUtil.cal_liquidity f4 f4 f1 1 1 = Raise ZeroDivisionError.
Proof. repeat split; reflexivity. Qed.

(** ** C3: the wallet *)

(** The sibling path: what [increase_liquidity] debits is what it
    checked, so it leaves both balances non-negative. *)
Lemma increase_liquidity_wallet tid amt0 amt1 st r st' :
  0 <= amount0 st -> 0 <= amount1 st ->
  Sim.increase_liquidity tid amt0 amt1 st = (Ok r, st') ->
  0 <= amount0 st' /\ 0 <= amount1 st'.
Proof.
  intros H0 H1 H. unfold Sim.increase_liquidity, Sim.record_wallet in H.
  SimLogProps.sinv H. cbn.
  repeat match goal with
         | Ha : py_assert _ = Ok _ |- _ =>
             apply Step.py_assert_ok_inv, Z.leb_le in Ha
         end.
  lia.
Qed.

(** C3. From a wallet of 1000 token0 and 0 token1, at price 1,
    [mint(-60, 60, 1000, 0)] passes both balance checks (they look at the
    requested 1000 and 0), returns, and debits the recomputed 999 and
    999: the balance of token1 becomes -999. *)
Theorem mint_overdraws_wallet :
  (0 <= amount0 (sim_at_one 1000 0) /\ 0 <= amount1 (sim_at_one 1000 0)) /\
  (Sim.mint RefPow.pow (-60) 60 1000 0 (sim_at_one 1000 0)).1
    = Ok (1, 999, 999) /\
  amount0 (Sim.mint RefPow.pow (-60) 60 1000 0 (sim_at_one 1000 0)).2 = 1 /\
  amount1 (Sim.mint RefPow.pow (-60) 60 1000 0 (sim_at_one 1000 0)).2
    = -999.
Proof.
  split; [split; vm_compute; congruence|].
  split; [vm_compute; reflexivity|].
  split; vm_compute; reflexivity.
Qed.

(** ** C4 and C9: witnesses *)

Lemma position_1_registered : positions minted !! 1 = Some position_1.
Proof. vm_compute. reflexivity. Qed.

Lemma position_1_registered_all :
  positions minted_all !! 1 = Some position_1.
Proof. vm_compute. reflexivity. Qed.

Lemma position_1_consistent : Position.consistent position_1.
Proof. split; vm_compute; reflexivity. Qed.

Lemma increase_liquidity_rollback_witness :
  Sim.increase_liquidity 1 500 500 minted_all
  = (Raise AssertionError, minted_all).
Proof.
  apply (SimProps.increase_liquidity_rollback minted_all 1 500 500
           position_1 (I 166925) 500 500
           (Position.with_liquidity (I 500775) 3004 3004 position_1)).
  - vm_compute. reflexivity.
  - split; vm_compute; reflexivity.
  - vm_compute. reflexivity.
  - left. vm_compute. reflexivity.
Defined.

Lemma decrease_all_closes_witness :
  exists st' p',
    Sim.decrease_liquidity 1 None (I 1) minted = (Ok (1, 999, 999), st') /\
    (1 ∉ valid_positions st') /\
    positions st' !! 1 = Some p' /\
    forall sp, Position.is_active p' sp = false.
Proof.
  apply (SimProps.decrease_all_closes minted 1 position_1 999 999).
  - vm_compute. reflexivity.
  - reflexivity.
  - reflexivity.
  - reflexivity.
  - split; vm_compute; reflexivity.
  - vm_compute. reflexivity.
  - vm_compute. reflexivity.
Defined.

(** A float liquidity, as a partial decrease leaves it, is finite and
    positive, the position consistent; removing all of it closes the
    position and leaves the liquidity [0.0]. *)
Example halved_position :
  exists p,
    positions halved !! 1 = Some p /\
    liquidity p = F (S754_finite false 5735499327078400 (-35)) /\
    Num.finite (liquidity p) = true /\
    Num.ltb (I 0) (liquidity p) = true /\
    Position.edge0 (liquidity p) p = Ok (_amount0_edge p) /\
    Position.edge1 (liquidity p) p = Ok (_amount1_edge p).
Proof.
  eexists. split; [vm_compute; reflexivity|].
  split; [reflexivity|].
  split; [reflexivity|].
  split; [reflexivity|].
  split; vm_compute; reflexivity.
Qed.

Example halved_position_closes :
  (Sim.decrease_liquidity 1 None (I 1) halved).1 = Ok (1, 499, 499) /\
  valid_positions (Sim.decrease_liquidity 1 None (I 1) halved).2 = [] /\
  liquidity <$> positions (Sim.decrease_liquidity 1 None (I 1) halved).2 !! 1
  = Some (F f0).
Proof.
  split; [vm_compute; reflexivity|].
  split; vm_compute; reflexivity.
Qed.

(** ** C5: price to tick *)

Lemma trunc_negative v :
  is_negative v = true -> trunc v = - floor (SFopp v).
Proof. by destruct v as [| | |[]]. Qed.

(** C5, as the claim states it, fails: with equal decimals, the price 0.5
    has the logarithm -6931.8..., whose floor is -6932, and
    [price_to_tick] returns -6931. *)
Lemma price_to_tick_floor_counterexample :
  Price.price_to_tick c_log_sample converter_same f_half false = Ok (-6931) /\
  (d ← Price.price_to_dex converter_same f_half false;
   y ← Price.math_log c_log_sample d f1_0001;
   Ok (floor y)) = Ok (-6932).
Proof. split; vm_compute; reflexivity. Qed.

(** C5, amended: when the dex price and its base-1.0001 logarithm are
    computed, [price_to_tick] returns the logarithm truncated toward
    zero: its floor when it is not negative, and the opposite of the
    floor of its opposite (its ceiling) when it is negative. *)
Theorem price_to_tick_truncates (c_log : float -> float) pc price reverse d y :
  Price.price_to_dex pc price reverse = Ok d ->
  Price.math_log c_log d f1_0001 = Ok y ->
  is_finite y = true ->
  Price.price_to_tick c_log pc price reverse = Ok (trunc y) /\
  (is_negative y = false -> trunc y = floor y) /\
  (is_negative y = true -> trunc y = - floor (SFopp y)).
Proof.
  intros Hd Hy Hf. split; [|split].
  - unfold Price.price_to_tick. rewrite Hd; simpl. rewrite Hy; simpl.
    by apply SizingProps.py_int_finite.
  - apply SizingProps.trunc_floor.
  - apply trunc_negative.
Qed.

Lemma price_to_tick_truncates_witness :
  let y := S754_finite true 7621614903200626 (-40) in
  Price.price_to_tick c_log_sample converter_same f_half false
    = Ok (trunc y) /\
  (is_negative y = false -> trunc y = floor y) /\
  (is_negative y = true -> trunc y = - floor (SFopp y)).
Proof.
  apply (price_to_tick_truncates c_log_sample converter_same f_half false
           f_half (S754_finite true 7621614903200626 (-40))).
  - vm_compute. reflexivity.
  - vm_compute. reflexivity.
  - reflexivity.
Defined.

(** ** C6: sizing outside the range *)

(** C6, as the claim states it, fails. With equal bounds, which is what
    [mint(0, 59, ...)] passes at price 1, the sizing fails although
    [amt0] is not zero: it divides by zero. With inverted bounds, which
    is what [mint(60, 0, ...)] passes, the value is negative and the
    liquidity returned is its truncation toward zero, one above its
    floor. *)
Lemma sizing_equal_bounds_counterexample :
  PositionUtil.cal_liquidity_sqrt f1 f1 f1 1000 1000
    = Raise ZeroDivisionError /\
  exists lo x,
    Sim.sqrt_price_at_tick RefPow.pow 60 = Ok lo /\
    float_of_int 1000 = Ok x /\
    PositionUtil.cal_liquidity_sqrt f1 lo f1 1000 1000
      = Ok (I (-333850), 1000, 0) /\
    floor (fmul x (fdiv (fmul f1 lo) (fsub f1 lo))) = -333851.
Proof.
  split; [vm_compute; reflexivity|].
  exists (S754_finite false 4517130035207948 (-52)),
         (S754_finite false 8796093022208000 (-43)).
  repeat split; vm_compute; reflexivity.
Qed.

(** C6, amended. Below the range ([price <= lower]) the sizing raises
    its assertion exactly when [amt0] is zero. With [amt0] not zero it
    raises [ZeroDivisionError] when the difference of the bounds is
    zero; otherwise, with [v] the float value of
    [amt0 * (upper * lower / (upper - lower))], it returns [int(v)],
    [amt0] and [0] when [v] is finite, and raises from [int()] when it
    is not. Where neither [price <= lower] nor [price <= upper] holds
    (the price is above both bounds), the same holds with [amt1] and the
    value of [amt1 / (upper - lower)], the result being [int(v)], [0]
    and [amt1]. Both hold for [cal_liquidity_sqrt] and, with the square
    roots taken, for [cal_liquidity]. [int()] truncates toward zero: it
    is the floor of a value that is not negative, and the opposite of
    the floor of the opposite of a negative one. The sizing is a
    function of its arguments: run inside a method, it leaves the object
    as it is. *)
Theorem sizing_outside_range :
  (forall sp sl su amt0 amt1, fleb sp sl = true ->
     (PositionUtil.cal_liquidity_sqrt sp sl su amt0 amt1
        = Raise AssertionError <-> amt0 = 0) /\
     (amt0 <> 0 -> is_zero (fsub su sl) = true ->
        PositionUtil.cal_liquidity_sqrt sp sl su amt0 amt1
        = Raise ZeroDivisionError) /\
     (forall x, amt0 <> 0 -> is_zero (fsub su sl) = false ->
        float_of_int amt0 = Ok x ->
        let v := fmul x (fdiv (fmul su sl) (fsub su sl)) in
        (is_finite v = true ->
           PositionUtil.cal_liquidity_sqrt sp sl su amt0 amt1
           = Ok (I (trunc v), amt0, 0)) /\
        (is_finite v = false ->
           exists e, PositionUtil.cal_liquidity_sqrt sp sl su amt0 amt1
                     = Raise e /\ e <> AssertionError))) /\
  (forall sp sl su amt0 amt1, fleb sp sl = false -> fleb sp su = false ->
     (PositionUtil.cal_liquidity_sqrt sp sl su amt0 amt1
        = Raise AssertionError <-> amt1 = 0) /\
     (forall x, amt1 <> 0 -> float_of_int amt1 = Ok x ->
        (is_zero (fsub su sl) = true ->
           PositionUtil.cal_liquidity_sqrt sp sl su amt0 amt1
           = Raise ZeroDivisionError) /\
        (is_zero (fsub su sl) = false ->
           let v := fdiv x (fsub su sl) in
           (is_finite v = true ->
              PositionUtil.cal_liquidity_sqrt sp sl su amt0 amt1
              = Ok (I (trunc v), 0, amt1)) /\
           (is_finite v = false ->
              exists e, PositionUtil.cal_liquidity_sqrt sp sl su amt0 amt1
                        = Raise e /\ e <> AssertionError)))) /\
  (forall cprice upper lower amt0 amt1, fleb cprice lower = true ->
     (PositionUtil.cal_liquidity cprice upper lower amt0 amt1
        = Raise AssertionError <-> amt0 = 0) /\
     (forall su sl, amt0 <> 0 ->
        math_sqrt upper = Ok su -> math_sqrt lower = Ok sl ->
        (is_zero (fsub su sl) = true ->
           PositionUtil.cal_liquidity cprice upper lower amt0 amt1
           = Raise ZeroDivisionError) /\
        (forall x, is_zero (fsub su sl) = false ->
           float_of_int amt0 = Ok x ->
           let v := fmul x (fdiv (fmul su sl) (fsub su sl)) in
           (is_finite v = true ->
              PositionUtil.cal_liquidity cprice upper lower amt0 amt1
              = Ok (I (trunc v), amt0, 0)) /\
           (is_finite v = false ->
              exists e, PositionUtil.cal_liquidity cprice upper lower
                          amt0 amt1 = Raise e /\ e <> AssertionError)))) /\
  (forall cprice upper lower amt0 amt1,
     fleb cprice lower = false -> fleb cprice upper = false ->
     (PositionUtil.cal_liquidity cprice upper lower amt0 amt1
        = Raise AssertionError <-> amt1 = 0) /\
     (forall su sl x, amt1 <> 0 ->
        math_sqrt upper = Ok su -> math_sqrt lower = Ok sl ->
        float_of_int amt1 = Ok x ->
        (is_zero (fsub su sl) = true ->
           PositionUtil.cal_liquidity cprice upper lower amt0 amt1
           = Raise ZeroDivisionError) /\
        (is_zero (fsub su sl) = false ->
           let v := fdiv x (fsub su sl) in
           (is_finite v = true ->
              PositionUtil.cal_liquidity cprice upper lower amt0 amt1
              = Ok (I (trunc v), 0, amt1)) /\
           (is_finite v = false ->
              exists e, PositionUtil.cal_liquidity cprice upper lower
                          amt0 amt1 = Raise e /\ e <> AssertionError)))) /\
  (forall v, is_negative v = false -> trunc v = floor v) /\
  (forall v, is_negative v = true -> trunc v = - floor (SFopp v)) /\
  (forall (S : Type) (s : S) a b c amt0 amt1,
     (lift (PositionUtil.cal_liquidity_sqrt a b c amt0 amt1) s).2 = s /\
     (lift (PositionUtil.cal_liquidity a b c amt0 amt1) s).2 = s).
Proof.
  repeat apply conj.
  - intros sp sl su amt0 amt1 Hr.
    split; [by apply SizingProps.below_assert|].
    split; [intros Hne Hz; by apply SizingProps.below_zero_div|].
    intros x Hne Hz Hx v. split; intros Hf.
    + by apply SizingProps.below_returns.
    + by eapply SizingProps.below_not_finite.
  - intros sp sl su amt0 amt1 Ha Hb.
    split; [by apply SizingProps.above_assert|].
    intros x Hne Hx.
    split; [intros Hz; by eapply SizingProps.above_zero_div|].
    intros Hz v. split; intros Hf.
    + by apply SizingProps.above_returns.
    + by eapply SizingProps.above_not_finite.
  - intros cprice upper lower amt0 amt1 Hr.
    split; [by apply SizingProps.below_assert_price|].
    intros su sl Hne Hu Hl.
    split; [intros Hz; by eapply SizingProps.below_zero_div_price|].
    intros x Hz Hx v. split; intros Hf.
    + by eapply SizingProps.below_returns_price.
    + by eapply SizingProps.below_not_finite_price.
  - intros cprice upper lower amt0 amt1 Ha Hb.
    split; [by apply SizingProps.above_assert_price|].
    intros su sl x Hne Hu Hl Hx.
    split; [intros Hz; by eapply SizingProps.above_zero_div_price|].
    intros Hz v. split; intros Hf.
    + by eapply SizingProps.above_returns_price.
    + by eapply SizingProps.above_not_finite_price.
  - apply SizingProps.trunc_floor.
  - apply trunc_negative.
  - done.
Qed.

Lemma sizing_outside_range_witness :
  PositionUtil.cal_liquidity_sqrt f1 f1 f2 5 0 = Ok (I 10, 5, 0) /\
  PositionUtil.cal_liquidity_sqrt f4 f1 f2 0 5 = Ok (I 5, 0, 5) /\
  PositionUtil.cal_liquidity_sqrt f1 f1 f1 1000 1000
    = Raise ZeroDivisionError.
Proof.
  pose proof (proj1 sizing_outside_range f1 f1 f2 5 0 eq_refl)
    as (_ & _ & Hb).
  pose proof (proj1 (proj2 sizing_outside_range) f4 f1 f2 0 5
                eq_refl eq_refl) as (_ & Ha).
  pose proof (proj1 sizing_outside_range f1 f1 f1 1000 1000 eq_refl)
    as (_ & Hz & _).
  split; [|split].
  - apply (Hb (S754_finite false 5629499534213120 (-50)));
      [lia | reflexivity | reflexivity | reflexivity].
  - apply (proj2 (Ha (S754_finite false 5629499534213120 (-50))
                    ltac:(lia) eq_refl) eq_refl); reflexivity.
  - apply Hz; [lia | reflexivity].
Defined.

(** ** C7: the arguments of swap *)

(** C7, as the claim states it, fails: with both [amount=100] and
    [pct=0.5] given, [swap] does not fail, it trades the 100. *)
Lemma swap_both_given_counterexample :
  (Sim.swap 1 100 (F f_half) (sim_at_one 1000 1000)).1 = Ok 99 /\
  amount0 (Sim.swap 1 100 (F f_half) (sim_at_one 1000 1000)).2 = 1099 /\
  amount1 (Sim.swap 1 100 (F f_half) (sim_at_one 1000 1000)).2 = 900.
Proof.
  split; [vm_compute; reflexivity|].
  split; vm_compute; reflexivity.
Qed.

(** C7, amended: [swap] raises its [ValueError] exactly when [amount] and
    [pct] are both zero, and then changes nothing. A non-zero [amount] is
    traded whatever [pct] is; with [amount] zero the amount is
    [int(balance * pct)], the product being an int for an int [pct] and
    a float for a float one. The total is [int(amount * (fee / 1e6 +
    1))], computed on floats and truncated. With the amount received
    computed, [swap] fails on its assertion, changing nothing, unless
    the balance of the token spent is greater than the total, and
    otherwise debits that total and credits the amount received. *)
Theorem swap_argument_check in_token amount pct st :
  let bal := if in_token =? 0 then amount0 st else amount1 st in
  ((Sim.swap in_token amount pct st).1 = Raise (ValueError "amount or pct")
     <-> amount = 0 /\ Num.truthy pct = false) /\
  (amount = 0 -> Num.truthy pct = false ->
     (Sim.swap in_token amount pct st).2 = st) /\
  (amount <> 0 ->
     Sim.swap in_token amount pct st = Sim.swap in_token amount (I 0) st) /\
  (forall a fv x out,
     (amount <> 0 /\ a = amount \/
      amount = 0 /\ (exists k, pct = I k /\ k <> 0 /\ a = bal * k) \/
      amount = 0 /\
        (exists q b, pct = F q /\ is_zero q = false /\
                     float_of_int bal = Ok b /\
                     is_finite (fmul b q) = true /\
                     a = trunc (fmul b q))) ->
     float_of_int (fee st) = Ok fv -> float_of_int a = Ok x ->
     let total := fmul x (fadd (fdiv fv f1e6) f1) in
     is_finite total = true ->
     (if in_token =? 0 then Sim.out_amount1 st a else Sim.out_amount0 st a)
       = Ok out ->
     Sim.swap in_token amount pct st
     = if trunc total <? bal
       then (Ok out,
             if in_token =? 0
             then Sim.set_wallet (amount0 st - trunc total)
                    (amount1 st + out) st
             else Sim.set_wallet (amount0 st + out)
                    (amount1 st - trunc total) st)
       else (Raise AssertionError, st)).
Proof.
  intros bal.
  split; [apply SwapProps.swap_invalid|].
  split; [intros -> Hp; by apply SwapProps.swap_invalid_state|].
  split; [apply SwapProps.swap_pct_ignored|].
  intros a fv x out Ha Hfv Hx total Hfin Hout.
  assert (Hamt : Sim.swap_amount bal amount pct = Ok a).
  { destruct Ha as [[Hne ->] | [[-> (k & -> & Hk & ->)] |
                                [-> (q & b & -> & Hq & Hb & Hf & ->)]]].
    - by apply SwapProps.swap_amount_given.
    - by apply SwapProps.swap_amount_pct_int.
    - by apply SwapProps.swap_amount_pct_float. }
  pose proof (SwapProps.total_amount_of_eq a (fee st) fv x Hfv Hx Hfin)
    as Ht.
  subst bal. destruct (Z.eqb_spec in_token 0) as [->|Hi].
  - exact (SwapProps.swap_token0 amount pct st a _ out Hamt Ht Hout).
  - exact (SwapProps.swap_token1 in_token amount pct st a _ out Hi Hamt Ht
             Hout).
Qed.

Lemma swap_argument_check_witness :
  let st := sim_at_one 2000 2000 in
  Sim.swap 1 1000 (F f_half) st
  = (if 1002 <? amount1 st
     then (Ok 999, Sim.set_wallet (amount0 st + 999) (amount1 st - 1002) st)
     else (Raise AssertionError, st)) /\
  Sim.swap 0 0 (F f_half) st
  = (if 1002 <? amount0 st
     then (Ok 999, Sim.set_wallet (amount0 st - 1002) (amount1 st + 999) st)
     else (Raise AssertionError, st)).
Proof.
  intros st. split.
  - apply (proj2 (proj2 (proj2 (swap_argument_check 1 1000 (F f_half) st)))
             1000 (S754_finite false 6597069766656000 (-41))
             (S754_finite false 8796093022208000 (-43)) 999).
    + left. split; [lia | reflexivity].
    + reflexivity.
    + reflexivity.
    + reflexivity.
    + vm_compute. reflexivity.
  - apply (proj2 (proj2 (proj2 (swap_argument_check 0 0 (F f_half) st)))
             1000 (S754_finite false 6597069766656000 (-41))
             (S754_finite false 8796093022208000 (-43)) 999).
    + right. right. split; [reflexivity|].
      exists f_half, (S754_finite false 8796093022208000 (-42)).
      repeat split; vm_compute; reflexivity.
    + reflexivity.
    + reflexivity.
    + reflexivity.
    + vm_compute. reflexivity.
Defined.

(** ** C8: the two logs of a position *)

(** C8, as the claim states it, fails: [collect] appends one entry to the
    balance log of the position and none to its history. *)
Lemma collect_history_counterexample :
  (Sim.collect 1 minted).1 = Ok (0, 0) /\
  log_growth minted (Sim.collect 1 minted).2 1 0 1 /\
  ~ log_growth minted (Sim.collect 1 minted).2 1 1 1.
Proof.
  split; [vm_compute; reflexivity|].
  assert (Hc : Sim.collect 1 minted = (Ok (0, 0), (Sim.collect 1 minted).2)).
  { vm_compute. reflexivity. }
  pose proof (SimLogProps.collect_log_growth _ _ _ _ Hc) as Hg.
  split; [exact Hg|].
  destruct Hg as (p & p' & Hp & Hp' & (n0 & Hn0 & Hl0) & _).
  intros (q & q' & Hq & Hq' & (n1 & Hn1 & Hl1) & _).
  rewrite Hp in Hq. rewrite Hp' in Hq'.
  injection Hq as <-. injection Hq' as <-.
  rewrite Hn0 in Hn1. apply (f_equal length) in Hn1.
  rewrite !length_app in Hn1. lia.
Qed.

(** C8, amended: through the simulation, [mint] leaves the new position
    with one history entry and one balance entry; [increase_liquidity]
    appends one entry to each log; [collect] and the fee accrual of
    [on_swap] (for each valid position, the valid ids being distinct)
    append one balance entry and no history entry;
    [decrease_liquidity] appends one history entry. *)
Theorem position_logs_per_operation :
  (forall pow lower upper amt0 amt1 st tid a0 a1 st',
     Sim.mint pow lower upper amt0 amt1 st = (Ok (tid, a0, a1), st') ->
     log_sizes st' tid 1 1) /\
  (forall tid amt0 amt1 st r st',
     Sim.increase_liquidity tid amt0 amt1 st = (Ok r, st') ->
     log_growth st st' tid 1 1) /\
  (forall tid st r st',
     Sim.collect tid st = (Ok r, st') -> log_growth st st' tid 0 1) /\
  (forall ev st u st', NoDup (valid_positions st) ->
     Sim.on_swap ev st = (Ok u, st') ->
     forall tid, tid ∈ valid_positions st -> log_growth st st' tid 0 1) /\
  (forall tid liq pct st r st',
     Sim.decrease_liquidity tid liq pct st = (Ok r, st') ->
     exists db, log_growth st st' tid 1 db).
Proof.
  repeat apply conj.
  - intros pow lower upper amt0 amt1 st tid a0 a1 st' H.
    by apply SimLogProps.mint_log_sizes in H as [_ H].
  - apply SimLogProps.increase_log_growth.
  - apply SimLogProps.collect_log_growth.
  - apply SimLogProps.on_swap_log_growth.
  - intros tid liq pct st r st' H. exists 0%nat.
    by apply SimLogProps.decrease_log_growth in H.
Qed.

Lemma position_logs_per_operation_witness :
  log_growth minted (Sim.increase_liquidity 1 500 500 minted).2 1 1 1 /\
  log_growth minted (Sim.on_swap ev_price_one minted).2 1 0 1.
Proof.
  split.
  - apply (proj1 (proj2 position_logs_per_operation) 1 500 500 minted
             (1, 500, 500)).
    vm_compute. reflexivity.
  - apply (proj1 (proj2 (proj2 (proj2 position_logs_per_operation)))
             ev_price_one minted tt).
    + vm_compute. apply NoDup_singleton.
    + vm_compute. reflexivity.
    + vm_compute. apply list_elem_of_here.
Defined.

(** ** C10: liquidity 0 and None *)

(** C10. [PositionInstance.decrease_liquidity] treats a zero [liquidity]
    argument as an absent one, whatever [pct] is; with the default
    [pct=1] it then removes the whole liquidity of the position (a
    finite int or float) and returns the amounts the position owed,
    leaving the zero of that type; and with [liquidity]
    absent and [pct] zero it fails on its first assertion, the position
    unchanged. *)
Theorem decrease_liquidity_zero_as_none :
  (forall sp liq pct p, Num.truthy liq = false ->
     Position.decrease_liquidity sp (Some liq) pct p
     = Position.decrease_liquidity sp None pct p) /\
  (forall sp p a0 a1,
     Num.finite (liquidity p) = true -> Position.consistent p ->
     Position.amount0_psqrt p sp = Ok a0 ->
     Position.amount1_psqrt p sp = Ok a1 ->
     Position.decrease_liquidity sp (Some (I 0)) (I 1) p
     = (Ok (Num.zero_like (liquidity p), a0, a1),
        Position.with_liquidity (Num.zero_like (liquidity p)) 0 0 p)) /\
  (forall sp pct p, Num.truthy pct = false ->
     Position.decrease_liquidity sp None pct p = (Raise AssertionError, p)).
Proof.
  repeat apply conj.
  - intros sp liq pct p H. unfold Position.decrease_liquidity.
    unfold Position.opt_truthy. by rewrite H.
  - intros sp p a0 a1 Hl Hc H0 H1.
    by apply PositionProps.decrease_all.
  - intros sp pct p H. unfold Position.decrease_liquidity.
    unfold Position.opt_truthy. by rewrite H.
Qed.

Lemma decrease_liquidity_zero_as_none_witness :
  Position.decrease_liquidity f1 (Some (I 0)) (I 1) position_1
  = (Ok (I 0, 999, 999), Position.with_liquidity (I 0) 0 0 position_1).
Proof.
  apply (proj1 (proj2 decrease_liquidity_zero_as_none) f1 position_1).
  - reflexivity.
  - split; vm_compute; reflexivity.
  - vm_compute. reflexivity.
  - vm_compute. reflexivity.
Defined.

End Claims.

(** * Further properties *)

(** ** The concrete states of [Earned] *)

Module EarnedProps.
Import Earned.

Lemma opened_is_mint :
  exists a0 a1,
    Sim.mint RefPow.pow (-60) 60 (10 ^ 9) (10 ^ 9)
      (Ex.sim_at_one (10 ^ 12) (10 ^ 12))
    = (Ok (1, a0, a1), opened).
Proof. eexists _, _. vm_compute. reflexivity. Qed.

Lemma earned_is_on_swap : Sim.on_swap ev_up opened = (Ok tt, earned).
Proof. vm_compute. reflexivity. Qed.

End EarnedProps.

(** ** [run]: what is dispatched *)

Module RunEffect.
Import Run RunProps.

Section Dispatch.

Context {Data : Type}.
Variable ts : Data -> Z.

(** The events of the two streams, as calls. *)
Lemma loop_calls_leave_one swap swap_events data time_list :
  exists c,
    c :: loop_calls ts swap swap_events data time_list
    ≡ₚ map OnSwap (swap :: swap_events) ++ map OnTime (data :: time_list).
Proof.
  revert swap swap_events data time_list.
  apply (loop_calls_ind (fun swap swap_events data time_list =>
    exists c,
      c :: loop_calls ts swap swap_events data time_list
      ≡ₚ map OnSwap (swap :: swap_events) ++ map OnTime (data :: time_list))).
  intros swap swap_events data time_list IHs IHd.
  rewrite loop_calls_eq.
  destruct (ev_timestamp swap <? ts data).
  - destruct swap_events as [|swap' rest].
    + exists (OnTime data). simpl. apply perm_swap.
    + destruct (IHs swap' rest eq_refl) as [c Hc]. exists c.
      rewrite perm_swap. simpl. by rewrite Hc.
  - destruct time_list as [|data' rest].
    + exists (OnSwap swap). simpl. constructor.
      apply Permutation_cons_append.
    + destruct (IHd data' rest eq_refl) as [c Hc]. exists c.
      rewrite perm_swap, Hc.
      apply (Permutation_middle (map OnSwap (swap :: swap_events))).
Qed.

End Dispatch.

(** X1. Entered with two non-empty streams, [run] calls a handler for
    every event of the two streams but one: the calls it makes, with one
    more event, are the events of the two streams; so it makes one call
    less than there are events. *)
Theorem run_leaves_one_event {Data} (ts : Data -> Z) swap swap_events
    data time_list :
  (exists c,
     c :: calls ts (swap :: swap_events) (data :: time_list)
     ≡ₚ map OnSwap (swap :: swap_events) ++ map OnTime (data :: time_list)) /\
  S (length (calls ts (swap :: swap_events) (data :: time_list)))
  = (length (swap :: swap_events) + length (data :: time_list))%nat.
Proof.
  rewrite calls_eq.
  destruct (loop_calls_leave_one ts swap swap_events data time_list)
    as [c Hc].
  split; [by exists c|].
  apply Permutation_length in Hc.
  rewrite length_app, !length_map in Hc. exact Hc.
Qed.

(** X2. With any handlers, [run] raises [StopIteration] before any call
    when one of the streams is empty; otherwise its effect is that of the
    handler calls of [calls], made in that order, and the first call that
    raises ends it. *)
Theorem run_dispatches_calls {St Data} (ts : Data -> Z)
    (on_swap : SwapEvent -> M St unit) (on_time : Data -> M St unit)
    swaps time_data s :
  run ts on_swap on_time swaps time_data s
  = match swaps, time_data with
    | _ :: _, _ :: _ =>
        for_each (calls ts swaps time_data) (dispatch on_swap on_time) s
    | _, _ => (Raise StopIteration, s)
    end.
Proof.
  destruct swaps as [|swap swap_events]; [done|].
  destruct time_data as [|data time_list]; [done|].
  rewrite calls_eq. apply run_loop_dispatch.
Qed.

End RunEffect.

(** ** The sizing functions: what they return *)

Module SizingShape.
Import PositionUtil SizingProps.

Lemma candidate0_cases sp su amt0 l0 :
  candidate0 sp su amt0 = Ok l0 ->
  (amt0 = 0 /\ l0 = F math_inf) \/ (amt0 <> 0 /\ exists n, l0 = I n).
Proof.
  unfold candidate0. destruct (Z.eqb_spec amt0 0) as [->|Hne]; simpl.
  - intros [= <-]. by left.
  - intros H. right. split; [done|].
    repeat (apply Step.result_bind_ok_inv in H as (? & _ & H)).
    injection H as <-. by eexists.
Qed.

Lemma candidate1_cases sp sl amt1 l1 :
  candidate1 sp sl amt1 = Ok l1 ->
  (amt1 = 0 /\ l1 = F math_inf) \/ (amt1 <> 0 /\ exists n, l1 = I n).
Proof.
  unfold candidate1. destruct (Z.eqb_spec amt1 0) as [->|Hne]; simpl.
  - intros [= <-]. by left.
  - intros H. right. split; [done|].
    repeat (apply Step.result_bind_ok_inv in H as (? & _ & H)).
    injection H as <-. by eexists.
Qed.

(** The liquidity [cal_liquidity_sqrt] returns is an int, and it returns
    one of the caller's amounts, a non-zero one, as it was given. *)
Lemma cal_liquidity_sqrt_int sp sl su amt0 amt1 l a0 a1 :
  cal_liquidity_sqrt sp sl su amt0 amt1 = Ok (l, a0, a1) ->
  (exists n, l = I n) /\
  ((a0 = amt0 /\ amt0 <> 0) \/ (a1 = amt1 /\ amt1 <> 0)).
Proof.
  unfold cal_liquidity_sqrt.
  destruct (fleb sp sl); [|destruct (fleb sp su)].
  - destruct (Z.eqb_spec amt0 0) as [->|Hne]; simpl; [discriminate|].
    intros H.
    repeat (apply Step.result_bind_ok_inv in H as (? & _ & H)).
    injection H as <- <- <-. split; [by eexists | by left].
  - destruct (py_assert _) as [[]|e] eqn:Ha; simpl; [|discriminate].
    apply Step.py_assert_ok_inv in Ha.
    destruct (candidate0 sp su amt0) as [l0|e] eqn:E0; simpl; [|discriminate].
    destruct (candidate1 sp sl amt1) as [l1|e] eqn:E1; simpl; [|discriminate].
    apply candidate0_cases in E0. apply candidate1_cases in E1.
    destruct (Num.ltb l0 l1) eqn:Hlt.
    + destruct (recomputed1 l0 sp sl) as [x|e]; simpl; [|discriminate].
      intros [= <- <- <-].
      destruct E0 as [[-> ->]|[Hne [n ->]]].
      * exfalso. destruct E1 as [[_ ->]|[_ [n ->]]]; discriminate.
      * split; [by eexists | by left].
    + destruct (recomputed0 l1 sp su) as [x|e]; simpl; [|discriminate].
      intros [= <- <- <-].
      destruct E1 as [[-> ->]|[Hne [n ->]]].
      * exfalso. destruct E0 as [[-> ->]|[_ [n ->]]]; discriminate.
      * split; [by eexists | by right].
  - destruct (Z.eqb_spec amt1 0) as [->|Hne]; simpl; [discriminate|].
    intros H.
    repeat (apply Step.result_bind_ok_inv in H as (? & _ & H)).
    injection H as <- <- <-. split; [by eexists | by right].
Qed.

(** X3. When [cal_liquidity_sqrt] returns, the liquidity is an int
    (never the [math.inf] its candidates start from), and one of the two
    returned amounts is the caller's, which is not zero; with both
    amounts zero it raises [AssertionError] at every price. *)
Theorem cal_liquidity_sqrt_returns sp sl su amt0 amt1 l a0 a1 :
  cal_liquidity_sqrt sp sl su amt0 amt1 = Ok (l, a0, a1) ->
  (exists n, l = I n) /\
  ((a0 = amt0 /\ amt0 <> 0) \/ (a1 = amt1 /\ amt1 <> 0)) /\
  forall sp' sl' su', cal_liquidity_sqrt sp' sl' su' 0 0 = Raise AssertionError.
Proof.
  intros H. apply cal_liquidity_sqrt_int in H as [Hl Ha].
  split; [done|]. split; [done|].
  intros sp' sl' su'. unfold cal_liquidity_sqrt.
  destruct (fleb sp' sl'); [done|]. by destruct (fleb sp' su').
Qed.

Lemma cal_liquidity_sqrt_returns_witness :
  (exists n, I 2000 = I n) /\
  ((1000 = 1000 /\ 1000 <> 0) \/ (1000 = 1000 /\ 1000 <> 0)) /\
  forall sp' sl' su', cal_liquidity_sqrt sp' sl' su' 0 0 = Raise AssertionError.
Proof.
  apply (cal_liquidity_sqrt_returns f1 Ex.f_half f2 1000 1000).
  vm_compute. reflexivity.
Defined.

End SizingShape.

(** ** The two implementations of [cal_liquidity] *)

Module ManagerProps.
Import SizingProps FloatKind.

(** [not (c <= l)] and [c <= u] give [l < c], unless [l] is NaN. *)
Lemma not_fleb_fltb c l u :
  fleb c l = false -> fleb c u = true -> is_nan l = false ->
  fltb l c = true.
Proof.
  unfold fltb, fleb, SFltb, SFleb, is_nan.
  destruct c as [sc|sc| |sc mc ec], l as [sl|sl| |sl ml el],
    u as [su|su| |su mu eu]; simpl;
    try destruct sc; try destruct sl; try destruct su; simpl;
    try discriminate; try reflexivity;
    rewrite ?compare_cont_eq; order_tac.
Qed.

Lemma ltb_int_inf n : Num.ltb (I n) (F math_inf) = true.
Proof. reflexivity. Qed.

Lemma ltb_inf_int n : Num.ltb (F math_inf) (I n) = false.
Proof. reflexivity. Qed.

Lemma bind_ext {A B} (r : result A) (f g : A -> result B) :
  (forall a, f a = g a) -> r ≫= f = r ≫= g.
Proof. intros H. destruct r; simpl; [apply H | done]. Qed.

Lemma agree_amt0 cprice upper lower amt0 :
  amt0 <> 0 -> fleb cprice lower = false -> fleb cprice upper = true ->
  is_nan lower = false ->
  Manager.cal_liquidity cprice upper lower amt0 0
  = PositionUtil.cal_liquidity cprice upper lower amt0 0.
Proof.
  intros Hne Hl Hu Hn. apply Z.eqb_neq in Hne.
  unfold Manager.cal_liquidity, PositionUtil.cal_liquidity.
  rewrite Hl, Hu, (not_fleb_fltb _ _ _ Hl Hu Hn), Hne. simpl.
  destruct (math_sqrt upper) as [su|e]; simpl; [|done].
  destruct (math_sqrt cprice) as [sp|e]; simpl; [|done].
  destruct (Num.mul_float (I amt0) (fmul su sp)) as [n|e]; simpl; [|done].
  destruct (truediv n (fsub su sp)) as [q|e]; simpl; [|done].
  destruct (py_int q) as [l|e]; simpl; [|done].
  reflexivity.
Qed.

Lemma agree_amt1 cprice upper lower amt1 :
  amt1 <> 0 -> fleb cprice lower = false -> fleb cprice upper = true ->
  is_nan lower = false ->
  Manager.cal_liquidity cprice upper lower 0 amt1
  = PositionUtil.cal_liquidity cprice upper lower 0 amt1.
Proof.
  intros Hne Hl Hu Hn. apply Z.eqb_neq in Hne.
  unfold Manager.cal_liquidity, PositionUtil.cal_liquidity.
  rewrite Hl, Hu, (not_fleb_fltb _ _ _ Hl Hu Hn), Hne. simpl.
  destruct (math_sqrt cprice) as [sp|e]; simpl; [|done].
  destruct (math_sqrt lower) as [sl|e]; simpl; [|done].
  destruct (float_of_int amt1) as [a|e]; simpl; [|done].
  destruct (truediv a (fsub sp sl)) as [q|e]; simpl; [|done].
  destruct (py_int q) as [l|e]; simpl; [|done].
  reflexivity.
Qed.

(** X4. With exactly one of the two amounts zero and [lower] not NaN,
    the sizing function of the position manager and
    [PositionUtil.cal_liquidity] return the same result or raise the same
    exception. *)
Theorem manager_agrees_one_sided cprice upper lower amt0 amt1 :
  (amt0 = 0 /\ amt1 <> 0) \/ (amt0 <> 0 /\ amt1 = 0) ->
  is_nan lower = false ->
  Manager.cal_liquidity cprice upper lower amt0 amt1
  = PositionUtil.cal_liquidity cprice upper lower amt0 amt1.
Proof.
  intros Hz Hn.
  destruct (fleb cprice lower) eqn:Hl.
  { unfold Manager.cal_liquidity, PositionUtil.cal_liquidity.
    by rewrite Hl. }
  destruct (fleb cprice upper) eqn:Hu.
  2:{ unfold Manager.cal_liquidity, PositionUtil.cal_liquidity.
      by rewrite Hl, Hu, andb_false_r. }
  destruct Hz as [[-> H1]|[H0 ->]].
  - by apply agree_amt1.
  - by apply agree_amt0.
Qed.

Lemma manager_agrees_one_sided_witness :
  Manager.cal_liquidity f1 Ex.f4 Ex.f_half 1000 0
  = PositionUtil.cal_liquidity f1 Ex.f4 Ex.f_half 1000 0.
Proof.
  apply (manager_agrees_one_sided f1 Ex.f4 Ex.f_half 1000 0).
  - right. split; [lia | reflexivity].
  - reflexivity.
Defined.

(** With both amounts given the two differ: the manager sizes by
    [amt0] alone, [PositionUtil] by the smaller candidate. *)
Example manager_differs_two_sided :
  Manager.cal_liquidity f1 Ex.f4 Ex.f_half 1000 1 = Ok (I 2000, 1000, 585) /\
  PositionUtil.cal_liquidity f1 Ex.f4 Ex.f_half 1000 1 = Ok (I 3, 1, 1).
Proof. split; vm_compute; reflexivity. Qed.

End ManagerProps.

(** ** Positions: fees, and adding then removing liquidity *)

Module PositionMore.
Import Position PositionProps.

Lemma set_fees_id p : set_fees (fee0 p) (fee1 p) p = p.
Proof. by destruct p. Qed.

Lemma swap_equal_amounts a b p x y :
  amount0_psqrt p b = Ok x -> amount0_psqrt p a = Ok x ->
  amount1_psqrt p b = Ok y -> amount1_psqrt p a = Ok y ->
  swap a b p = (Ok (0, 0), p).
Proof.
  intros H0b H0a H1b H1a.
  unfold swap, mbind, M_bind, reads, modify, mret, M_ret.
  destruct (fltb a b).
  - rewrite H1b, H1a, Z.sub_diag.
    change (fee_of 0 (fee_rate p)) with (Ok 0 : result Z). cbv iota beta.
    by rewrite Z.add_0_r, set_fees_id.
  - rewrite H0b, H0a, Z.sub_diag.
    change (fee_of 0 (fee_rate p)) with (Ok 0 : result Z). cbv iota beta.
    by rewrite Z.add_0_r, set_fees_id.
Qed.

(** X5. A position accrues no fee, and is left as it was, when the
    price moves between two values on the same side outside its range:
    both at or below the lower bound, or both at or above the upper
    bound. *)
Theorem swap_outside_range_no_fee a b p :
  (fleb a (low_price_sqrt p) = true /\ fleb b (low_price_sqrt p) = true) \/
  (fleb a (low_price_sqrt p) = false /\ fltb a (high_price_sqrt p) = false /\
   fleb b (low_price_sqrt p) = false /\ fltb b (high_price_sqrt p) = false) ->
  swap a b p = (Ok (0, 0), p).
Proof.
  intros [[Ha Hb]|(Ha & Ha' & Hb & Hb')].
  - apply (swap_equal_amounts a b p (_amount0_edge p) 0);
      unfold amount0_psqrt, amount1_psqrt; by rewrite ?Ha, ?Hb.
  - apply (swap_equal_amounts a b p 0 (_amount1_edge p));
      unfold amount0_psqrt, amount1_psqrt; by rewrite ?Ha, ?Ha', ?Hb, ?Hb'.
Qed.

Lemma swap_outside_range_no_fee_witness :
  swap f2 Ex.f4 Ex.position_1 = (Ok (0, 0), Ex.position_1).
Proof.
  apply (swap_outside_range_no_fee f2 Ex.f4 Ex.position_1).
  right. repeat split; vm_compute; reflexivity.
Defined.

(** X6. Adding liquidity to a consistent position that holds an int
    liquidity and then removing the liquidity that was added brings the
    position back to what it was, and gives back exactly the amounts the
    addition took. *)
Theorem increase_then_decrease sp amt0 amt1 p n l d0 d1 p1 pct :
  liquidity p = I n -> consistent p ->
  increase_liquidity sp amt0 amt1 p = (Ok (l, d0, d1), p1) ->
  Num.truthy l = true ->
  decrease_liquidity sp (Some l) pct p1 = (Ok (I n, d0, d1), p).
Proof.
  intros Hn Hc Hinc Hl.
  unfold increase_liquidity, mbind, M_bind, reads, mret, M_ret in Hinc.
  destruct (amount0_psqrt p sp) as [x0|e] eqn:E0; [|discriminate].
  destruct (amount1_psqrt p sp) as [x1|e] eqn:E1; [|discriminate].
  destruct (PositionUtil.cal_liquidity_sqrt _ _ _ _ _) as [[[l' y0] y1]|e]
    eqn:Es; [|discriminate].
  apply SizingShape.cal_liquidity_sqrt_int in Es as [[k ->] _].
  rewrite Hn in Hinc. cbn in Hinc.
  destruct (update_liquidity (I (n + k)) p) as [[[]|e] p2] eqn:Hu;
    [|discriminate].
  apply update_liquidity_ok in Hu as (e0 & e1 & _ & _ & ->).
  destruct (amount0_psqrt (with_liquidity _ _ _ _) sp) as [b0|e] eqn:B0;
    [|discriminate].
  destruct (amount1_psqrt (with_liquidity _ _ _ _) sp) as [b1|e] eqn:B1;
    [|discriminate].
  injection Hinc as <- <- <- <-.
  unfold decrease_liquidity, mbind, M_bind, lift, reads, mret, M_ret.
  cbn [opt_truthy]. rewrite Hl. cbn [orb py_assert].
  rewrite B0, B1.
  cbn [liquidity with_liquidity set_amount1_edge set_amount0_edge
       set_liquidity Num.sub Num.arith].
  replace (n + k - k) with n by lia. rewrite <- Hn.
  rewrite (update_liquidity_restore _ _ _ _ Hc).
  by rewrite E0, E1.
Qed.

Lemma increase_then_decrease_witness :
  decrease_liquidity f1 (Some (I 333850)) (I 1)
    (increase_liquidity f1 1000 1000 Ex.position_1).2
  = (Ok (I 333850, 1000, 1000), Ex.position_1).
Proof.
  apply (increase_then_decrease f1 1000 1000 Ex.position_1 333850
           (I 333850) 1000 1000 _ (I 1)).
  - reflexivity.
  - split; vm_compute; reflexivity.
  - vm_compute. reflexivity.
  - reflexivity.
Defined.

(** X24. [decrease_liquidity] with an explicit non-zero [liquidity] never
    looks at [pct] and checks the amount against nothing: on a position
    holding the int liquidity [n], when the call returns, the liquidity
    left (and returned) is [n - a], also when [a] exceeds [n], which
    leaves a negative liquidity, and when [a] is negative, which adds
    liquidity. *)
Theorem decrease_explicit_unchecked sp a pct p :
  a <> 0 ->
  decrease_liquidity sp (Some (I a)) pct p
    = decrease_liquidity sp (Some (I a)) (I 1) p /\
  forall n l d0 d1 p',
    liquidity p = I n ->
    decrease_liquidity sp (Some (I a)) pct p = (Ok (l, d0, d1), p') ->
    l = I (n - a) /\ liquidity p' = I (n - a).
Proof.
  intros Ha.
  assert (Ht : Num.truthy (I a) = true) by (simpl; by apply negb_true_iff, Z.eqb_neq).
  split.
  - unfold decrease_liquidity, opt_truthy. by rewrite Ht.
  - intros n l d0 d1 p' Hn.
    unfold decrease_liquidity, opt_truthy. rewrite Ht. simpl orb.
    unfold mbind, M_bind, lift, reads, mret, M_ret. simpl py_assert.
    cbv iota beta.
    destruct (amount0_psqrt p sp) as [x0|e]; [|discriminate].
    destruct (amount1_psqrt p sp) as [x1|e]; [|discriminate].
    rewrite Hn. cbn [Num.sub Num.arith].
    destruct (update_liquidity (I (n - a)) p) as [[[]|e] p2] eqn:Hu;
      [|discriminate].
    apply update_liquidity_ok in Hu as (e0 & e1 & _ & _ & ->).
    destruct (amount0_psqrt (with_liquidity _ _ _ _) sp) as [y0|e];
      [|discriminate].
    destruct (amount1_psqrt (with_liquidity _ _ _ _) sp) as [y1|e];
      [|discriminate].
    by intros [= <- <- <- <-].
Qed.

Lemma decrease_explicit_unchecked_witness :
  exists d0 d1 p',
    decrease_liquidity f1 (Some (I 500000)) (I 7) Ex.position_1
      = (Ok (I (-166150), d0, d1), p') /\
    liquidity p' = I (-166150).
Proof.
  destruct (decrease_liquidity f1 (Some (I 500000)) (I 7) Ex.position_1)
    as [[[[l d0] d1]|e] p'] eqn:E; [|vm_compute in E; discriminate].
  destruct (decrease_explicit_unchecked f1 500000 (I 7) Ex.position_1
              ltac:(lia)) as [_ H].
  destruct (H 333850 l d0 d1 p' eq_refl E) as [-> Hl].
  by exists d0, d1, p'.
Defined.

End PositionMore.

(** ** [mint] *)

Module MintProps.
Import Position PositionProps Sim SimProps SimLogProps.

Ltac norm_goal :=
  cbn [set_wallet set_positions set_valid_positions set_next_token_id
       set_wallet_logs set_sqrt_price_x96 set_tick set_block_number set_L
       set_sqrt_price set_timestamp
       decimal0 decimal1 amount0 amount1 positions valid_positions
       _next_token_id fee tick sqrt_price_x96 sqrt_price block_number
       timestamp L _price_reverse wallet_logs].

Section WithPow.

Variable float_pow : float -> float -> result float.

Lemma new_position_ok l lower upper d0 d1 rate tid rev p :
  new_position float_pow l lower upper d0 d1 rate tid rev = Ok p ->
  lower < upper /\ lower mod 60 = 0 /\ upper mod 60 = 0 /\
  liquidity p = l /\ tick_lower p = lower /\ tick_upper p = upper /\
  token_id p = tid /\ fee_rate p = rate /\ fee0 p = 0 /\ fee1 p = 0 /\
  history p = [] /\ balance p = [] /\ consistent p.
Proof.
  unfold new_position. intros H.
  apply Step.result_bind_ok_inv in H as (? & H1 & H).
  apply Step.result_bind_ok_inv in H as (? & H2 & H).
  apply Step.result_bind_ok_inv in H as (? & H3 & H).
  apply Step.py_assert_ok_inv in H1, H2, H3.
  apply Z.ltb_lt in H1. apply Z.eqb_eq in H2, H3.
  repeat (apply Step.result_bind_ok_inv in H as (? & _ & H)).
  match type of H with
  | context [update_liquidity ?l ?q] =>
      destruct (update_liquidity l q) as [[[]|e] p1] eqn:Hu;
      [|discriminate]
  end.
  repeat (apply Step.result_bind_ok_inv in H as (? & _ & H)).
  injection H as <-.
  apply update_liquidity_ok in Hu as (e0 & e1 & He0 & He1 & ->).
  repeat split; try done.
Qed.

Lemma mint_raises lower upper amt0 amt1 st e st' :
  mint float_pow lower upper amt0 amt1 st = (Raise e, st') ->
  st' = st \/ st' = set_next_token_id (_next_token_id st + 1) st.
Proof.
  unfold mint, next_token_id, record_wallet.
  unfold mbind at 1, M_bind at 1, get at 1.
  unfold mbind at 1, M_bind at 1, lift at 1.
  destruct (py_assert _) as [[]|?]; [|intros [= _ <-]; by left].
  unfold mbind at 1, M_bind at 1, lift at 1.
  destruct (py_assert _) as [[]|?]; [|intros [= _ <-]; by left].
  unfold mbind at 1, M_bind at 1, lift at 1.
  match goal with
  | |- context [match ?r with Ok _ => _ | Raise _ => _ end] =>
      destruct r as [[[l x0] x1]|?]; [|intros [= _ <-]; by left]
  end.
  unfold mbind, M_bind, modify, get, mret, M_ret, lift.
  norm_goal.
  destruct (new_position _ _ _ _ _ _ _ _ _) as [position|?] eqn:Hp;
    [|intros [= _ <-]; by right].
  destruct (amount0_psqrt position (sqrt_price st)) as [a0|?] eqn:H0;
    [|intros [= _ <-]; by right].
  destruct (amount1_psqrt position (sqrt_price st)) as [a1|?] eqn:H1;
    [|intros [= _ <-]; by right].
  unfold with_position. norm_goal. rewrite lookup_insert_eq.
  unfold log_history, modify. norm_goal. rewrite lookup_insert_eq.
  unfold log_balance, mbind, M_bind, reads, modify.
  change (amount0_psqrt (set_history _ position) (sqrt_price st))
    with (amount0_psqrt position (sqrt_price st)).
  change (amount1_psqrt (set_history _ position) (sqrt_price st))
    with (amount1_psqrt position (sqrt_price st)).
  rewrite H0, H1. discriminate.
Qed.


Lemma log_history_eq b t p u p' :
  log_history b t p = (Ok u, p') ->
  p' = set_history (history p ++
         [{| ll_block := b; ll_timestamp := t;
             ll_liquidity := liquidity p |}]) p.
Proof. by intros [= _ <-]. Qed.

Lemma log_balance_eq b t sp f0 f1 p u p' :
  log_balance b t sp f0 f1 p = (Ok u, p') ->
  exists a0 a1,
    amount0_psqrt p sp = Ok a0 /\ amount1_psqrt p sp = Ok a1 /\
    p' = set_balance (balance p ++
           [{| pb_block := b; pb_timestamp := t;
               pb_amount0 := a0; pb_amount1 := a1;
               pb_fee0 := f0; pb_fee1 := f1 |}]) p.
Proof.
  unfold log_balance, mbind, M_bind, reads, modify.
  destruct (amount0_psqrt p sp) as [a0|e]; [|discriminate].
  destruct (amount1_psqrt p sp) as [a1|e]; [|discriminate].
  intros [= _ <-]. by exists a0, a1.
Qed.

Lemma round_down_60 t :
  (t - t mod 60) mod 60 = 0 /\ t - 60 < t - t mod 60 <= t.
Proof.
  pose proof (Z.mod_pos_bound t 60 ltac:(lia)) as Hb.
  split; [|lia].
  rewrite Zminus_mod, Zmod_mod, Z.sub_diag. reflexivity.
Qed.

Lemma valid_set_elem tid v : tid ∈ valid_set tid v.
Proof.
  unfold valid_set, valid_mem. case_bool_decide; [done|].
  apply elem_of_app. right. by apply list_elem_of_singleton.
Qed.

(** What a returning [mint] has done. *)
Lemma mint_ok lower upper amt0 amt1 st tid a0 a1 st' :
  mint float_pow lower upper amt0 amt1 st = (Ok (tid, a0, a1), st') ->
  tid = _next_token_id st + 1 /\ _next_token_id st' = tid /\
  amount0 st' = amount0 st - a0 /\ amount1 st' = amount1 st - a1 /\
  valid_positions st' = valid_set tid (valid_positions st) /\
  exists p,
    positions st' = <[tid := p]> (positions st) /\ token_id p = tid /\
    tick_lower p = lower - lower mod 60 /\
    tick_upper p = upper - upper mod 60 /\
    tick_lower p < tick_upper p /\
    fee_rate p = fee st /\ fee0 p = 0 /\ fee1 p = 0 /\
    consistent p /\
    amount0_psqrt p (sqrt_price st) = Ok a0 /\
    amount1_psqrt p (sqrt_price st) = Ok a1 /\
    map pb_fee0 (balance p) = [0] /\ map pb_fee1 (balance p) = [0].
Proof.
  intros H. unfold mint, next_token_id, record_wallet in H. sinv H.
  simplify_eq.
  match goal with
  | Hn : new_position _ _ _ _ _ _ _ _ _ = Ok ?q |- _ =>
      apply new_position_ok in Hn
        as (Hlt & _ & _ & Hl & Htl & Htu & Ht & Hr & Hf0 & Hf1 & _ & Hb & Hc)
  end.
  match goal with
  | Hh : log_history _ _ _ = _ |- _ => apply log_history_eq in Hh as ->
  end.
  match goal with
  | Hb : log_balance _ _ _ _ _ _ = _ |- _ =>
      apply log_balance_eq in Hb as (b0 & b1 & _ & _ & ->)
  end.
  cbn. rewrite Ht.
  split; [done|]. split; [done|]. split; [done|]. split; [done|].
  split; [done|].
  eexists. split; [by rewrite !insert_insert_eq|].
  cbn. rewrite Hb. repeat split; try done; try lia; apply Hc.
Qed.

(** X7. A [mint] that returns hands out the next token id and registers
    under it, among the valid positions, a new position: its ticks are
    the requested ones rounded down to multiples of 60, the lower below
    the upper, it has no fees, and its edge amounts are those of its
    liquidity. The amounts returned are what the position holds at the
    current price, and they are what the wallet is debited; the other
    positions are untouched. *)
Theorem mint_registers lower upper amt0 amt1 st tid a0 a1 st' :
  mint float_pow lower upper amt0 amt1 st = (Ok (tid, a0, a1), st') ->
  tid = _next_token_id st + 1 /\ _next_token_id st' = tid /\
  amount0 st' = amount0 st - a0 /\ amount1 st' = amount1 st - a1 /\
  tid ∈ valid_positions st' /\
  (forall k, k <> tid -> positions st' !! k = positions st !! k) /\
  exists p,
    positions st' !! tid = Some p /\ token_id p = tid /\
    tick_lower p = lower - lower mod 60 /\
    tick_upper p = upper - upper mod 60 /\
    tick_lower p < tick_upper p /\
    fee_rate p = fee st /\ fee0 p = 0 /\ fee1 p = 0 /\
    consistent p /\
    amount0_psqrt p (sqrt_price st) = Ok a0 /\
    amount1_psqrt p (sqrt_price st) = Ok a1.
Proof.
  intros H. apply mint_ok in H
    as (H1 & H2 & H3 & H4 & Hv & p & Hp & H5 & H6 & H7 & H8 & H9 & H10 &
        H11 & H12 & H13 & H14 & _).
  split; [done|]. split; [done|]. split; [done|]. split; [done|].
  split; [rewrite Hv; apply valid_set_elem|].
  split; [intros k Hk; rewrite Hp; by apply lookup_insert_ne|].
  exists p. rewrite Hp. split; [apply lookup_insert_eq|]. done.
Qed.

(** [x - x] is zero or NaN. *)
Lemma fsub_self_cases x :
  is_zero (fsub x x) = true \/ fsub x x = S754_nan.
Proof.
  destruct x as [[]|[]| |s m e]; try (by left); try (by right).
  left. by rewrite FloatProps.fsub_diag.
Qed.

Lemma fdiv_nan x : fdiv x S754_nan = S754_nan.
Proof. by destruct x. Qed.

Lemma fmul_nan x : fmul x S754_nan = S754_nan.
Proof. by destruct x. Qed.

Lemma py_int_nan_raises :
  exists e, py_int S754_nan = Raise e.
Proof. by eexists. Qed.

(** A range with equal bounds cannot be sized. *)
Lemma empty_range_raises sp x amt0 amt1 :
  exists e, PositionUtil.cal_liquidity_sqrt sp x x amt0 amt1 = Raise e.
Proof.
  unfold PositionUtil.cal_liquidity_sqrt.
  destruct (fleb sp x).
  - destruct (py_assert _) as [[]|e]; simpl; [|by eexists].
    unfold truediv.
    destruct (fsub_self_cases x) as [Hz| ->]; [rewrite Hz; by eexists|].
    simpl. rewrite fdiv_nan. unfold Num.mul_float.
    destruct (Num.to_float (I amt0)) as [y|e]; simpl; [|by eexists].
    rewrite fmul_nan. by eexists.
  - destruct (py_assert _) as [[]|e]; simpl; [|by eexists].
    destruct (float_of_int amt1) as [a|e]; simpl; [|by eexists].
    unfold truediv.
    destruct (fsub_self_cases x) as [Hz| ->]; [rewrite Hz; by eexists|].
    simpl. rewrite fdiv_nan. by eexists.
Qed.

(** X8. When the two requested ticks round down to the same multiple of
    60, [mint] raises and the simulation is as before the call: such a
    range cannot be sized. *)
Theorem mint_empty_range_raises lower upper amt0 amt1 st :
  lower - lower mod 60 = upper - upper mod 60 ->
  exists e, mint float_pow lower upper amt0 amt1 st = (Raise e, st).
Proof.
  intros Heq. unfold mint. rewrite <- Heq.
  unfold mbind at 1, M_bind at 1, get at 1.
  unfold mbind at 1, M_bind at 1, lift at 1.
  destruct (py_assert _) as [[]|?]; [|by eexists].
  unfold mbind at 1, M_bind at 1, lift at 1.
  destruct (py_assert _) as [[]|?]; [|by eexists].
  unfold mbind at 1, M_bind at 1, lift at 1.
  destruct (sqrt_price_at_tick float_pow (lower - lower mod 60)) as [lo|?];
    simpl; [|by eexists].
  destruct (empty_range_raises (sqrt_price st) lo amt0 amt1) as [e ->].
  by eexists.
Qed.

(** X9. When the rounded lower tick is not below the rounded upper tick
    and the sizing of that range returns, [mint] raises
    [AssertionError] in the constructor of the position, after the next
    token id was taken: the counter has advanced, no position is
    registered, and nothing else has changed. *)
Theorem mint_inverted_range_burns_id lower upper amt0 amt1 st r :
  upper - upper mod 60 <= lower - lower mod 60 ->
  amt0 <= amount0 st -> amt1 <= amount1 st ->
  (lo ← sqrt_price_at_tick float_pow (lower - lower mod 60);
   hi ← sqrt_price_at_tick float_pow (upper - upper mod 60);
   PositionUtil.cal_liquidity_sqrt (sqrt_price st) lo hi amt0 amt1) = Ok r ->
  mint float_pow lower upper amt0 amt1 st
  = (Raise AssertionError, set_next_token_id (_next_token_id st + 1) st).
Proof.
  intros Hle H0 H1 Hs. unfold mint.
  unfold mbind at 1, M_bind at 1, get at 1.
  apply Z.leb_le in H0, H1. rewrite H0, H1.
  unfold mbind at 1, M_bind at 1, lift at 1. cbn [py_assert].
  unfold mbind at 1, M_bind at 1, lift at 1.
  unfold mbind at 1, M_bind at 1, lift at 1.
  rewrite Hs. destruct r as [[l x0] x1].
  unfold next_token_id, mbind, M_bind, modify, get, mret, M_ret, lift.
  norm_goal. unfold new_position.
  apply Z.ltb_ge in Hle. by rewrite Hle.
Qed.

(** X10. A [mint] that raises leaves the simulation as it was before the
    call, except that the token id counter may have advanced by one. *)
Theorem mint_raises_frame lower upper amt0 amt1 st e st' :
  mint float_pow lower upper amt0 amt1 st = (Raise e, st') ->
  st' = st \/ st' = set_next_token_id (_next_token_id st + 1) st.
Proof. apply mint_raises. Qed.

End WithPow.

Lemma mint_empty_range_raises_witness :
  exists e, mint RefPow.pow 0 59 1000 1000 (Ex.sim_at_one 2000 2000)
            = (Raise e, Ex.sim_at_one 2000 2000).
Proof.
  apply (mint_empty_range_raises RefPow.pow 0 59 1000 1000
           (Ex.sim_at_one 2000 2000)).
  reflexivity.
Defined.

Lemma mint_inverted_range_burns_id_witness :
  mint RefPow.pow 60 0 1000 1000 (Ex.sim_at_one 2000 2000)
  = (Raise AssertionError,
     set_next_token_id (_next_token_id (Ex.sim_at_one 2000 2000) + 1)
       (Ex.sim_at_one 2000 2000)).
Proof.
  apply (mint_inverted_range_burns_id RefPow.pow 60 0 1000 1000
           (Ex.sim_at_one 2000 2000) (I (-333850), 1000, 0)).
  - vm_compute. discriminate.
  - vm_compute. discriminate.
  - vm_compute. discriminate.
  - vm_compute. reflexivity.
Defined.

Lemma mint_raises_frame_witness :
  (mint RefPow.pow 60 0 1000 1000 (Ex.sim_at_one 2000 2000)).2
    = Ex.sim_at_one 2000 2000 \/
  (mint RefPow.pow 60 0 1000 1000 (Ex.sim_at_one 2000 2000)).2
    = set_next_token_id (_next_token_id (Ex.sim_at_one 2000 2000) + 1)
        (Ex.sim_at_one 2000 2000).
Proof.
  apply (mint_raises_frame RefPow.pow 60 0 1000 1000
           (Ex.sim_at_one 2000 2000) AssertionError).
  vm_compute. reflexivity.
Defined.

Lemma mint_registers_witness :
  1 = _next_token_id (Ex.sim_at_one 2000 2000) + 1 /\
  _next_token_id Ex.minted = 1 /\
  amount0 Ex.minted = amount0 (Ex.sim_at_one 2000 2000) - 999 /\
  amount1 Ex.minted = amount1 (Ex.sim_at_one 2000 2000) - 999 /\
  1 ∈ valid_positions Ex.minted /\
  (forall k, k <> 1 ->
     positions Ex.minted !! k = positions (Ex.sim_at_one 2000 2000) !! k) /\
  exists p,
    positions Ex.minted !! 1 = Some p /\ token_id p = 1 /\
    tick_lower p = -60 - -60 mod 60 /\
    tick_upper p = 60 - 60 mod 60 /\
    tick_lower p < tick_upper p /\
    fee_rate p = fee (Ex.sim_at_one 2000 2000) /\ fee0 p = 0 /\ fee1 p = 0 /\
    consistent p /\
    amount0_psqrt p (sqrt_price (Ex.sim_at_one 2000 2000)) = Ok 999 /\
    amount1_psqrt p (sqrt_price (Ex.sim_at_one 2000 2000)) = Ok 999.
Proof.
  apply (mint_registers RefPow.pow (-60) 60 1000 1000
           (Ex.sim_at_one 2000 2000) 1 999 999 Ex.minted).
  vm_compute. reflexivity.
Defined.

End MintProps.

(** ** Frames: what the methods leave alone *)

Module Frame.

Section Rules.

Context {S : Type} (R : S -> S -> Prop).
Hypothesis R_refl : forall s, R s s.
Hypothesis R_trans : forall s1 s2 s3, R s1 s2 -> R s2 s3 -> R s1 s3.

Lemma steps_bind {A B} (m : M S A) (f : A -> M S B) :
  steps R m -> (forall a, steps R (f a)) -> steps R (m ≫= f).
Proof.
  intros Hm Hf s r s'. unfold mbind, M_bind.
  destruct (m s) as [[a|e] s1] eqn:E.
  - intros H. eapply R_trans; [by eapply Hm | by eapply Hf].
  - intros [= _ <-]. by eapply Hm.
Qed.

Lemma steps_lift {A} (r : result A) : steps R (lift r).
Proof. intros s r' s' [= _ <-]. apply R_refl. Qed.

Lemma steps_reads {A} (f : S -> result A) : steps R (reads f).
Proof. intros s r' s' [= _ <-]. apply R_refl. Qed.

Lemma steps_get : steps R get.
Proof. intros s r' s' [= _ <-]. apply R_refl. Qed.

Lemma steps_mret {A} (a : A) : steps R (mret a).
Proof. intros s r' s' [= _ <-]. apply R_refl. Qed.

Lemma steps_modify (f : S -> S) : (forall s, R s (f s)) -> steps R (modify f).
Proof. intros Hf s r' s' [= _ <-]. apply Hf. Qed.

Lemma steps_try {A} (m : M S A) (h : M S unit) :
  steps R m -> steps R h -> steps R (try_except_reraise m h).
Proof.
  intros Hm Hh s r s'. unfold try_except_reraise.
  destruct (m s) as [[a|e] s1] eqn:E.
  - intros [= _ <-]. by eapply Hm.
  - destruct (h s1) as [[u|e'] s2] eqn:E'; intros [= _ <-];
      (eapply R_trans; [by eapply Hm | by eapply Hh]).
Qed.

Lemma steps_for_each {A} (l : list A) (body : A -> M S unit) :
  (forall x, steps R (body x)) -> steps R (for_each l body).
Proof.
  intros Hb. induction l as [|x l IH]; simpl.
  - apply steps_mret.
  - apply steps_bind; [apply Hb | intros _; apply IH].
Qed.

End Rules.

(** Goes through a method, one primitive at a time. *)
Ltac steps_tac Hrefl Htrans :=
  repeat first
    [ apply (steps_bind _ Htrans); [|intros]
    | apply (steps_lift _ Hrefl)
    | apply (steps_reads _ Hrefl)
    | apply (steps_get _ Hrefl)
    | apply (steps_mret _ Hrefl)
    | apply (steps_try _ Htrans)
    | apply (steps_for_each _ Hrefl Htrans); intros
    | apply steps_modify; intros
    | match goal with
      | |- steps _ (match ?x with _ => _ end) => destruct x
      | |- steps _ (let '(_, _) := ?x in _) => destruct x
      end ].

Lemma same_range_refl p : same_range p p.
Proof. by repeat split. Qed.

Lemma same_range_trans p1 p2 p3 :
  same_range p1 p2 -> same_range p2 p3 -> same_range p1 p3.
Proof.
  unfold same_range. intros H1 H2.
  repeat match goal with H : _ /\ _ |- _ => destruct H end.
  repeat split; congruence.
Qed.

Ltac range_tac :=
  steps_tac same_range_refl same_range_trans;
  try (by repeat split).

Import Position.

Lemma update_liquidity_range l : steps same_range (update_liquidity l).
Proof. unfold update_liquidity. range_tac. Qed.

Lemma increase_liquidity_range sp a0 a1 :
  steps same_range (increase_liquidity sp a0 a1).
Proof.
  unfold increase_liquidity. range_tac.
Qed.

Lemma decrease_liquidity_range sp liq pct :
  steps same_range (decrease_liquidity sp liq pct).
Proof.
  unfold decrease_liquidity. range_tac.
Qed.

Lemma swap_range a b : steps same_range (swap a b).
Proof. unfold swap. range_tac. Qed.

Lemma collect_range : steps same_range collect.
Proof. unfold collect. range_tac. Qed.

Lemma log_history_range b t : steps same_range (log_history b t).
Proof. unfold log_history. range_tac. Qed.

Lemma log_balance_range b t sp f0 f1 :
  steps same_range (log_balance b t sp f0 f1).
Proof. unfold log_balance. range_tac. Qed.

End Frame.

(** ** Any outcome of a method, step by step *)

Module AnyStep.
Import Sim.

Lemma bind_any {S A B} (m : M S A) (f : A -> M S B) s r s' :
  (m ≫= f) s = (r, s') ->
  (exists a s1, m s = (Ok a, s1) /\ f a s1 = (r, s')) \/
  (exists e, m s = (Raise e, s') /\ r = Raise e).
Proof.
  unfold mbind, M_bind. destruct (m s) as [[a|e] s1].
  - intros H. left. by exists a, s1.
  - intros [= <- <-]. right. by exists e.
Qed.

Lemma get_any {S} (s : S) r s' : get s = (r, s') -> r = Ok s /\ s' = s.
Proof. by intros [= <- <-]. Qed.

Lemma modify_any {S} (f : S -> S) s r s' :
  modify f s = (r, s') -> r = Ok tt /\ s' = f s.
Proof. by intros [= <- <-]. Qed.

Lemma lift_any {S A} (x : result A) (s : S) r s' :
  lift x s = (r, s') -> r = x /\ s' = s.
Proof. by intros [= <- <-]. Qed.

Lemma reads_any {S A} (f : S -> result A) (s : S) r s' :
  reads f s = (r, s') -> r = f s /\ s' = s.
Proof. by intros [= <- <-]. Qed.

Lemma mret_any {S A} (a : A) (s : S) r s' :
  (mret a : M S A) s = (r, s') -> r = Ok a /\ s' = s.
Proof. by intros [= <- <-]. Qed.

Lemma with_position_any {A} tid (m : M PositionInstance A) s r s' :
  with_position tid m s = (r, s') ->
  (positions s !! tid = None /\ r = Raise KeyError /\ s' = s) \/
  (exists p p', positions s !! tid = Some p /\ m p = (r, p') /\
                s' = set_positions (<[tid := p']> (positions s)) s).
Proof.
  unfold with_position. destruct (positions s !! tid) as [p|].
  - destruct (m p) as [r0 p'] eqn:Hm. intros [= <- <-].
    right. by exists p, p'.
  - intros [= <- <-]. by left.
Qed.

Lemma try_any {S A} (m : M S A) (h : M S unit) s r s' :
  try_except_reraise m h s = (r, s') ->
  (exists a, m s = (Ok a, s') /\ r = Ok a) \/
  (exists e s1 r', m s = (Raise e, s1) /\ h s1 = (r', s') /\
                   exists e', r = Raise e').
Proof.
  unfold try_except_reraise. destruct (m s) as [[a|e] s1].
  - intros [= <- <-]. left. by exists a.
  - destruct (h s1) as [[u|e'] s2] eqn:Hh; intros [= <- <-]; right;
      exists e, s1; eexists; (split; [done|]); (split; [done|]); by eexists.
Qed.

End AnyStep.

Ltac norm_state_in H :=
  cbn [Sim.set_wallet Sim.set_positions Sim.set_valid_positions
       Sim.set_next_token_id Sim.set_wallet_logs Sim.set_sqrt_price_x96
       Sim.set_tick Sim.set_block_number Sim.set_L Sim.set_sqrt_price
       Sim.set_timestamp
       decimal0 decimal1 amount0 amount1 positions valid_positions
       _next_token_id fee tick sqrt_price_x96 sqrt_price block_number
       timestamp L _price_reverse wallet_logs] in H.

(** Settles an equation between two results. *)
Ltac res_eq E :=
  first [ discriminate E
        | injection E as E; first [subst | idtac]
        | subst
        | idtac ].

(** Takes a run [H : m s = (r, s')] apart, whatever its outcome [r]: one
    case for each place where the method can raise, and one for its
    return. *)
Ltac ainv H :=
  lazymatch type of H with
  | (_ ≫= _) _ = _ =>
      let a := fresh "v" in
      let s := fresh "s" in
      let e := fresh "e" in
      let H1 := fresh "Hs" in
      let E := fresh "E" in
      apply AnyStep.bind_any in H as [(a & s & H1 & H) | (e & H1 & E)];
      [ ainv H1; try norm_state_in H;
        repeat match type of H with
               | context [let '(_, _) := ?x in _] => destruct x
               end;
        ainv H
      | res_eq E; ainv H1 ]
  | get _ = _ =>
      let E := fresh "E" in
      apply AnyStep.get_any in H as [E ->]; res_eq E
  | modify _ _ = _ =>
      let E := fresh "E" in
      apply AnyStep.modify_any in H as [E ->]; res_eq E
  | lift _ _ = _ =>
      apply AnyStep.lift_any in H as [H ->]; symmetry in H
  | reads _ _ = _ =>
      apply AnyStep.reads_any in H as [H ->]; symmetry in H
  | mret _ _ = _ =>
      let E := fresh "E" in
      apply AnyStep.mret_any in H as [E ->]; res_eq E
  | Sim.with_position _ _ _ = _ =>
      let p := fresh "p" in
      let p' := fresh "p" in
      let Hl := fresh "Hl" in
      let Hm := fresh "Hm" in
      let E := fresh "E" in
      apply AnyStep.with_position_any in H
        as [(Hl & E & ->) | (p & p' & Hl & Hm & ->)];
      [ res_eq E
      | norm_state_in Hl;
        try (rewrite lookup_insert_eq in Hl; injection Hl as <-);
        try (apply AnyStep.reads_any in Hm as [Hm ->]; symmetry in Hm;
             res_eq Hm) ]
  | try_except_reraise _ _ _ = _ =>
      let a := fresh "v" in
      let e := fresh "e" in
      let s := fresh "s" in
      let r := fresh "r" in
      let H1 := fresh "Hs" in
      let H2 := fresh "Hh" in
      let E := fresh "E" in
      apply AnyStep.try_any in H
        as [(a & H1 & E) | (e & s & r & H1 & H2 & (? & E))];
      [ res_eq E; ainv H1
      | res_eq E; ainv H1; try norm_state_in H2; ainv H2 ]
  | (if ?c then _ else _) _ = _ => destruct c eqn:?; ainv H
  | _ => idtac
  end.

(** ** Well-formed simulations stay well-formed *)

Module InvProps.
Import Position Sim Inv Frame.

Lemma persists_refl st : persists st st.
Proof. intros k p Hp. exists p. split; [done | apply same_range_refl]. Qed.

Lemma persists_same st st' : positions st' = positions st -> persists st st'.
Proof. intros E. unfold persists. rewrite E. apply persists_refl. Qed.

Lemma persists_trans s1 s2 s3 :
  persists s1 s2 -> persists s2 s3 -> persists s1 s3.
Proof.
  intros H1 H2 k p Hp.
  destruct (H1 k p Hp) as (p' & Hp' & Hr).
  destruct (H2 k p' Hp') as (p'' & Hp'' & Hr').
  exists p''. split; [done | by eapply same_range_trans].
Qed.

Lemma grows_refl st : grows st st.
Proof. intros H. split; [done|]. split; [apply persists_refl | lia]. Qed.

Lemma grows_trans s1 s2 s3 : grows s1 s2 -> grows s2 s3 -> grows s1 s3.
Proof.
  intros H1 H2 Hw. destruct (H1 Hw) as (Hw2 & Hp2 & Hn2).
  destruct (H2 Hw2) as (Hw3 & Hp3 & Hn3).
  split; [done|]. split; [by eapply persists_trans | lia].
Qed.

(** A state that differs in other fields only. *)
Lemma grows_fields st st' :
  positions st' = positions st ->
  valid_positions st' = valid_positions st ->
  _next_token_id st' = _next_token_id st ->
  grows st st'.
Proof.
  intros Hp Hv Hn [Hr [Hv1 Hv2]].
  split; [split; [|split]|split].
  - intros k p. rewrite Hp, Hn. apply Hr.
  - intros k. rewrite Hv, Hp. apply Hv1.
  - by rewrite Hv.
  - intros k p. rewrite Hp. intros H. exists p.
    split; [done | apply same_range_refl].
  - lia.
Qed.

(** The object registered under [tid] after a method call on it. *)
Lemma grows_with_position st tid p p' :
  positions st !! tid = Some p -> same_range p p' ->
  grows st (set_positions (<[tid := p']> (positions st)) st).
Proof.
  intros Hp Hs [Hr [Hv1 Hv2]]. pose proof Hs as (Ht & _).
  unfold well_formed, registered, valid_registered, persists.
  split; [split; [|split]|split]; cbn.
  - intros k q. destruct (decide (k = tid)) as [->|Hne].
    + rewrite lookup_insert_eq. intros [= <-].
      destruct (Hr tid p Hp) as [H1 H2]. split; [congruence | done].
    + rewrite lookup_insert_ne by done. apply Hr.
  - intros k Hk. destruct (decide (k = tid)) as [->|Hne].
    + rewrite lookup_insert_eq. by eexists.
    + rewrite lookup_insert_ne by done. by apply Hv1.
  - done.
  - intros k q Hq. destruct (decide (k = tid)) as [->|Hne].
    + rewrite lookup_insert_eq. exists p'. split; [done|]. congruence.
    + rewrite lookup_insert_ne by done. exists q.
      split; [done | apply same_range_refl].
  - lia.
Qed.

Lemma grows_valid_set st tid p :
  positions st !! tid = Some p ->
  grows st (set_valid_positions
              (valid_set (token_id p) (valid_positions st)) st).
Proof.
  intros Hp [Hr [Hv1 Hv2]]. destruct (Hr tid p Hp) as [Ht _].
  rewrite Ht. unfold well_formed, registered, valid_registered.
  split; [split; [|split]|split]; cbn; try done.
  - unfold valid_set, valid_mem. case_bool_decide; [done|].
    intros k Hk. apply elem_of_app in Hk as [Hk|Hk]; [by apply Hv1|].
    apply list_elem_of_singleton in Hk as ->. by eexists.
  - unfold valid_set, valid_mem. case_bool_decide; [done|].
    apply NoDup_app. split; [done|]. split; [|apply NoDup_singleton].
    intros k Hk Hk'. by apply list_elem_of_singleton in Hk' as ->.
  - by apply persists_same.
Qed.

Lemma grows_valid_pop st k :
  grows st (set_valid_positions (valid_pop k (valid_positions st)) st).
Proof.
  intros [Hr [Hv1 Hv2]]. unfold well_formed, registered, valid_registered.
  split; [split; [|split]|split]; cbn; try done.
  - unfold valid_pop. intros j Hj.
    apply list_elem_of_filter in Hj as [_ Hj]. by apply Hv1.
  - unfold valid_pop. by apply NoDup_filter.
  - by apply persists_same.
Qed.

(** What a method call did to a position, from its run. *)
Ltac range_hyps :=
  repeat match goal with
         | H : Position.update_liquidity _ _ = _ |- _ =>
             apply update_liquidity_range in H
         | H : Position.increase_liquidity _ _ _ _ = _ |- _ =>
             apply increase_liquidity_range in H
         | H : Position.decrease_liquidity _ _ _ _ = _ |- _ =>
             apply decrease_liquidity_range in H
         | H : Position.swap _ _ _ = _ |- _ => apply swap_range in H
         | H : Position.collect _ = _ |- _ => apply collect_range in H
         | H : Position.log_history _ _ _ = _ |- _ =>
             apply log_history_range in H
         | H : Position.log_balance _ _ _ _ _ _ = _ |- _ =>
             apply log_balance_range in H
         end.

Lemma steps_with_position {A} tid (m : M PositionInstance A) :
  steps same_range m -> steps grows (with_position tid m).
Proof.
  intros Hm s r s' H.
  apply AnyStep.with_position_any in H
    as [(_ & _ & ->) | (p & p' & Hl & Hp & ->)].
  - apply grows_refl.
  - apply (grows_with_position _ _ p); [done|]. by eapply Hm.
Qed.

Ltac grows_steps :=
  steps_tac grows_refl grows_trans;
  try (by apply grows_fields);
  try apply grows_valid_pop;
  try (apply steps_with_position;
       first [ apply update_liquidity_range
             | apply increase_liquidity_range
             | apply decrease_liquidity_range
             | apply swap_range
             | apply collect_range
             | apply log_history_range
             | apply log_balance_range
             | apply (steps_reads _ same_range_refl) ]).

(** The two statements of [increase_liquidity] that put the position
    back among the valid ones. *)
Lemma steps_revalidate {A} tid (rest : M PoolSimiulation A) :
  steps grows rest ->
  steps grows
    (ptid ← with_position tid (reads (fun p => Ok (token_id p)));
     _ ← modify (fun s =>
           set_valid_positions (valid_set ptid (valid_positions s)) s);
     rest).
Proof.
  intros Hrest s r s' H.
  apply AnyStep.bind_any in H as [(ptid & s1 & H1 & H) | (e & H1 & ->)];
    apply AnyStep.with_position_any in H1
      as [(_ & E & ->) | (p & p' & Hl & Hp & ->)];
    try discriminate E; try apply grows_refl;
    apply AnyStep.reads_any in Hp as [Hp ->]; [|discriminate Hp].
  injection Hp as ->.
  apply AnyStep.bind_any in H as [(u & s2 & H2 & H) | (e & H2 & ->)];
    apply AnyStep.modify_any in H2 as [E ->]; [|discriminate E].
  eapply grows_trans;
    [apply (grows_with_position _ _ p p Hl), same_range_refl|].
  eapply grows_trans;
    [apply (grows_valid_set _ tid p); cbn; apply lookup_insert_eq|].
  by eapply Hrest.
Qed.

Lemma increase_liquidity_grows tid amt0 amt1 :
  steps grows (increase_liquidity tid amt0 amt1).
Proof.
  unfold increase_liquidity, record_wallet.
  apply (steps_bind _ grows_trans); [grows_steps | intros s0].
  apply (steps_bind _ grows_trans); [grows_steps | intros org_l].
  apply (steps_bind _ grows_trans); [grows_steps | intros [[l a0] a1]].
  apply (steps_bind _ grows_trans); [grows_steps | intros _].
  apply (steps_bind _ grows_trans); [grows_steps | intros _].
  apply (steps_bind _ grows_trans); [grows_steps | intros _].
  apply steps_revalidate. grows_steps.
Qed.

Lemma decrease_liquidity_grows tid liq pct :
  steps grows (decrease_liquidity tid liq pct).
Proof. unfold decrease_liquidity, record_wallet. grows_steps. Qed.

Lemma collect_grows tid : steps grows (collect tid).
Proof. unfold collect, record_wallet. grows_steps. Qed.

Lemma on_swap_grows ev : steps grows (on_swap ev).
Proof. unfold on_swap, accrue, record_wallet. grows_steps. Qed.

Lemma init_grows ev : steps grows (Pool.init ev).
Proof. unfold Pool.init. grows_steps. Qed.

Lemma swap_grows in_token amount pct : steps grows (swap in_token amount pct).
Proof. unfold swap. grows_steps. Qed.

Lemma mint_grows float_pow lower upper amt0 amt1 :
  steps grows (mint float_pow lower upper amt0 amt1).
Proof.
  intros st r st' H [Hr [Hv1 Hv2]]. destruct r as [[[tid a0] a1]|e].
  - apply MintProps.mint_ok in H
      as (Ht & Hn & _ & _ & Hv & p & Hp & Hid & _).
    assert (Hfresh : positions st !! tid = None).
    { destruct (positions st !! tid) as [q|] eqn:Hq; [|done].
      apply Hr in Hq as [_ Hq]. lia. }
    unfold well_formed, registered, valid_registered, persists.
    rewrite Hp, Hv, Hn.
    split; [split; [|split]|split].
    + intros k q. destruct (decide (k = tid)) as [->|Hne].
      * rewrite lookup_insert_eq. intros [= <-]. split; [done | lia].
      * rewrite lookup_insert_ne by done. intros Hq.
        apply Hr in Hq as [? ?]. split; [done | lia].
    + intros k Hk. destruct (decide (k = tid)) as [->|Hne].
      * rewrite lookup_insert_eq. by eexists.
      * rewrite lookup_insert_ne by done. apply Hv1.
        unfold valid_set, valid_mem in Hk. case_bool_decide; [done|].
        apply elem_of_app in Hk as [Hk|Hk]; [done|].
        by apply list_elem_of_singleton in Hk.
    + unfold valid_set, valid_mem. case_bool_decide; [done|].
      apply NoDup_app. split; [done|]. split; [|apply NoDup_singleton].
      intros k Hk Hk'. by apply list_elem_of_singleton in Hk' as ->.
    + intros k q Hq. exists q. split; [|apply same_range_refl].
      rewrite lookup_insert_ne; [done|]. intros <-. congruence.
    + lia.
  - apply MintProps.mint_raises in H as [->| ->].
    + by apply grows_refl.
    + unfold well_formed, registered, valid_registered, persists. cbn.
      split; [split; [|split]|split]; try done; try lia.
      * intros k q Hq. apply Hr in Hq as [? ?]. split; [done | lia].
      * intros k q Hq. exists q. split; [done | apply same_range_refl].
Qed.

Section WithPow.

Variable float_pow : float -> float -> result float.

Lemma exec_grows o : steps grows (exec float_pow o).
Proof.
  destruct o; cbn [exec];
    try (apply (steps_bind _ grows_trans);
         [| intros; apply (steps_mret _ grows_refl)]).
  - apply mint_grows.
  - apply increase_liquidity_grows.
  - apply decrease_liquidity_grows.
  - apply collect_grows.
  - apply init_grows.
  - apply on_swap_grows.
  - apply swap_grows.
Qed.

Lemma init_sim_well_formed a0 a1 d0 d1 fee_value rev :
  well_formed (init_sim a0 a1 d0 d1 fee_value rev).
Proof.
  split; [|split]; cbn.
  - intros k p H. cbn in H. by rewrite lookup_empty in H.
  - intros k H. by apply elem_of_nil in H.
  - apply NoDup_nil_2.
Qed.

(** X14. Whatever a call of a public method does to a well-formed
    simulation, as a new one is, and whether it returns or raises, the
    simulation is well-formed afterwards: every position
    is registered under its own token id, no id above the counter is in
    use, and the valid positions are registered ones, each listed
    once. *)
Theorem calls_keep_well_formed o st r st' :
  well_formed st -> exec float_pow o st = (r, st') -> well_formed st'.
Proof. intros Hw H. by apply (exec_grows o st r st' H). Qed.

(** X15. No call of a public method, returning or raising, removes a
    position from the registry of a well-formed simulation or changes
    its token id, its range or its fee tier; and the token id counter
    never goes back. *)
Theorem calls_keep_positions o st r st' :
  well_formed st -> exec float_pow o st = (r, st') ->
  persists st st' /\ _next_token_id st <= _next_token_id st'.
Proof. intros Hw H. by apply (exec_grows o st r st' H). Qed.

End WithPow.

Lemma sim_at_one_well_formed : well_formed (Ex.sim_at_one 2000 2000).
Proof.
  assert (Heq : exec RefPow.pow (DoOnSwap Ex.ev_price_one)
                  (init_sim 2000 2000 8 18 3000 false)
                = (Ok tt, Ex.sim_at_one 2000 2000))
    by (vm_compute; reflexivity).
  pose proof (exec_grows RefPow.pow _ _ _ _ Heq
                (init_sim_well_formed 2000 2000 8 18 3000 false)) as [H _].
  exact H.
Qed.

Lemma minted_well_formed : well_formed Ex.minted.
Proof.
  assert (Heq : exec RefPow.pow (DoMint (-60) 60 1000 1000)
                  (Ex.sim_at_one 2000 2000)
                = (Ok tt, Ex.minted))
    by (vm_compute; reflexivity).
  pose proof (exec_grows RefPow.pow _ _ _ _ Heq sim_at_one_well_formed)
    as [H _].
  exact H.
Qed.

Lemma calls_keep_well_formed_witness :
  well_formed (decrease_liquidity 1 None (I 1) Ex.minted).2.
Proof.
  apply (calls_keep_well_formed RefPow.pow (DoDecrease 1 None (I 1))
           Ex.minted (Ok tt)).
  - exact minted_well_formed.
  - vm_compute. reflexivity.
Defined.

Lemma calls_keep_positions_witness :
  persists Ex.minted (increase_liquidity 1 5000 5000 Ex.minted).2 /\
  _next_token_id Ex.minted
  <= _next_token_id (increase_liquidity 1 5000 5000 Ex.minted).2.
Proof.
  apply (calls_keep_positions RefPow.pow (DoIncrease 1 5000 5000)
           Ex.minted (Raise AssertionError)).
  - exact minted_well_formed.
  - vm_compute. reflexivity.
Defined.

End InvProps.

(** ** Edge amounts and the fee ledger after returning calls *)

Module SettledProps.
Import Position PositionProps Sim SimProps SimLogProps Inv MintProps.

Section Rules.

Context {S : Type} (R : S -> S -> Prop).
Hypothesis R_refl : forall s, R s s.
Hypothesis R_trans : forall s1 s2 s3, R s1 s2 -> R s2 s3 -> R s1 s3.

Lemma returns_bind {A B} (m : M S A) (f : A -> M S B) :
  returns R m -> (forall a, returns R (f a)) -> returns R (m ≫= f).
Proof.
  intros Hm Hf s b s' H.
  apply Step.bind_ok_inv in H as (a & s1 & H1 & H2).
  eapply R_trans; [by eapply Hm | by eapply Hf].
Qed.

Lemma returns_lift {A} (r : result A) : returns R (lift r).
Proof. intros s a s' [= _ <-]. apply R_refl. Qed.

Lemma returns_reads {A} (f : S -> result A) : returns R (reads f).
Proof. intros s a s' [= _ <-]. apply R_refl. Qed.

Lemma returns_get : returns R get.
Proof. intros s a s' [= _ <-]. apply R_refl. Qed.

Lemma returns_mret {A} (a : A) : returns R (mret a).
Proof. intros s a' s' [= _ <-]. apply R_refl. Qed.

Lemma returns_modify (f : S -> S) :
  (forall s, R s (f s)) -> returns R (modify f).
Proof. intros Hf s a s' [= _ <-]. apply Hf. Qed.

Lemma returns_try {A} (m : M S A) (h : M S unit) :
  returns R m -> returns R (try_except_reraise m h).
Proof. intros Hm s a s' H. apply try_ok_inv in H. by eapply Hm. Qed.

Lemma returns_for_each {A} (l : list A) (body : A -> M S unit) :
  (forall x, returns R (body x)) -> returns R (for_each l body).
Proof.
  intros Hb. induction l as [|x l IH]; simpl.
  - apply returns_mret.
  - apply returns_bind; [apply Hb | intros _; apply IH].
Qed.

End Rules.

Lemma stays_refl st : stays_settled st st.
Proof. by intros H. Qed.

Lemma stays_trans s1 s2 s3 :
  stays_settled s1 s2 -> stays_settled s2 s3 -> stays_settled s1 s3.
Proof. intros H1 H2 H. by apply H2, H1. Qed.

Lemma stays_fields st st' :
  positions st' = positions st -> stays_settled st st'.
Proof. intros E H. unfold settled. by rewrite E. Qed.

(** A method of a position that, when it returns, keeps the edge
    amounts and the ledger right. *)
Lemma returns_with_position {A} tid (m : M PositionInstance A) :
  (forall p a p', m p = (Ok a, p') ->
                  consistent p /\ fees_logged p ->
                  consistent p' /\ fees_logged p') ->
  returns stays_settled (with_position tid m).
Proof.
  intros Hm s a s' H Hs.
  apply with_position_ok_inv in H as (p & p' & Hl & Hp & ->).
  intros k q. cbn. destruct (decide (k = tid)) as [->|Hne].
  - rewrite lookup_insert_eq. intros [= <-]. eapply Hm; [done|].
    by apply (Hs tid).
  - rewrite lookup_insert_ne by done. apply Hs.
Qed.

Lemma update_liquidity_settles l p p' :
  update_liquidity l p = (Ok tt, p') ->
  consistent p' /\ fee0 p' = fee0 p /\ fee1 p' = fee1 p /\
  balance p' = balance p.
Proof.
  intros H. apply update_liquidity_ok in H as (e0 & e1 & H0 & H1 & ->).
  by repeat split.
Qed.

Lemma increase_liquidity_settles sp a0 a1 p r p' :
  Position.increase_liquidity sp a0 a1 p = (Ok r, p') ->
  consistent p /\ fees_logged p -> consistent p' /\ fees_logged p'.
Proof.
  intros H [_ Hf]. unfold Position.increase_liquidity in H. minv H.
  destruct v1 as [[l x0] x1]. minv H.
  destruct v2. apply update_liquidity_settles in Hs3 as (Hc & E0 & E1 & Eb).
  apply Step.mret_ok_inv in H as [_ ->].
  split; [done|]. unfold fees_logged. by rewrite E0, E1, Eb.
Qed.

Lemma decrease_liquidity_settles sp liq pct p r p' :
  Position.decrease_liquidity sp liq pct p = (Ok r, p') ->
  consistent p /\ fees_logged p -> consistent p' /\ fees_logged p'.
Proof.
  intros H [_ Hf]. unfold Position.decrease_liquidity in H.
  apply Step.bind_ok_inv in H as (u & p1 & H1 & H).
  apply Step.lift_ok_inv in H1 as [_ ->].
  apply Step.bind_ok_inv in H as (amount & p1 & H1 & H).
  assert (p1 = p) as ->.
  { destruct liq as [x|]; [destruct (Num.truthy x)|].
    - by apply Step.mret_ok_inv in H1 as [_ ->].
    - minv H1. by apply Step.reads_ok_inv in H1 as [_ ->].
    - minv H1. by apply Step.reads_ok_inv in H1 as [_ ->]. }
  minv H. destruct v2.
  apply update_liquidity_settles in Hs2 as (Hc & E0 & E1 & Eb).
  apply Step.mret_ok_inv in H as [_ ->].
  split; [done|]. unfold fees_logged. by rewrite E0, E1, Eb.
Qed.

Lemma log_history_settles b t p u p' :
  log_history b t p = (Ok u, p') ->
  consistent p /\ fees_logged p -> consistent p' /\ fees_logged p'.
Proof. intros H. by apply log_history_eq in H as ->. Qed.

Lemma foldr_add_app l x : foldr Z.add 0 (l ++ [x]) = foldr Z.add 0 l + x.
Proof. induction l as [|y l IH]; simpl; lia. Qed.

(** An entry with fees [f0], [f1], after the fees of the position were
    changed by the same amounts. *)
Lemma log_balance_settles b t sp f0 f1 p q u p' :
  consistent q /\ fees_logged q ->
  same_logs q p -> consistent p ->
  fee0 p = fee0 q + f0 -> fee1 p = fee1 q + f1 ->
  log_balance b t sp f0 f1 p = (Ok u, p') ->
  consistent p' /\ fees_logged p'.
Proof.
  intros [_ [Hq0 Hq1]] [_ Hb] Hc H0 H1 H.
  apply log_balance_eq in H as (a0 & a1 & _ & _ & ->).
  split; [done|]. unfold fees_logged.
  cbn [fee0 fee1 balance set_balance].
  rewrite !map_app, Hb. cbn [map pb_fee0 pb_fee1].
  rewrite !foldr_add_app. lia.
Qed.

Lemma log_balance_zero_settles b t sp p u p' :
  log_balance b t sp 0 0 p = (Ok u, p') ->
  consistent p /\ fees_logged p -> consistent p' /\ fees_logged p'.
Proof.
  intros H Hq. apply (log_balance_settles b t sp 0 0 p p u p'); try done.
  - by destruct Hq.
  - lia.
  - lia.
Qed.

Lemma swap_fees a b p f0 f1 p' :
  Position.swap a b p = (Ok (f0, f1), p') ->
  fee0 p' = fee0 p + f0 /\ fee1 p' = fee1 p + f1 /\
  same_logs p p' /\ (consistent p -> consistent p').
Proof.
  unfold Position.swap. destruct (fltb a b); intros H; minv H;
    apply Step.mret_ok_inv in H as [[= -> ->] ->];
    (split; [cbn; lia|]; split; [cbn; lia|]; split; [done|]);
    intros Hc; exact Hc.
Qed.

Lemma accrue_settles a b blk t tid :
  returns stays_settled (accrue a b blk t tid).
Proof.
  intros s u s' H Hs. unfold accrue in H. sinv H.
  intros k q. cbn. destruct (decide (k = tid)) as [->|Hne].
  - rewrite lookup_insert_eq. intros [= <-].
    match goal with
    | Hw : Position.swap _ _ ?p = (_, ?p0),
      Hb : log_balance _ _ _ _ _ ?p0 = _,
      Hp : positions s !! tid = Some ?p |- _ =>
        apply swap_fees in Hw as (H0 & H1 & Hlog & Hc);
        destruct (Hs tid p Hp) as [Hcp Hfp];
        eapply (log_balance_settles _ _ _ _ _ p0 p);
        [ split; eassumption | exact Hlog | by apply Hc | exact H0
        | exact H1 | exact Hb ]
    end.
  - rewrite !lookup_insert_ne by done. apply Hs.
Qed.

Lemma collect_settles tid : returns stays_settled (collect tid).
Proof.
  intros s r s' H Hs. unfold collect, record_wallet in H. sinv H.
  intros k q. cbn. destruct (decide (k = tid)) as [->|Hne].
  - rewrite lookup_insert_eq. intros [= <-].
    match goal with
    | Hc : Position.collect ?p = (_, ?p0),
      Hb : log_balance _ _ _ _ _ ?p0 = _,
      Hp : positions s !! tid = Some ?p |- _ =>
        unfold Position.collect in Hc; minv Hc;
        apply Step.mret_ok_inv in Hc as [[= -> ->] ->];
        destruct (Hs tid p Hp) as [Hcp Hfp];
        apply (log_balance_settles _ _ _ _ _ (set_fees 0 0 p) p) in Hb;
        [ exact Hb | by split | by split | exact Hcp | cbn; lia | cbn; lia ]
    end.
  - rewrite !lookup_insert_ne by done. apply Hs.
Qed.

Ltac settled_steps :=
  repeat first
    [ apply accrue_settles
    | apply (returns_bind _ stays_trans); [|intros]
    | apply (returns_lift _ stays_refl)
    | apply (returns_reads _ stays_refl)
    | apply (returns_get _ stays_refl)
    | apply (returns_mret _ stays_refl)
    | apply returns_try
    | apply (returns_for_each _ stays_refl stays_trans); intros
    | apply returns_modify; intros; by apply stays_fields
    | apply returns_with_position;
      first [ apply increase_liquidity_settles
            | apply decrease_liquidity_settles
            | apply log_history_settles
            | apply log_balance_zero_settles
            | (intros ? ? ? [= _ <-]; done) ]
    | match goal with
      | |- returns _ (match ?x with _ => _ end) => destruct x
      | |- returns _ (let '(_, _) := ?x in _) => destruct x
      end ].

Lemma increase_settles tid a0 a1 :
  returns stays_settled (increase_liquidity tid a0 a1).
Proof. unfold increase_liquidity, record_wallet. settled_steps. Qed.

Lemma decrease_settles tid liq pct :
  returns stays_settled (decrease_liquidity tid liq pct).
Proof. unfold decrease_liquidity, record_wallet. settled_steps. Qed.

Lemma on_swap_settles ev : returns stays_settled (on_swap ev).
Proof. unfold on_swap, record_wallet. settled_steps. Qed.

Lemma init_settles ev : returns stays_settled (Pool.init ev).
Proof. unfold Pool.init. settled_steps. Qed.

Lemma swap_settles in_token amount pct :
  returns stays_settled (swap in_token amount pct).
Proof. unfold swap. settled_steps. Qed.

Lemma mint_settles float_pow lower upper amt0 amt1 :
  returns stays_settled (mint float_pow lower upper amt0 amt1).
Proof.
  intros st [[tid a0] a1] st' H Hs.
  apply mint_ok in H
    as (_ & _ & _ & _ & _ & p & Hp & _ & _ & _ & _ & _ & Hf0 & Hf1 & Hc &
        _ & _ & Hb0 & Hb1).
  intros k q. rewrite Hp. destruct (decide (k = tid)) as [->|Hne].
  - rewrite lookup_insert_eq. intros [= <-]. split; [done|].
    unfold fees_logged. rewrite Hb0, Hb1, Hf0, Hf1. done.
  - rewrite lookup_insert_ne by done. apply Hs.
Qed.

Section WithPow.

Variable float_pow : float -> float -> result float.

Lemma exec_settles o : returns stays_settled (exec float_pow o).
Proof.
  destruct o; cbn [exec];
    try (apply (returns_bind _ stays_trans);
         [| intros; apply (returns_mret _ stays_refl)]).
  - apply mint_settles.
  - apply increase_settles.
  - apply decrease_settles.
  - apply collect_settles.
  - apply init_settles.
  - apply on_swap_settles.
  - apply swap_settles.
Qed.

Lemma init_sim_settled a0 a1 d0 d1 fee_value rev :
  settled (init_sim a0 a1 d0 d1 fee_value rev).
Proof. intros k p H. cbn in H. by rewrite lookup_empty in H. Qed.

(** X16. After a call of a public method that returns, every registered
    position has the edge amounts of its liquidity, provided the
    simulation was settled before the call, as a new one is: each change
    of a liquidity goes through [update_liquidity]. *)
Theorem returning_calls_keep_edges o st u st' :
  settled st -> exec float_pow o st = (Ok u, st') ->
  forall k p, positions st' !! k = Some p -> consistent p.
Proof.
  intros Hs H k p Hp. by apply (exec_settles o st u st' H Hs k p).
Qed.

(** X17. After a call of a public method that returns, the fees a
    position holds are the sums of the two fee columns of its balance
    log, provided the simulation was settled before the call, as a new
    one is: [on_swap] logs what it accrues and [collect] logs what it
    takes, as negative amounts. *)
Theorem returning_calls_keep_fee_ledger o st u st' :
  settled st -> exec float_pow o st = (Ok u, st') ->
  forall k p, positions st' !! k = Some p -> fees_logged p.
Proof.
  intros Hs H k p Hp. by apply (exec_settles o st u st' H Hs k p).
Qed.

End WithPow.

Lemma sim_at_one_settled : settled (Ex.sim_at_one 2000 2000).
Proof.
  assert (Heq : exec RefPow.pow (DoOnSwap Ex.ev_price_one)
                  (init_sim 2000 2000 8 18 3000 false)
                = (Ok tt, Ex.sim_at_one 2000 2000))
    by (vm_compute; reflexivity).
  exact (exec_settles RefPow.pow _ _ _ _ Heq
           (init_sim_settled 2000 2000 8 18 3000 false)).
Qed.

Lemma minted_settled : settled Ex.minted.
Proof.
  assert (Heq : exec RefPow.pow (DoMint (-60) 60 1000 1000)
                  (Ex.sim_at_one 2000 2000)
                = (Ok tt, Ex.minted))
    by (vm_compute; reflexivity).
  exact (exec_settles RefPow.pow _ _ _ _ Heq sim_at_one_settled).
Qed.

Lemma returning_calls_keep_edges_witness :
  exists p,
    positions (decrease_liquidity 1 None (F Ex.f_half) Ex.minted).2 !! 1
      = Some p /\
    consistent p.
Proof.
  eexists. split; [vm_compute; reflexivity|].
  apply (returning_calls_keep_edges RefPow.pow
           (DoDecrease 1 None (F Ex.f_half)) Ex.minted tt
           (decrease_liquidity 1 None (F Ex.f_half) Ex.minted).2)
    with (k := 1).
  - exact minted_settled.
  - vm_compute. reflexivity.
  - vm_compute. reflexivity.
Defined.

Lemma returning_calls_keep_fee_ledger_witness :
  exists p,
    positions (on_swap (Ex.swap_at 5) Ex.minted).2 !! 1 = Some p /\
    fees_logged p.
Proof.
  eexists. split; [vm_compute; reflexivity|].
  apply (returning_calls_keep_fee_ledger RefPow.pow
           (DoOnSwap (Ex.swap_at 5)) Ex.minted tt
           (on_swap (Ex.swap_at 5) Ex.minted).2)
    with (k := 1).
  - exact minted_settled.
  - vm_compute. reflexivity.
  - vm_compute. reflexivity.
Defined.

End SettledProps.

(** ** The other operations of the simulation *)

Module PoolProps.
Import Position PositionProps Sim SimProps SimLogProps MintProps.

(** X11. For a token id that is not registered, [get_position],
    [increase_liquidity], [decrease_liquidity] and [collect] raise
    [KeyError] and leave the simulation as it was. *)
Theorem unknown_token_id tid st :
  positions st !! tid = None ->
  Pool.get_position tid st = (Raise KeyError, st) /\
  (forall amt0 amt1,
     increase_liquidity tid amt0 amt1 st = (Raise KeyError, st)) /\
  (forall liq pct,
     decrease_liquidity tid liq pct st = (Raise KeyError, st)) /\
  collect tid st = (Raise KeyError, st).
Proof.
  intros Hn. repeat split; intros.
  - unfold Pool.get_position, reads. by rewrite Hn.
  - unfold increase_liquidity, mbind, M_bind, get.
    by rewrite (with_position_none _ _ _ Hn).
  - unfold decrease_liquidity, mbind, M_bind, get.
    by rewrite (with_position_none _ _ _ Hn).
  - unfold collect, mbind, M_bind, get.
    by rewrite (with_position_none _ _ _ Hn).
Qed.

Lemma unknown_token_id_witness :
  Pool.get_position 2 Ex.minted = (Raise KeyError, Ex.minted) /\
  (forall amt0 amt1,
     increase_liquidity 2 amt0 amt1 Ex.minted = (Raise KeyError, Ex.minted)) /\
  (forall liq pct,
     decrease_liquidity 2 liq pct Ex.minted = (Raise KeyError, Ex.minted)) /\
  collect 2 Ex.minted = (Raise KeyError, Ex.minted).
Proof.
  apply (unknown_token_id 2 Ex.minted).
  vm_compute. reflexivity.
Defined.

Lemma increase_liquidity_token_id sp amt0 amt1 p r p' :
  Position.increase_liquidity sp amt0 amt1 p = (Ok r, p') ->
  token_id p' = token_id p.
Proof.
  intros H. by apply increase_liquidity_ok in H as (l & e0 & e1 & ->).
Qed.

(** X12. An [increase_liquidity] that returns debits the wallet by the
    amounts it returns, which it has checked against the balances, so
    the two balances it leaves are not negative; and the position is
    among the valid positions afterwards, also when it had been closed. *)
Theorem increase_liquidity_effect tid amt0 amt1 st r a0 a1 st' :
  increase_liquidity tid amt0 amt1 st = (Ok (r, a0, a1), st') ->
  r = tid /\
  amount0 st' = amount0 st - a0 /\ amount1 st' = amount1 st - a1 /\
  0 <= amount0 st' /\ 0 <= amount1 st' /\
  (exists p, positions st !! tid = Some p /\
             token_id p ∈ valid_positions st') /\
  _next_token_id st' = _next_token_id st.
Proof.
  intros H. unfold increase_liquidity, record_wallet in H. sinv H.
  repeat match goal with
         | Ha : py_assert _ = Ok _ |- _ =>
             apply Step.py_assert_ok_inv, Z.leb_le in Ha
         end.
  simplify_eq. cbn.
  match goal with
  | Hi : Position.increase_liquidity _ _ _ _ = _ |- _ =>
      apply increase_liquidity_token_id in Hi as Ht
  end.
  repeat split; try done; try lia.
  eexists. split; [eassumption|]. rewrite <- Ht. apply valid_set_elem.
Qed.

Lemma increase_liquidity_effect_witness :
  1 = 1 /\
  amount0 (increase_liquidity 1 500 500 Ex.minted).2
    = amount0 Ex.minted - 500 /\
  amount1 (increase_liquidity 1 500 500 Ex.minted).2
    = amount1 Ex.minted - 500 /\
  0 <= amount0 (increase_liquidity 1 500 500 Ex.minted).2 /\
  0 <= amount1 (increase_liquidity 1 500 500 Ex.minted).2 /\
  (exists p, positions Ex.minted !! 1 = Some p /\
             token_id p ∈ valid_positions
                            (increase_liquidity 1 500 500 Ex.minted).2) /\
  _next_token_id (increase_liquidity 1 500 500 Ex.minted).2
    = _next_token_id Ex.minted.
Proof.
  apply (increase_liquidity_effect 1 500 500 Ex.minted 1 500 500).
  vm_compute. reflexivity.
Defined.

(** X13. A [decrease_liquidity] that returns credits the wallet with the
    amounts it returns, and keeps the position among the valid ones
    unless the liquidity it is left with is zero: a partial decrease
    does not close a position. *)
Theorem decrease_liquidity_effect tid liq pct st r a0 a1 st' :
  decrease_liquidity tid liq pct st = (Ok (r, a0, a1), st') ->
  r = tid /\
  amount0 st' = amount0 st + a0 /\ amount1 st' = amount1 st + a1 /\
  exists p p',
    positions st !! tid = Some p /\ positions st' !! tid = Some p' /\
    token_id p' = token_id p /\
    valid_positions st'
    = if Num.eq_zero (liquidity p')
      then valid_pop (token_id p) (valid_positions st)
      else valid_positions st.
Proof.
  intros H. unfold decrease_liquidity, record_wallet in H. sinv H.
  all: simplify_eq; cbn.
  all: repeat match goal with
       | Hh : log_history _ _ _ = _ |- _ => apply log_history_eq in Hh as ->
       end.
  all: split; [done|]; split; [done|]; split; [done|].
  all: eexists _, _; split; [eassumption|];
       split; [apply lookup_insert_eq|]; cbn.
  all: match goal with
       | Hd : Position.decrease_liquidity _ _ _ _ = _ |- _ =>
           apply Frame.decrease_liquidity_range in Hd as [Ht _]
       end.
  all: match goal with
       | Hz : Num.eq_zero _ = _ |- _ => rewrite Hz
       end.
  all: by rewrite ?Ht.
Qed.

Lemma decrease_liquidity_effect_witness :
  1 = 1 /\
  amount0 Ex.halved = amount0 Ex.minted + 500 /\
  amount1 Ex.halved = amount1 Ex.minted + 500 /\
  exists p p',
    positions Ex.minted !! 1 = Some p /\ positions Ex.halved !! 1 = Some p' /\
    token_id p' = token_id p /\
    valid_positions Ex.halved
    = if Num.eq_zero (liquidity p')
      then valid_pop (token_id p) (valid_positions Ex.minted)
      else valid_positions Ex.minted.
Proof.
  apply (decrease_liquidity_effect 1 None (F Ex.f_half) Ex.minted 1 500 500).
  vm_compute. reflexivity.
Defined.

(** X18. A [collect] that returns hands the fees of the position over to
    the wallet and leaves the position without fees; a second [collect]
    then returns, gives [(0, 0)] and leaves the two balances as they
    are. *)
Theorem collect_effect tid st a0 a1 st' :
  collect tid st = (Ok (a0, a1), st') ->
  (exists p p',
     positions st !! tid = Some p /\ positions st' !! tid = Some p' /\
     a0 = fee0 p /\ a1 = fee1 p /\ fee0 p' = 0 /\ fee1 p' = 0) /\
  amount0 st' = amount0 st + a0 /\ amount1 st' = amount1 st + a1 /\
  exists st'',
    collect tid st' = (Ok (0, 0), st'') /\
    amount0 st'' = amount0 st' /\ amount1 st'' = amount1 st'.
Proof.
  intros H. unfold collect, record_wallet in H. sinv H. simplify_eq.
  match goal with
  | Hc : Position.collect _ = _ |- _ =>
      unfold Position.collect in Hc; minv Hc;
      apply Step.mret_ok_inv in Hc as [[= -> ->] ->]
  end.
  match goal with
  | Hb : log_balance _ _ _ _ _ _ = _ |- _ =>
      apply log_balance_eq in Hb as (b0 & b1 & Hb0 & Hb1 & ->)
  end.
  split.
  { eexists _, _. split; [eassumption|].
    split; [cbn; apply lookup_insert_eq|]. by cbn. }
  split; [done|]. split; [done|].
  unfold collect, record_wallet, mbind, M_bind, get, with_position, modify,
    mret, M_ret.
  cbn. rewrite lookup_insert_eq.
  unfold Position.collect, mbind, M_bind, get, modify, mret, M_ret.
  cbn. rewrite lookup_insert_eq.
  unfold log_balance, mbind, M_bind, reads, modify.
  change (amount0_psqrt (set_fees 0 0 (set_balance ?l (set_fees 0 0 ?p))) ?sp)
    with (amount0_psqrt p sp).
  change (amount1_psqrt (set_fees 0 0 (set_balance ?l (set_fees 0 0 ?p))) ?sp)
    with (amount1_psqrt p sp).
  change (amount0_psqrt (set_fees 0 0 ?p) ?sp) with (amount0_psqrt p sp)
    in Hb0.
  change (amount1_psqrt (set_fees 0 0 ?p) ?sp) with (amount1_psqrt p sp)
    in Hb1.
  rewrite Hb0, Hb1. eexists. split; [reflexivity|]. cbn. lia.
Qed.

Lemma collect_effect_witness :
  (exists p p',
     positions Earned.earned !! 1 = Some p /\
     positions (collect 1 Earned.earned).2 !! 1 = Some p' /\
     0 = fee0 p /\ 978076 = fee1 p /\ fee0 p' = 0 /\ fee1 p' = 0) /\
  amount0 (collect 1 Earned.earned).2 = amount0 Earned.earned + 0 /\
  amount1 (collect 1 Earned.earned).2 = amount1 Earned.earned + 978076 /\
  exists st'',
    collect 1 (collect 1 Earned.earned).2 = (Ok (0, 0), st'') /\
    amount0 st'' = amount0 (collect 1 Earned.earned).2 /\
    amount1 st'' = amount1 (collect 1 Earned.earned).2.
Proof.
  apply (collect_effect 1 Earned.earned 0 978076).
  vm_compute. reflexivity.
Defined.

Lemma swap_raises in_token amount pct st e st' :
  swap in_token amount pct st = (Raise e, st') -> st' = st.
Proof.
  unfold swap, mbind, M_bind, reads, get, lift, modify, mret, M_ret.
  destruct (negb (in_token =? 0)).
  - destruct (swap_amount _ _ _) as [a|?]; [|by intros [= _ <-]].
    destruct (total_amount_of _ _) as [t|?]; [|by intros [= _ <-]].
    destruct (py_assert _) as [[]|?]; [|by intros [= _ <-]].
    destruct (out_amount0 _ _) as [o|?]; [discriminate | by intros [= _ <-]].
  - destruct (swap_amount _ _ _) as [a|?]; [|by intros [= _ <-]].
    destruct (total_amount_of _ _) as [t|?]; [|by intros [= _ <-]].
    destruct (py_assert _) as [[]|?]; [|by intros [= _ <-]].
    destruct (out_amount1 _ _) as [o|?]; [discriminate | by intros [= _ <-]].
Qed.

Lemma swap_returns in_token amount pct st out st' :
  swap in_token amount pct st = (Ok out, st') ->
  exists total,
    st' = (if negb (in_token =? 0)
           then set_wallet (amount0 st + out) (amount1 st - total) st
           else set_wallet (amount0 st - total) (amount1 st + out) st) /\
    total < (if negb (in_token =? 0) then amount1 st else amount0 st).
Proof.
  unfold swap. destruct (negb (in_token =? 0)); intros H; sinv H.
  all: simplify_eq.
  all: match goal with
       | Ha : py_assert _ = Ok _ |- _ =>
           apply Step.py_assert_ok_inv, Z.ltb_lt in Ha
       end.
  all: eexists; split; [reflexivity | done].
Qed.

(** X19. The wallet's [swap] changes the two balances and nothing else:
    no position, no valid position, no log entry (also none in the
    wallet log). The balance of the token it spends stays above zero,
    and a [swap] that raises leaves the simulation as it was. *)
Theorem swap_effect in_token amount pct st r st' :
  swap in_token amount pct st = (r, st') ->
  match r with
  | Raise _ => st' = st
  | Ok out =>
      positions st' = positions st /\
      valid_positions st' = valid_positions st /\
      wallet_logs st' = wallet_logs st /\
      sqrt_price st' = sqrt_price st /\
      if negb (in_token =? 0)
      then amount0 st' = amount0 st + out /\ 0 < amount1 st'
      else amount1 st' = amount1 st + out /\ 0 < amount0 st'
  end.
Proof.
  intros H. destruct r as [out|e].
  - apply swap_returns in H as (total & -> & Hlt).
    destruct (negb (in_token =? 0)); cbn; repeat split; lia.
  - by apply swap_raises in H.
Qed.

Lemma swap_effect_witness :
  positions (swap 1 100 (I 0) Ex.minted).2 = positions Ex.minted /\
  valid_positions (swap 1 100 (I 0) Ex.minted).2
    = valid_positions Ex.minted /\
  wallet_logs (swap 1 100 (I 0) Ex.minted).2 = wallet_logs Ex.minted /\
  sqrt_price (swap 1 100 (I 0) Ex.minted).2 = sqrt_price Ex.minted /\
  amount0 (swap 1 100 (I 0) Ex.minted).2 = amount0 Ex.minted + 99 /\
  0 < amount1 (swap 1 100 (I 0) Ex.minted).2.
Proof.
  apply (swap_effect 1 100 (I 0) Ex.minted (Ok 99)).
  vm_compute. reflexivity.
Defined.

(** The loop of [on_swap] touches the registry only, and there only the
    positions it goes through. *)
Lemma for_each_accrue_frame a b blk t l s u s' :
  for_each l (accrue a b blk t) s = (Ok u, s') ->
  (exists m, s' = set_positions m s) /\
  (forall k, k ∉ l -> positions s' !! k = positions s !! k).
Proof.
  revert s. induction l as [|x l IH]; intros s H.
  - simpl in H. injection H as _ <-. split; [|done].
    exists (positions s). by rewrite set_positions_id.
  - simpl in H. apply Step.bind_ok_inv in H as (? & s1 & H1 & H).
    apply IH in H as [[m ->] Hf].
    unfold accrue in H1. sinv H1. split.
    + eexists. reflexivity.
    + intros k Hk. rewrite not_elem_of_cons in Hk. destruct Hk as [Hk1 Hk2].
      rewrite (Hf k Hk2). cbn. by rewrite !lookup_insert_ne.
Qed.

(** X20. An [on_swap] that returns takes the market data from the
    event, the price as the quotient of [sqrtPriceX96] by [2**96], and
    appends one entry to the wallet log; it leaves the two balances, the
    valid positions and every position that is not valid as they
    were. *)
Theorem on_swap_effect ev st u st' :
  on_swap ev st = (Ok u, st') ->
  sqrt_price_x96 st' = ev_sqrtPriceX96 ev /\
  int_truediv (ev_sqrtPriceX96 ev) (2 ^ 96) = Ok (sqrt_price st') /\
  tick st' = ev_tick ev /\ block_number st' = ev_blockNumber ev /\
  timestamp st' = ev_timestamp ev /\ L st' = ev_liquidity ev /\
  amount0 st' = amount0 st /\ amount1 st' = amount1 st /\
  valid_positions st' = valid_positions st /\
  wallet_logs st'
  = wallet_logs st ++
    [{| wl_block := ev_blockNumber ev; wl_timestamp := ev_timestamp ev;
        wl_amount0 := amount0 st; wl_amount1 := amount1 st |}] /\
  forall k, k ∉ valid_positions st -> positions st' !! k = positions st !! k.
Proof.
  intros H. unfold on_swap, record_wallet in H. sinv H.
  match goal with
  | Hf : for_each _ _ _ = _ |- _ =>
      apply for_each_accrue_frame in Hf as [[m ->] Hf]
  end.
  cbn in *. repeat split; try done.
Qed.

Lemma on_swap_effect_witness :
  sqrt_price_x96 Earned.earned = ev_sqrtPriceX96 Earned.ev_up /\
  int_truediv (ev_sqrtPriceX96 Earned.ev_up) (2 ^ 96)
    = Ok (sqrt_price Earned.earned) /\
  tick Earned.earned = ev_tick Earned.ev_up /\
  block_number Earned.earned = ev_blockNumber Earned.ev_up /\
  timestamp Earned.earned = ev_timestamp Earned.ev_up /\
  L Earned.earned = ev_liquidity Earned.ev_up /\
  amount0 Earned.earned = amount0 Earned.opened /\
  amount1 Earned.earned = amount1 Earned.opened /\
  valid_positions Earned.earned = valid_positions Earned.opened /\
  wallet_logs Earned.earned
  = wallet_logs Earned.opened ++
    [{| wl_block := ev_blockNumber Earned.ev_up;
        wl_timestamp := ev_timestamp Earned.ev_up;
        wl_amount0 := amount0 Earned.opened;
        wl_amount1 := amount1 Earned.opened |}] /\
  forall k, k ∉ valid_positions Earned.opened ->
            positions Earned.earned !! k = positions Earned.opened !! k.
Proof.
  apply (on_swap_effect Earned.ev_up Earned.opened tt).
  vm_compute. reflexivity.
Defined.

(** X21. With no valid position, and a price that converts to a float,
    [on_swap] is [init] followed by [record_wallet]. *)
Theorem on_swap_without_positions ev st sp :
  valid_positions st = [] ->
  int_truediv (ev_sqrtPriceX96 ev) (2 ^ 96) = Ok sp ->
  on_swap ev st = (_ ← Pool.init ev; record_wallet) st.
Proof.
  intros Hv Hsp.
  unfold on_swap, Pool.init, record_wallet, mbind, M_bind, get, modify, lift,
    mret, M_ret.
  rewrite Hsp. cbn. rewrite Hv. reflexivity.
Qed.

Lemma on_swap_without_positions_witness :
  on_swap Ex.ev_price_one (init_sim 2000 2000 8 18 3000 false)
  = (_ ← Pool.init Ex.ev_price_one; record_wallet)
      (init_sim 2000 2000 8 18 3000 false).
Proof.
  apply (on_swap_without_positions Ex.ev_price_one
           (init_sim 2000 2000 8 18 3000 false) f1).
  - reflexivity.
  - vm_compute. reflexivity.
Defined.

End PoolProps.

(** ** Liquidity calls move tokens between the wallet and a position *)

Module Conservation.
Import Position PositionProps Sim SimProps SimLogProps MintProps.

(** What a position holds before and after, and the difference it
    reports. *)
Lemma increase_liquidity_amounts sp amt0 amt1 p l d0 d1 p' :
  Position.increase_liquidity sp amt0 amt1 p = (Ok (l, d0, d1), p') ->
  exists x0 x1 y0 y1,
    amount0_psqrt p sp = Ok x0 /\ amount1_psqrt p sp = Ok x1 /\
    amount0_psqrt p' sp = Ok y0 /\ amount1_psqrt p' sp = Ok y1 /\
    d0 = y0 - x0 /\ d1 = y1 - x1.
Proof.
  unfold Position.increase_liquidity, mbind, M_bind, reads, mret, M_ret.
  destruct (amount0_psqrt p sp) as [x0|e]; [|discriminate].
  destruct (amount1_psqrt p sp) as [x1|e]; [|discriminate].
  destruct (PositionUtil.cal_liquidity_sqrt _ _ _ _ _) as [[[l' z0] z1]|e];
    [|discriminate].
  destruct (Num.add (liquidity p) l') as [liq|e]; [|discriminate].
  destruct (update_liquidity liq p) as [[[]|e] p1]; [|discriminate].
  destruct (amount0_psqrt p1 sp) as [y0|e] eqn:E0; [|discriminate].
  destruct (amount1_psqrt p1 sp) as [y1|e] eqn:E1; [|discriminate].
  intros [= <- <- <- <-]. exists x0, x1, y0, y1. by rewrite E0, E1.
Qed.

Lemma decrease_liquidity_amounts sp liq pct p l d0 d1 p' :
  Position.decrease_liquidity sp liq pct p = (Ok (l, d0, d1), p') ->
  exists x0 x1 y0 y1,
    amount0_psqrt p sp = Ok x0 /\ amount1_psqrt p sp = Ok x1 /\
    amount0_psqrt p' sp = Ok y0 /\ amount1_psqrt p' sp = Ok y1 /\
    d0 = x0 - y0 /\ d1 = x1 - y1.
Proof.
  intros H. unfold Position.decrease_liquidity in H.
  apply Step.bind_ok_inv in H as (u & p1 & H1 & H).
  apply Step.lift_ok_inv in H1 as [_ ->].
  apply Step.bind_ok_inv in H as (amount & p1 & H1 & H).
  assert (p1 = p) as ->.
  { destruct liq as [x|]; [destruct (Num.truthy x)|].
    - by apply Step.mret_ok_inv in H1 as [_ ->].
    - minv H1. by apply Step.reads_ok_inv in H1 as [_ ->].
    - minv H1. by apply Step.reads_ok_inv in H1 as [_ ->]. }
  clear H1. revert H.
  unfold mbind, M_bind, reads, mret, M_ret.
  destruct (amount0_psqrt p sp) as [x0|e]; [|discriminate].
  destruct (amount1_psqrt p sp) as [x1|e]; [|discriminate].
  destruct (Num.sub (liquidity p) amount) as [l'|e]; [|discriminate].
  destruct (update_liquidity l' p) as [[[]|e] p2]; [|discriminate].
  destruct (amount0_psqrt p2 sp) as [y0|e] eqn:E0; [|discriminate].
  destruct (amount1_psqrt p2 sp) as [y1|e] eqn:E1; [|discriminate].
  intros [= <- <- <- <-]. exists x0, x1, y0, y1. by rewrite E0, E1.
Qed.

Lemma amounts_after_logs sp h b p :
  amount0_psqrt (set_balance b (set_history h p)) sp = amount0_psqrt p sp /\
  amount1_psqrt (set_balance b (set_history h p)) sp = amount1_psqrt p sp.
Proof. split; reflexivity. Qed.

(** X22. [increase_liquidity] and [decrease_liquidity] of the simulation
    create and destroy no tokens: when the call returns, for each token
    the wallet balance plus what the position holds at the current
    price is what it was before the call. *)
Theorem liquidity_calls_conserve st st' tid :
  ((exists amt0 amt1 r,
      increase_liquidity tid amt0 amt1 st = (Ok r, st')) \/
   (exists liq pct r,
      decrease_liquidity tid liq pct st = (Ok r, st'))) ->
  exists p p' x0 x1 y0 y1,
    positions st !! tid = Some p /\ positions st' !! tid = Some p' /\
    sqrt_price st' = sqrt_price st /\
    amount0_psqrt p (sqrt_price st) = Ok x0 /\
    amount1_psqrt p (sqrt_price st) = Ok x1 /\
    amount0_psqrt p' (sqrt_price st) = Ok y0 /\
    amount1_psqrt p' (sqrt_price st) = Ok y1 /\
    amount0 st' + y0 = amount0 st + x0 /\
    amount1 st' + y1 = amount1 st + x1.
Proof.
  intros [(amt0 & amt1 & r & H) | (liq & pct & r & H)].
  - unfold increase_liquidity, record_wallet in H. sinv H. simplify_eq.
    match goal with
    | Hi : Position.increase_liquidity _ _ _ _ = _ |- _ =>
        apply increase_liquidity_amounts in Hi
          as (x0 & x1 & y0 & y1 & X0 & X1 & Y0 & Y1 & -> & ->)
    end.
    repeat match goal with
    | Hh : log_history _ _ _ = _ |- _ => apply log_history_eq in Hh as ->
    | Hb : log_balance _ _ _ _ _ _ = _ |- _ =>
        apply log_balance_eq in Hb as (? & ? & _ & _ & ->)
    end.
    eexists _, _, x0, x1, y0, y1. split; [eassumption|].
    split; [cbn; apply lookup_insert_eq|]. cbn.
    repeat split; try done; lia.
  - unfold decrease_liquidity, record_wallet in H. sinv H.
    all: simplify_eq.
    all: match goal with
    | Hi : Position.decrease_liquidity _ _ _ _ = _ |- _ =>
        apply decrease_liquidity_amounts in Hi
          as (x0 & x1 & y0 & y1 & X0 & X1 & Y0 & Y1 & -> & ->)
    end.
    all: repeat match goal with
    | Hh : log_history _ _ _ = _ |- _ => apply log_history_eq in Hh as ->
    end.
    all: eexists _, _, x0, x1, y0, y1; split; [eassumption|].
    all: split; [cbn; apply lookup_insert_eq|]; cbn.
    all: repeat split; try done; lia.
Qed.

Lemma liquidity_calls_conserve_witness :
  exists p p' x0 x1 y0 y1,
    positions Ex.minted !! 1 = Some p /\
    positions Ex.halved !! 1 = Some p' /\
    sqrt_price Ex.halved = sqrt_price Ex.minted /\
    amount0_psqrt p (sqrt_price Ex.minted) = Ok x0 /\
    amount1_psqrt p (sqrt_price Ex.minted) = Ok x1 /\
    amount0_psqrt p' (sqrt_price Ex.minted) = Ok y0 /\
    amount1_psqrt p' (sqrt_price Ex.minted) = Ok y1 /\
    amount0 Ex.halved + y0 = amount0 Ex.minted + x0 /\
    amount1 Ex.halved + y1 = amount1 Ex.minted + x1.
Proof.
  apply (liquidity_calls_conserve Ex.minted Ex.halved 1).
  right. exists None, (F Ex.f_half), (1, 500, 500).
  vm_compute. reflexivity.
Defined.

End Conservation.

(** ** Closing a position: all of the liquidity, then the fees *)

Module CloseOut.
Import Position PositionProps Sim SimProps FloatProps.

Lemma zero_mul_int s x z : py_int (fmul (S754_zero s) x) = Ok z -> z = 0.
Proof.
  destruct x as [sx|sx| |sx mx ex]; simpl; try discriminate; by intros [= <-].
Qed.

Lemma zero_mul_float_int l x z :
  Num.eq_zero l = true ->
  (v ← Num.mul_float l x; py_int v) = Ok z -> z = 0.
Proof.
  destruct l as [n|y]; simpl.
  - intros ->%Z.eqb_eq. apply zero_mul_int.
  - destruct y; try discriminate. intros _. apply zero_mul_int.
Qed.

(** A position without liquidity and with zero edge amounts holds
    nothing, at whatever price the amounts are computed. *)
Lemma empty_amount0 p sp a :
  Num.eq_zero (liquidity p) = true -> _amount0_edge p = 0 ->
  amount0_psqrt p sp = Ok a -> a = 0.
Proof.
  intros Hl He. unfold amount0_psqrt.
  destruct (fleb sp (low_price_sqrt p)); [congruence|].
  destruct (fltb sp (high_price_sqrt p)); [|congruence].
  destruct (truediv f1 sp) as [r|e]; simpl; [|discriminate].
  by apply zero_mul_float_int.
Qed.

Lemma empty_amount1 p sp a :
  Num.eq_zero (liquidity p) = true -> _amount1_edge p = 0 ->
  amount1_psqrt p sp = Ok a -> a = 0.
Proof.
  intros Hl He. unfold amount1_psqrt.
  destruct (fleb sp (low_price_sqrt p)); [congruence|].
  destruct (fltb sp (high_price_sqrt p)); [|congruence].
  by apply zero_mul_float_int.
Qed.

Lemma eq_zero_zero_like l : Num.eq_zero (Num.zero_like l) = true.
Proof. by destruct l. Qed.

(** X23. The way the strategies leave a pool,
    [decrease_liquidity(token_id, pct=1)] followed by
    [collect(token_id)]: for a position of finite liquidity with
    consistent edge amounts whose holdings are computable at the current
    price, both calls return, the wallet receives the holdings and the
    uncollected fees, the token id is no longer valid, and what is left
    of the position has no fees and holds nothing at any price. *)
Theorem close_out st tid p a0 a1 :
  positions st !! tid = Some p -> token_id p = tid ->
  Num.finite (liquidity p) = true -> consistent p ->
  amount0_psqrt p (sqrt_price st) = Ok a0 ->
  amount1_psqrt p (sqrt_price st) = Ok a1 ->
  exists st1 st2 p2,
    decrease_liquidity tid None (I 1) st = (Ok (tid, a0, a1), st1) /\
    collect tid st1 = (Ok (fee0 p, fee1 p), st2) /\
    amount0 st2 = amount0 st + a0 + fee0 p /\
    amount1 st2 = amount1 st + a1 + fee1 p /\
    (tid ∉ valid_positions st2) /\
    positions st2 !! tid = Some p2 /\
    fee0 p2 = 0 /\ fee1 p2 = 0 /\
    (forall sp a, amount0_psqrt p2 sp = Ok a -> a = 0) /\
    (forall sp a, amount1_psqrt p2 sp = Ok a -> a = 0).
Proof.
  intros Hp Htid Hl Hc H0 H1.
  pose proof (decrease_all p (sqrt_price st) a0 a1 Hl Hc H0 H1) as Hd.
  pose proof (amount0_psqrt_closed _ _ _ (liquidity p) 0 H0) as C0.
  pose proof (amount1_psqrt_closed _ _ _ (liquidity p) 0 H1) as C1.
  unfold decrease_liquidity, mbind, M_bind, get; simpl.
  rewrite (with_position_some _ _ _ _ _ _ Hp Hd).
  set (p1 := with_liquidity (Num.zero_like (liquidity p)) 0 0 p) in *.
  rewrite (with_position_reads tid _ _ p1) by (simpl; apply lookup_insert_eq).
  rewrite (with_position_reads tid _ _ p1) by (simpl; apply lookup_insert_eq).
  replace (Num.eq_zero (liquidity p1)) with true
    by (subst p1; simpl; by destruct (liquidity p)).
  simpl.
  erewrite with_position_some;
    [| simpl; apply lookup_insert_eq | reflexivity].
  unfold mret, M_ret; simpl.
  eexists _, _, _. split; [reflexivity|].
  unfold collect, record_wallet, mbind, M_bind, get, with_position, modify,
    mret, M_ret.
  cbn. rewrite lookup_insert_eq.
  unfold Position.collect, mbind, M_bind, get, modify, mret, M_ret.
  cbn. rewrite lookup_insert_eq.
  unfold log_balance, mbind, M_bind, reads, modify.
  change (amount0_psqrt (set_fees 0 0 (set_history ?h p1)) ?sp)
    with (amount0_psqrt p1 sp).
  change (amount1_psqrt (set_fees 0 0 (set_history ?h p1)) ?sp)
    with (amount1_psqrt p1 sp).
  rewrite C0, C1. cbn.
  split; [reflexivity|].
  split; [reflexivity|]. split; [reflexivity|].
  split; [rewrite Htid; apply valid_pop_not_elem|].
  split; [apply lookup_insert_eq|].
  split; [done|]. split; [done|].
  split; intros sp a.
  - apply empty_amount0; [apply eq_zero_zero_like | done].
  - apply empty_amount1; [apply eq_zero_zero_like | done].
Qed.

Lemma close_out_witness :
  exists st1 st2 p2,
    decrease_liquidity 1 None (I 1) Earned.earned
      = (Ok (1, 674292439, 1326025634), st1) /\
    collect 1 st1 = (Ok (0, 978076), st2) /\
    amount0 st2 = amount0 Earned.earned + 674292439 + 0 /\
    amount1 st2 = amount1 Earned.earned + 1326025634 + 978076 /\
    (1 ∉ valid_positions st2) /\
    positions st2 !! 1 = Some p2 /\
    fee0 p2 = 0 /\ fee1 p2 = 0 /\
    (forall sp a, amount0_psqrt p2 sp = Ok a -> a = 0) /\
    (forall sp a, amount1_psqrt p2 sp = Ok a -> a = 0).
Proof.
  assert (Hp : exists p,
    positions Earned.earned !! 1 = Some p /\
    fee0 p = 0 /\ fee1 p = 978076 /\ token_id p = 1 /\
    Num.finite (liquidity p) = true /\ consistent p /\
    amount0_psqrt p (sqrt_price Earned.earned) = Ok 674292439 /\
    amount1_psqrt p (sqrt_price Earned.earned) = Ok 1326025634).
  { eexists. split; [vm_compute; reflexivity|].
    vm_compute. repeat split; reflexivity. }
  destruct Hp as (p & Hp & F0 & F1 & Ht & Hl & Hc & H0 & H1).
  pose proof (close_out Earned.earned 1 p _ _ Hp Ht Hl Hc H0 H1) as H.
  rewrite F0, F1 in H. exact H.
Defined.

End CloseOut.

(** ** PriceConverter: the domain of the conversions *)

Module RoundProps.

(** The rounding keeps the sign it is given. *)
Lemma round_sign s m e l :
  match binary_round_aux prec emax s m e l with
  | S754_nan => True
  | S754_zero s' | S754_infinity s' | S754_finite s' _ _ => s' = s
  end.
Proof.
  unfold binary_round_aux.
  destruct (shr_fexp prec emax m e l) as [mrs' e'].
  destruct (shr_fexp prec emax _ e' loc_Exact) as [mrs'' e''].
  destruct (shr_m mrs'') as [|q|q]; [done| |done].
  by destruct (e'' <=? emax - prec).
Qed.

Lemma shr_1_nonneg mrs : 0 <= shr_m mrs -> 0 <= shr_m (shr_1 mrs).
Proof. destruct mrs as [[|[q|q|]|q] r s]; simpl; lia. Qed.

Lemma iter_shr_1_nonneg n mrs :
  0 <= shr_m mrs -> 0 <= shr_m (SpecFloat.iter_pos shr_1 n mrs).
Proof.
  revert mrs. induction n as [n IH|n IH|]; intros mrs H; simpl.
  - apply IH, IH, shr_1_nonneg, H.
  - apply IH, IH, H.
  - apply shr_1_nonneg, H.
Qed.

Lemma shr_fexp_nonneg m e l :
  0 <= m -> 0 <= shr_m (shr_fexp prec emax m e l).1.
Proof.
  intros H. unfold shr_fexp, shr.
  assert (H0 : 0 <= shr_m (shr_record_of_loc m l))
    by (destruct l as [|[]]; exact H).
  destruct (fexp prec emax (Zdigits2 m + e) - e); simpl; try exact H0.
  by apply iter_shr_1_nonneg.
Qed.

Lemma round_nearest_even_nonneg m l :
  0 <= m -> 0 <= round_nearest_even m l.
Proof.
  intros H. destruct l as [|[]]; simpl; try lia.
  destruct (Z.even m); lia.
Qed.

(** A mantissa that is not negative is never rounded to NaN. *)
Lemma round_not_nan s m e l :
  0 <= m -> binary_round_aux prec emax s m e l <> S754_nan.
Proof.
  intros H. unfold binary_round_aux.
  pose proof (shr_fexp_nonneg m e l H) as H1.
  destruct (shr_fexp prec emax m e l) as [mrs' e']. simpl in H1.
  pose proof (shr_fexp_nonneg _ e' loc_Exact
                (round_nearest_even_nonneg _ (loc_of_shr_record mrs') H1))
    as H2.
  destruct (shr_fexp prec emax _ e' loc_Exact) as [mrs'' e'']. simpl in H2.
  destruct (shr_m mrs'') as [|q|q]; [done| |lia].
  by destruct (e'' <=? emax - prec).
Qed.

(** The rounding of a number that is not negative, with the sign [s], is
    a zero, a finite float or an infinity of that sign. *)
Lemma round_cases s m e l :
  0 <= m ->
  binary_round_aux prec emax s m e l = S754_zero s \/
  binary_round_aux prec emax s m e l = S754_infinity s \/
  exists q k, binary_round_aux prec emax s m e l = S754_finite s q k.
Proof.
  intros H. pose proof (round_sign s m e l) as Hs.
  pose proof (round_not_nan s m e l H) as Hn.
  destruct (binary_round_aux prec emax s m e l) as [s'|s'| |s' q k];
    subst; eauto. done.
Qed.

Lemma fmul_pos_nonpositive m e y :
  FloatKind.nonpositive y = true ->
  FloatKind.nonpositive (fmul (S754_finite false m e) y) = true.
Proof.
  destruct y as [sy|[]| |[] my ey]; try done. intros _.
  unfold fmul, SFmul.
  destruct (round_cases (xorb false true) (Z.pos (m * my)) (e + ey)
              loc_Exact) as [-> | [-> | (q & k & ->)]]; done.
Qed.

Lemma div_core_nonneg m1 e1 m2 e2 :
  0 <= (SFdiv_core_binary prec emax (Z.pos m1) e1 (Z.pos m2) e2).1.1.
Proof.
  unfold SFdiv_core_binary.
  set (s := e1 - e2 - _).
  set (m' := match s with Z.pos _ => _ | 0 => _ | Z.neg _ => _ end).
  assert (Hm : 0 <= m').
  { subst m'. destruct s; try lia. apply Z.shiftl_nonneg. lia. }
  pose proof (Z_div_mod m' (Z.pos m2) eq_refl) as Hd.
  destruct (Z.div_eucl m' (Z.pos m2)) as [q r]. simpl. nia.
Qed.

Lemma fdiv_pos_negative m e y :
  FloatKind.negative y = true ->
  FloatKind.nonpositive (fdiv (S754_finite false m e) y) = true.
Proof.
  destruct y as [sy|[]| |[] my ey]; try done. intros _.
  unfold fdiv, SFdiv.
  pose proof (div_core_nonneg m e my ey) as Hq.
  destruct (SFdiv_core_binary prec emax (Z.pos m) e (Z.pos my) ey)
    as [[mz ez] lz]. simpl in Hq.
  destruct (round_cases (xorb false true) mz ez lz Hq)
    as [-> | [-> | (q & k & ->)]]; done.
Qed.

Lemma sqrt_not_negative x s :
  math_sqrt x = Ok s -> FloatKind.negative s = false.
Proof.
  destruct x as [sx|[]| |[] m e]; simpl; try by intros [= <-].
  intros [= <-].
  destruct (SFsqrt_core_binary prec emax (Z.pos m) e) as [[mz ez] lz].
  pose proof (round_sign false mz ez lz) as Hs.
  destruct (binary_round_aux prec emax false mz ez lz); subst; done.
Qed.

End RoundProps.

Module ConverterProps.
Import Price Converter RoundProps.

Lemma m_log_nonpositive c_log x :
  FloatKind.nonpositive x = true ->
  m_log c_log x = Raise (ValueError "math domain error").
Proof. by destruct x as [sx|[]| |[] m e]. Qed.

Lemma x96_float :
  float_of_int X96FACTOR = Ok (S754_finite false 4503599627370496 44).
Proof. reflexivity. Qed.

Lemma trunc_not_negative x :
  FloatKind.negative x = false -> 0 <= trunc x.
Proof.
  destruct x as [sx|sx| |[] m e]; simpl; try done.
  intros _. apply Z.shiftl_nonneg. lia.
Qed.

Lemma fmul_pos_not_negative x m e :
  FloatKind.negative x = false ->
  FloatKind.negative (fmul x (S754_finite false m e)) = false.
Proof.
  destruct x as [sx|[]| |[] mx ex]; try done. intros _.
  unfold fmul, SFmul.
  pose proof (round_sign (xorb false false) (Z.pos (mx * m)) (ex + e)
                loc_Exact) as Hs.
  destruct (binary_round_aux _ _ _ _ _ _); subst; done.
Qed.

(** X25. [price_to_x96] never returns a negative sqrtPriceX96, and a
    price that converts to a dex price below zero is refused by
    [math.sqrt] with a [ValueError]. *)
Theorem price_to_x96_range pc price reverse :
  (forall z, price_to_x96 pc price reverse = Ok z -> 0 <= z) /\
  (forall d, price_to_dex pc price reverse = Ok d ->
     FloatKind.negative d = true ->
     price_to_x96 pc price reverse = Raise (ValueError "math domain error")).
Proof.
  unfold price_to_x96. split.
  - intros z. rewrite x96_float. unfold mbind, result_bind.
    destruct (price_to_dex pc price reverse) as [d|?]; [|discriminate].
    destruct (math_sqrt d) as [s|?] eqn:Hs; [|discriminate].
    apply sqrt_not_negative in Hs.
    pose proof (fmul_pos_not_negative s 4503599627370496 44 Hs) as Hm.
    destruct (fmul s _) as [sx|sx| |sx m e] eqn:E; try discriminate.
    + by intros [= <-].
    + intros [= <-]. by apply (trunc_not_negative (S754_finite sx m e)).
  - intros d -> Hd. unfold mbind, result_bind.
    by destruct d as [sx|[]| |[] m e].
Qed.

(** X26. [price_to_tick] has no tick for a price that is zero or
    negative: with a factor that is a positive finite number it raises
    [ValueError] (from [math.log]), and with [reverse] it raises
    [ZeroDivisionError] for a zero price and [ValueError] for a negative
    one. *)
Theorem price_to_tick_domain c_log pc price m e :
  Num.to_float (factor pc) = Ok (S754_finite false m e) ->
  FloatKind.nonpositive price = true ->
  price_to_tick c_log pc price false
    = Raise (ValueError "math domain error") /\
  price_to_tick c_log pc price true
    = (if is_zero price then Raise ZeroDivisionError
       else Raise (ValueError "math domain error")).
Proof.
  intros Hf Hp. unfold price_to_tick, price_to_dex, math_log. split.
  - simpl negb. cbv iota. unfold Num.mul_float. rewrite Hf. simpl.
    by rewrite (m_log_nonpositive _ _ (fmul_pos_nonpositive m e price Hp)).
  - simpl negb. cbv iota. rewrite Hf. simpl. unfold truediv.
    destruct (is_zero price) eqn:Hz; [done|]. simpl.
    rewrite m_log_nonpositive; [done|].
    apply fdiv_pos_negative. by destruct price as [sx|[]| |[] mp ep].
Qed.

Lemma price_to_x96_range_witness :
  (exists z, price_to_x96 pc_8_18 f1 false = Ok z /\ 0 <= z) /\
  price_to_x96 pc_8_18 (S754_finite true 4503599627370496 (-52)) false
    = Raise (ValueError "math domain error").
Proof.
  split.
  - exists (100000 * 2 ^ 96).
    assert (H : price_to_x96 pc_8_18 f1 false = Ok (100000 * 2 ^ 96))
      by (vm_compute; reflexivity).
    split; [exact H|].
    exact (proj1 (price_to_x96_range pc_8_18 f1 false) _ H).
  - apply (proj2 (price_to_x96_range pc_8_18 _ false)
             (S754_finite true 5242880000000000 (-19)));
      vm_compute; reflexivity.
Defined.

Lemma price_to_tick_domain_witness :
  price_to_tick Ex.c_log_sample pc_8_18 (S754_zero false) false
    = Raise (ValueError "math domain error") /\
  price_to_tick Ex.c_log_sample pc_8_18 (S754_zero false) true
    = Raise ZeroDivisionError.
Proof.
  apply (price_to_tick_domain Ex.c_log_sample pc_8_18 (S754_zero false)
           5242880000000000 (-19)); reflexivity.
Defined.

End ConverterProps.

(** ** The ticks a strategy mints with *)

Module TickProps.
Import HoldStrategy.

Lemma floor_60_mono a b : a <= b -> a - a mod 60 <= b - b mod 60.
Proof.
  intros H. rewrite !Z.mod_eq by lia.
  pose proof (Z.div_le_mono a b 60 ltac:(lia) H). lia.
Qed.

Lemma floor_60_fixed t : t mod 60 = 0 -> t - t mod 60 = t.
Proof. lia. Qed.

(** X27. [cal_tick] gives, upper first, the multiples of 60 at most 59
    below the ticks it is given, and keeps their order, though not a
    strict one: two ticks in the same interval of 60 come out equal.
    [mint] rounds its ticks in the same way, so that minting with the
    ticks of [cal_tick] is minting with the ticks it was given. *)
Theorem cal_tick_rounds upperTick lowerTick :
  let '(upper_tick, lower_tick) := cal_tick upperTick lowerTick in
  upper_tick mod 60 = 0 /\ lower_tick mod 60 = 0 /\
  upperTick - 60 < upper_tick <= upperTick /\
  lowerTick - 60 < lower_tick <= lowerTick /\
  (lowerTick <= upperTick -> lower_tick <= upper_tick) /\
  (lower_tick = upper_tick <-> lowerTick / 60 = upperTick / 60) /\
  forall float_pow amt0 amt1,
    Sim.mint float_pow lower_tick upper_tick amt0 amt1
    = Sim.mint float_pow lowerTick upperTick amt0 amt1.
Proof.
  unfold cal_tick.
  destruct (MintProps.round_down_60 upperTick) as [Hu Hub],
    (MintProps.round_down_60 lowerTick) as [Hl Hlb].
  split; [done|]. split; [done|]. split; [done|]. split; [done|].
  split; [apply floor_60_mono|].
  split; [rewrite !Z.mod_eq by lia; lia|].
  intros float_pow amt0 amt1. unfold Sim.mint.
  by rewrite (floor_60_fixed _ Hu), (floor_60_fixed _ Hl).
Qed.

End TickProps.

(** ** Replaying swap events *)

Module ReplayProps.
Import Position PositionProps Sim SimProps SimLogProps PoolProps Replay.

Lemma for_each_app {S A} (xs ys : list A) (body : A -> M S unit) s :
  for_each (xs ++ ys) body s = (_ ← for_each xs body; for_each ys body) s.
Proof.
  revert s. induction xs as [|x xs IH]; intros s; simpl.
  - reflexivity.
  - unfold mbind, M_bind in *.
    destruct (body x s) as [[[]|e] s1]; [apply IH | reflexivity].
Qed.

(** The frames are gone through one after the other: the events of all
    of them, in order. *)
Lemma run_on_swap_flat dfs s :
  Pool.run_on_swap dfs s = for_each (concat dfs) on_swap s.
Proof.
  unfold Pool.run_on_swap. revert s.
  induction dfs as [|df dfs IH]; intros s; simpl; [reflexivity|].
  rewrite for_each_app. unfold mbind, M_bind.
  destruct (for_each df on_swap s) as [[[]|e] s1]; [apply IH | reflexivity].
Qed.

Lemma on_swap_frame ev st u st' :
  on_swap ev st = (Ok u, st') ->
  at_event ev st' /\
  amount0 st' = amount0 st /\ amount1 st' = amount1 st /\
  valid_positions st' = valid_positions st /\
  wallet_logs st' = wallet_logs st ++ [entry_of st ev].
Proof.
  intros H. unfold on_swap, record_wallet in H. sinv H.
  match goal with
  | Hf : for_each _ _ _ = _ |- _ =>
      apply for_each_accrue_frame in Hf as [[m ->] Hf]
  end.
  cbn in *. unfold at_event. repeat split; try done.
Qed.

Lemma for_each_on_swap_replay evs st u st' :
  for_each evs on_swap st = (Ok u, st') ->
  amount0 st' = amount0 st /\ amount1 st' = amount1 st /\
  valid_positions st' = valid_positions st /\
  wallet_logs st' = wallet_logs st ++ map (entry_of st) evs /\
  match last evs with
  | None => st' = st
  | Some ev => at_event ev st'
  end.
Proof.
  revert st. induction evs as [|ev evs IH]; intros st H.
  - simpl in H. injection H as _ <-. by rewrite app_nil_r.
  - simpl in H. apply Step.bind_ok_inv in H as ([] & s1 & H1 & H).
    apply on_swap_frame in H1 as (Hev & A0 & A1 & Hv & Hw).
    apply IH in H as (B0 & B1 & Bv & Bw & Hlast).
    split; [congruence|]. split; [congruence|]. split; [congruence|].
    split.
    + rewrite Bw, Hw, <- app_assoc. simpl. f_equal. f_equal.
      apply map_ext. intros e. unfold entry_of. by rewrite A0, A1.
    + rewrite last_cons. destruct (last evs) as [e|]; [done|]. by subst.
Qed.

(** X28. [run_on_swap] replays the events of all the frames in order:
    when it returns, the market data of the simulation is that of the
    last event, the wallet balances and the valid positions are what
    they were, and the wallet log has one new entry for every event,
    each with the unchanged balances. Without any event nothing
    changes. *)
Theorem run_on_swap_replays dfs st u st' :
  Pool.run_on_swap dfs st = (Ok u, st') ->
  amount0 st' = amount0 st /\ amount1 st' = amount1 st /\
  valid_positions st' = valid_positions st /\
  wallet_logs st' = wallet_logs st ++ map (entry_of st) (concat dfs) /\
  match last (concat dfs) with
  | None => st' = st
  | Some ev => at_event ev st'
  end.
Proof.
  rewrite run_on_swap_flat. apply for_each_on_swap_replay.
Qed.

Lemma run_on_swap_replays_witness :
  let st := init_sim 2000 2000 8 18 3000 false in
  let st' := (Pool.run_on_swap [[Ex.ev_price_one]; []; [Earned.ev_up]] st).2 in
  amount0 st' = amount0 st /\ amount1 st' = amount1 st /\
  valid_positions st' = valid_positions st /\
  wallet_logs st'
    = wallet_logs st ++ map (entry_of st) [Ex.ev_price_one; Earned.ev_up] /\
  at_event Earned.ev_up st'.
Proof.
  apply (run_on_swap_replays [[Ex.ev_price_one]; []; [Earned.ev_up]]
           (init_sim 2000 2000 8 18 3000 false) tt).
  vm_compute. reflexivity.
Defined.

End ReplayProps.

(** ** Zero amounts *)

Module ZeroAmounts.
Import Position PositionProps Sim SimProps.

Lemma sizing_zero sp sl su :
  PositionUtil.cal_liquidity_sqrt sp sl su 0 0 = Raise AssertionError.
Proof.
  unfold PositionUtil.cal_liquidity_sqrt.
  destruct (fleb sp sl); [done|]. by destruct (fleb sp su).
Qed.

(** X29. Nothing can be minted or added with both amounts zero: the
    sizing refuses them. [increase_liquidity(token_id, 0, 0)] on a
    position whose holdings are computable, and [mint(lower, upper, 0,
    0)] with ticks at which the price bounds are computable, raise
    [AssertionError] and leave the simulation exactly as it was; no
    token id is used up. *)
Theorem zero_amounts_refused st :
  (forall tid p x0 x1,
     positions st !! tid = Some p ->
     amount0_psqrt p (sqrt_price st) = Ok x0 ->
     amount1_psqrt p (sqrt_price st) = Ok x1 ->
     increase_liquidity tid 0 0 st = (Raise AssertionError, st)) /\
  (forall float_pow lower upper lo hi,
     sqrt_price_at_tick float_pow (lower - lower mod 60) = Ok lo ->
     sqrt_price_at_tick float_pow (upper - upper mod 60) = Ok hi ->
     mint float_pow lower upper 0 0 st = (Raise AssertionError, st)).
Proof.
  split.
  - intros tid p x0 x1 Hp H0 H1.
    assert (Hi : Position.increase_liquidity (sqrt_price st) 0 0 p
                 = (Raise AssertionError, p)).
    { unfold Position.increase_liquidity, mbind, M_bind, reads.
      by rewrite H0, H1, sizing_zero. }
    unfold increase_liquidity, mbind, M_bind, get.
    rewrite (with_position_reads tid _ _ p Hp).
    rewrite (with_position_some _ _ _ _ _ _ Hp Hi).
    by rewrite insert_id, set_positions_id.
  - intros float_pow lower upper lo hi Hlo Hhi.
    unfold mint, mbind, M_bind, get, lift, py_assert.
    destruct (0 <=? amount0 st); [|reflexivity].
    destruct (0 <=? amount1 st); [|reflexivity].
    rewrite Hlo, Hhi. unfold result_bind. by rewrite sizing_zero.
Qed.

Lemma zero_amounts_refused_witness :
  increase_liquidity 1 0 0 Ex.minted = (Raise AssertionError, Ex.minted) /\
  mint RefPow.pow (-60) 60 0 0 Ex.minted = (Raise AssertionError, Ex.minted).
Proof.
  split.
  - apply (proj1 (zero_amounts_refused Ex.minted) 1 Ex.position_1 999 999);
      vm_compute; reflexivity.
  - eapply (proj2 (zero_amounts_refused Ex.minted) RefPow.pow (-60) 60);
      vm_compute; reflexivity.
Defined.

End ZeroAmounts.

(** ** Liquidity calls that raise *)

Module FailedCalls.
Import Position PositionProps Sim SimProps Frame.

Lemma same_but_liquidity_refl p : same_but_liquidity p p.
Proof. unfold same_but_liquidity. by rewrite with_liquidity_id. Qed.

Lemma same_but_liquidity_trans p1 p2 p3 :
  same_but_liquidity p1 p2 -> same_but_liquidity p2 p3 ->
  same_but_liquidity p1 p3.
Proof.
  unfold same_but_liquidity. intros H1 H2. rewrite H2 at 1.
  rewrite H1 at 1. apply with_liquidity_twice.
Qed.

Ltac liquidity_tac :=
  steps_tac same_but_liquidity_refl same_but_liquidity_trans;
  try reflexivity.

Lemma update_liquidity_only l : steps same_but_liquidity (update_liquidity l).
Proof. unfold update_liquidity. liquidity_tac. Qed.

Lemma increase_liquidity_only sp a0 a1 :
  steps same_but_liquidity (Position.increase_liquidity sp a0 a1).
Proof. unfold Position.increase_liquidity. liquidity_tac. Qed.

Lemma decrease_liquidity_only sp liq pct :
  steps same_but_liquidity (Position.decrease_liquidity sp liq pct).
Proof. unfold Position.decrease_liquidity. liquidity_tac. Qed.

(** X30. An [increase_liquidity] or a [decrease_liquidity] of the
    simulation that raises moves no tokens and writes no log: for an
    unknown token id the simulation is unchanged ([KeyError]); otherwise
    the simulation is as before except for the position, which is as
    before except, at most, for its liquidity and its two edge
    amounts. *)
Theorem failed_liquidity_call st st' tid e :
  ((exists amt0 amt1,
      increase_liquidity tid amt0 amt1 st = (Raise e, st')) \/
   (exists liq pct,
      decrease_liquidity tid liq pct st = (Raise e, st'))) ->
  match positions st !! tid with
  | None => e = KeyError /\ st' = st
  | Some p =>
      exists p', st' = set_positions (<[tid := p']> (positions st)) st /\
                 same_but_liquidity p p'
  end.
Proof.
  intros [(amt0 & amt1 & H) | (liq & pct & H)].
  - unfold increase_liquidity, mbind, M_bind, get in H.
    destruct (positions st !! tid) as [p|] eqn:Hp.
    2: { rewrite (with_position_none _ _ _ Hp) in H. by injection H as <- <-. }
    rewrite (with_position_reads tid _ _ p Hp) in H.
    destruct (Position.increase_liquidity (sqrt_price st) amt0 amt1 p)
      as [[[[l d0] d1]|e1] p1] eqn:Hi.
    + rewrite (with_position_some _ _ _ _ _ _ Hp Hi) in H.
      pose proof (increase_liquidity_only _ _ _ _ _ _ Hi) as R1.
      apply Conservation.increase_liquidity_amounts in Hi
        as (x0 & x1 & y0 & y1 & _ & _ & Y0 & Y1 & _ & _).
      unfold try_except_reraise, lift in H. simpl in H.
      assert (Hback : forall r s2,
        with_position tid (update_liquidity (liquidity p))
          (set_positions (<[tid:=p1]> (positions st)) st) = (r, s2) ->
        exists p', s2 = set_positions (<[tid:=p']> (positions st)) st /\
                   same_but_liquidity p p').
      { intros r s2 Hw.
        destruct (update_liquidity (liquidity p) p1) as [r2 p2] eqn:Hu.
        erewrite with_position_some in Hw;
          [| simpl; apply lookup_insert_eq | exact Hu].
        injection Hw as _ <-. exists p2. split.
        - rewrite set_positions_twice. simpl. by rewrite insert_insert_eq.
        - eapply same_but_liquidity_trans; [exact R1|].
          by apply (update_liquidity_only _ _ _ _ Hu). }
      destruct (d0 <=? amount0 st); simpl in H;
        [destruct (d1 <=? amount1 st); simpl in H|].
      * exfalso. revert H.
        unfold with_position, modify, record_wallet, mret, M_ret, reads,
          log_history, log_balance, mbind, M_bind, modify.
        cbn. repeat (rewrite lookup_insert_eq; cbn).
        change (amount0_psqrt (set_history ?h p1) ?sp)
          with (amount0_psqrt p1 sp).
        change (amount1_psqrt (set_history ?h p1) ?sp)
          with (amount1_psqrt p1 sp).
        rewrite Y0, Y1. discriminate.
      * destruct (with_position tid _ _) as [[u|e2] s2] eqn:Hw;
          injection H as <- <-; by eapply Hback.
      * destruct (with_position tid _ _) as [[u|e2] s2] eqn:Hw;
          injection H as <- <-; by eapply Hback.
    + rewrite (with_position_some _ _ _ _ _ _ Hp Hi) in H.
      injection H as <- <-. exists p1. split; [done|].
      by apply (increase_liquidity_only _ _ _ _ _ _ Hi).
  - unfold decrease_liquidity, mbind, M_bind, get in H.
    destruct (positions st !! tid) as [p|] eqn:Hp.
    2: { rewrite (with_position_none _ _ _ Hp) in H. by injection H as <- <-. }
    destruct (Position.decrease_liquidity (sqrt_price st) liq pct p)
      as [[[[l d0] d1]|e1] p1] eqn:Hi.
    + exfalso. rewrite (with_position_some _ _ _ _ _ _ Hp Hi) in H.
      revert H.
      unfold with_position, modify, record_wallet, mret, M_ret, reads,
        log_history, mbind, M_bind, modify.
      cbn. repeat (rewrite lookup_insert_eq; cbn).
      destruct (Num.eq_zero (liquidity p1)); cbn;
        repeat (rewrite lookup_insert_eq; cbn); discriminate.
    + rewrite (with_position_some _ _ _ _ _ _ Hp Hi) in H.
      injection H as <- <-. exists p1. split; [done|].
      by apply (decrease_liquidity_only _ _ _ _ _ _ Hi).
Qed.

Lemma failed_liquidity_call_witness :
  exists p',
    decrease_liquidity 1 None (I 0) Ex.minted
      = (Raise AssertionError,
         set_positions (<[1 := p']> (positions Ex.minted)) Ex.minted) /\
    same_but_liquidity Ex.position_1 p'.
Proof.
  assert (E : decrease_liquidity 1 None (I 0) Ex.minted
              = (Raise AssertionError, Ex.minted))
    by (vm_compute; reflexivity).
  assert (Hp : positions Ex.minted !! 1 = Some Ex.position_1)
    by (vm_compute; reflexivity).
  pose proof (failed_liquidity_call Ex.minted Ex.minted 1 AssertionError
                (or_intror (ex_intro _ None (ex_intro _ (I 0) E)))) as H.
  rewrite Hp in H. destruct H as (p' & Hs & Hr).
  exists p'. split; [|exact Hr].
  exact (eq_trans E (f_equal (pair (Raise AssertionError)) Hs)).
Defined.

End FailedCalls.
